(** * Force sensor driver (MLX90393 on a Raspberry Pi Pico)

    Shallow embedding of [force_sensor.c] and properties of its protocol
    state machine and measurement pipeline.

    - C [float] is IEEE 754 binary32 with round-to-nearest-even, taken from
      the Standard Library's executable specification [SpecFloat] at
      precision 24 and exponent bound 128.  Every arithmetic operation of
      the source is one rounded operation of the model (no fused
      multiply-add, no excess precision), and a decimal literal is the
      single nearest to it.
    - [uint8_t] values are [byte]s; [int] and [int16_t] values are [Z], and
      the conversion of an [int] to [int16_t] reduces modulo 2^16.
    - The global variables and the I2C bus live in an explicit state that is
      threaded through the driver functions by a small state monad.  The
      bus is an oracle: it decides for each blocking transfer whether it is
      acknowledged and which bytes a read delivers.  The transfers issued
      and the time slept are recorded in the state.
    - [printf] is modelled by returning the line printed; GPIO and the SDK
      initialization are left out. *)

From Stdlib Require Import ZArith Bool List Lia SpecFloat.
From Stdlib Require Import Strings.Byte.
From Stdlib Require Import QArith Qabs Qpower Lqa.
Import ListNotations.
Local Open Scope Z_scope.

(* ================================================================== *)
(** ** Single-precision arithmetic *)
(* ================================================================== *)

Module F32.

Definition prec : Z := 24.
Definition emax : Z := 128.

Definition float : Type := spec_float.

Definition add : float -> float -> float := SFadd prec emax.
Definition sub : float -> float -> float := SFsub prec emax.
Definition mul : float -> float -> float := SFmul prec emax.
Definition div : float -> float -> float := SFdiv prec emax.
Definition ltb : float -> float -> bool := SFltb.
Definition leb : float -> float -> bool := SFleb.
Definition opp : float -> float := SFopp.

(** [(float)z] for an integer [z]. *)
Definition of_Z (z : Z) : float := binary_normalize prec emax z 0 false.

(** The literal [n/d] written in decimal with suffix [f]: the quotient is
    formed exactly and rounded once. *)
Definition lit (n d : positive) : float :=
  SFdiv prec emax (S754_finite false n 0) (S754_finite false d 0).

Definition zero : float := S754_zero false.   (* 0.0f *)
Definition one : float := lit 1 1.            (* 1.0f *)

Definition is_nan (x : float) : bool :=
  match x with S754_nan => true | _ => false end.

(** Finite in the IEEE sense: a zero or a non-zero finite number. *)
Definition is_finite (x : float) : bool :=
  match x with S754_zero _ | S754_finite _ _ _ => true | _ => false end.

Definition valid (x : float) : bool := valid_binary prec emax x.

(** [0.0f <= x] as the C comparison evaluates it (false on NaN). *)
Definition nonneg (x : float) : bool := leb zero x.

(** Exact rational value: [F2Q s m e] is the mantissa [m], negated when
    [s] is set, times [2^e]; [toQ] is the value of a finite number ([0] for
    zeros, infinities and NaN). *)
Definition F2Q (s : bool) (m e : Z) : Q :=
  (inject_Z (cond_Zopp s m) * 2 ^ e)%Q.

Definition toQ (x : float) : Q :=
  match x with
  | S754_finite s m e => F2Q s (Zpos m) e
  | _ => 0%Q
  end.

(** Unit roundoff and half the smallest subnormal. *)
Definition eps : Q := (2 ^ (-24))%Q.
Definition eta : Q := (2 ^ (-150))%Q.

(** [nearest x n d]: [x] is a positive finite single whose distance to
    [n/d] is at most half a unit in its last place. *)
Definition nearest (x : float) (n d : positive) : bool :=
  match x with
  | S754_finite false m e =>
      valid x &&
      match e with
      | Zneg p =>
          (* |m/2^p - n/d| <= 1/2^(p+1) *)
          let s := Z.pow_pos 2 p in
          (Z.abs (2 * (Zpos m * Zpos d - Zpos n * s)) <=? Zpos d)
      | _ =>
          let s := 2 ^ e in
          (Z.abs (2 * (Zpos m * s * Zpos d - Zpos n)) <=? s * Zpos d)
      end
  | _ => false
  end.

End F32.

Definition float : Type := F32.float.

(* ================================================================== *)
(** ** Configuration constants *)
(* ================================================================== *)

Definition MLX90393_REG_SM : Z := 0x30.
Definition MLX90393_REG_RM : Z := 0x40.
Definition MLX90393_REG_EX : Z := 0x80.
Definition MLX90393_REG_RT : Z := 0xF0.
Definition MLX90393_AXIS_ALL : Z := 0x0E.

(** [51.94029384743018f] *)
Definition CALIBRATION_SLOPE : float :=
  F32.lit 5194029384743018 100000000000000.
(** [-692.9925307532482f]: unary minus applied to the literal. *)
Definition CALIBRATION_INTERCEPT : float :=
  F32.opp (F32.lit 6929925307532482 10000000000000).
(** [20.0f] *)
Definition Z_OFFSET_MT : float := F32.lit 20 1.
(** [0.4f] *)
Definition FILTER_VAL : float := F32.lit 4 10.

(* ================================================================== *)
(** ** Gain and resolution settings, scale table *)
(* ================================================================== *)

Inductive mlx90393_gain_t : Set :=
| MLX90393_GAIN_5X
| MLX90393_GAIN_4X
| MLX90393_GAIN_3X
| MLX90393_GAIN_2_5X
| MLX90393_GAIN_2X
| MLX90393_GAIN_1_67X
| MLX90393_GAIN_1_33X
| MLX90393_GAIN_1X.

Inductive mlx90393_resolution_t : Set :=
| MLX90393_RES_16
| MLX90393_RES_17
| MLX90393_RES_18
| MLX90393_RES_19.

(** The enumerators' integer values, used as array indices. *)
Definition gain_index (g : mlx90393_gain_t) : nat :=
  match g with
  | MLX90393_GAIN_5X => 0
  | MLX90393_GAIN_4X => 1
  | MLX90393_GAIN_3X => 2
  | MLX90393_GAIN_2_5X => 3
  | MLX90393_GAIN_2X => 4
  | MLX90393_GAIN_1_67X => 5
  | MLX90393_GAIN_1_33X => 6
  | MLX90393_GAIN_1X => 7
  end%nat.

Definition res_index (r : mlx90393_resolution_t) : nat :=
  match r with
  | MLX90393_RES_16 => 0
  | MLX90393_RES_17 => 1
  | MLX90393_RES_18 => 2
  | MLX90393_RES_19 => 3
  end%nat.

Definition res_eqb (a b : mlx90393_resolution_t) : bool :=
  Nat.eqb (res_index a) (res_index b).

(** A table entry written with three decimals: [milli 751] is [0.751f]. *)
Definition milli (thousandths : positive) : float := F32.lit thousandths 1000.

Definition lsb_table : Type := list (list (list (list float))).

(** One gain row of the table: the XY and Z factors, in thousandths, for
    the resolutions 16, 17, 18 and 19 in turn. *)
Definition gain_row (xy16 z16 xy17 z17 xy18 z18 xy19 z19 : positive)
  : list (list float) :=
  [ [milli xy16; milli z16]; [milli xy17; milli z17];
    [milli xy18; milli z18]; [milli xy19; milli z19] ].

(** [mlx90393_lsb_lookup[2][8][4][2]], indexed [HALLCONF][GAIN][RES][XY/Z]. *)
Definition mlx90393_lsb_lookup : lsb_table :=
  [ (* HALLCONF = 0xC (default) *)
    [
      gain_row 751 1210 1502 2420 3004 4840 6009 9680;  (* GAIN 5X *)
      gain_row 601 968 1202 1936 2403 3872 4840 7744;  (* GAIN 4X *)
      gain_row 451 726 901 1452 1803 2904 3605 5808;  (* GAIN 3X *)
      gain_row 376 605 751 1210 1502 2420 3004 4840;  (* GAIN 2.5X *)
      gain_row 300 484 601 968 1202 1936 2403 3872;  (* GAIN 2X *)
      gain_row 250 403 501 807 1001 1613 2003 3227;  (* GAIN 1.67X *)
      gain_row 200 323 401 645 801 1291 1602 2581;  (* GAIN 1.33X *)
      gain_row 150 242 300 484 601 968 1202 1936  (* GAIN 1X *)
    ];
    (* HALLCONF = 0x0 *)
    [
      gain_row 787 1267 1573 2534 3146 5068 6292 10137;
      gain_row 629 1014 1258 2027 2517 4055 5034 8109;
      gain_row 472 760 944 1521 1888 3041 3775 6082;
      gain_row 393 634 787 1267 1573 2534 3146 5068;
      gain_row 315 507 629 1014 1258 2027 2517 4055;
      gain_row 262 422 524 845 1049 1689 2097 3379;
      gain_row 210 338 419 676 839 1352 1678 2703;
      gain_row 157 253 315 507 629 1014 1258 2027
    ] ].

(** [tbl[h][g][r][a]].  The program only indexes with enumerators and the
    constants 0 and 1, which are in range; the default is never reached
    there (see [lsb_at_in_range]). *)
Definition lsb_at (tbl : lsb_table) (h g r a : nat) : float :=
  nth a (nth r (nth g (nth h tbl []) []) []) S754_nan.

(* ================================================================== *)
(** ** Integer conversions *)
(* ================================================================== *)

(** Value of a [uint8_t]. *)
Definition u8 (b : byte) : Z := Z.of_N (Byte.to_N b).

(** Conversion of an [int] to [int16_t]: reduction modulo 2^16 into
    [-32768, 32767]. *)
Definition int16_of_int (z : Z) : Z := (z + 32768) mod 65536 - 32768.

(** [status >> 2] *)
Definition status_code (status : byte) : Z := Z.shiftr (u8 status) 2.

(* ================================================================== *)
(** ** Measurement decoding (body of the success branch of
       [mlx_read_measurement]) *)
(* ================================================================== *)

(** The count [zi] after the resolution adjustment:
<<
    int16_t zi = (data[5] << 8) | data[6];
    if (mlx_res_z == MLX90393_RES_18) zi -= 0x8000;
    if (mlx_res_z == MLX90393_RES_19) zi -= 0x4000;
>>
    Each assignment to [zi] converts an [int] back to [int16_t]. *)
Definition z_count (res : mlx90393_resolution_t) (d5 d6 : byte) : Z :=
  let zi := int16_of_int (Z.lor (Z.shiftl (u8 d5) 8) (u8 d6)) in
  let zi := if res_eqb res MLX90393_RES_18
            then int16_of_int (zi - 0x8000) else zi in
  let zi := if res_eqb res MLX90393_RES_19
            then int16_of_int (zi - 0x4000) else zi in
  zi.

(** From the count to the value stored in [*z]:
<<
    float z_uT = (float)zi * mlx90393_lsb_lookup[0][mlx_gain][mlx_res_z][1];
    float z_mT = (z_uT / 1000.0f) + Z_OFFSET_MT;
    *z = (z_mT < 0.0f) ? 0.0f : z_mT;
>>
    The table is a parameter so that the entries a decode depends on can be
    stated; the program instantiates it with [mlx90393_lsb_lookup]. *)
Definition z_of_count (tbl : lsb_table) (gain : mlx90393_gain_t)
    (res : mlx90393_resolution_t) (zi : Z) : float :=
  let z_uT := F32.mul (F32.of_Z zi)
                (lsb_at tbl 0 (gain_index gain) (res_index res) 1) in
  let z_mT := F32.add (F32.div z_uT (F32.lit 1000 1)) Z_OFFSET_MT in
  if F32.ltb z_mT F32.zero then F32.zero else z_mT.

Definition decode_with (tbl : lsb_table) (gain : mlx90393_gain_t)
    (res : mlx90393_resolution_t) (d5 d6 : byte) : float :=
  z_of_count tbl gain res (z_count res d5 d6).

Definition decode_z : mlx90393_gain_t -> mlx90393_resolution_t ->
    byte -> byte -> float :=
  decode_with mlx90393_lsb_lookup.

(* ================================================================== *)
(** ** Filter and calibration *)
(* ================================================================== *)

Definition smooth (data filter_val smoothed_val : float) : float :=
  F32.add (F32.mul data (F32.sub F32.one filter_val))
          (F32.mul smoothed_val filter_val).

Definition calculate_force (z_axis_mT : float) : float :=
  let force := F32.add (F32.mul CALIBRATION_SLOPE z_axis_mT)
                       CALIBRATION_INTERCEPT in
  if F32.ltb force F32.zero then F32.zero else force.

(* ================================================================== *)
(** ** Program state and the I2C bus *)
(* ================================================================== *)

(** Outcome of one blocking SDK transfer: acknowledged, with the bytes a
    read delivers, or failed. *)
Inductive i2c_outcome : Type :=
| I2C_ack (data : nat -> byte)
| I2C_nack.

(** One SDK call on the bus. *)
Inductive i2c_op : Type :=
| I2C_write (src : list Z)
| I2C_read (len : nat).

Definition PICO_ERROR_GENERIC : Z := -1.

(** The globals of the program together with the environment: [i2c_bus n]
    is how the bus answers the [n]-th transfer, [i2c_log] lists the
    transfers issued so far (newest first) and [clock_ms] accumulates the
    blocking delays. *)
Record state : Type := mkState {
  mlx_gain : mlx90393_gain_t;
  mlx_res_z : mlx90393_resolution_t;
  smoothed_z : float;
  first_mag_reading : bool;
  mlx_initialized : bool;
  i2c_bus : nat -> i2c_outcome;
  i2c_log : list i2c_op;
  clock_ms : Z
}.

(** State at program start, for a given bus behaviour. *)
Definition initial_state (bus : nat -> i2c_outcome) : state :=
  {| mlx_gain := MLX90393_GAIN_1X;
     mlx_res_z := MLX90393_RES_16;
     smoothed_z := F32.zero;
     first_mag_reading := true;
     mlx_initialized := false;
     i2c_bus := bus;
     i2c_log := [];
     clock_ms := 0 |}.

Definition set_smoothed_z (v : float) (st : state) : state :=
  mkState (mlx_gain st) (mlx_res_z st) v (first_mag_reading st)
          (mlx_initialized st) (i2c_bus st) (i2c_log st) (clock_ms st).

Definition set_first_mag_reading (v : bool) (st : state) : state :=
  mkState (mlx_gain st) (mlx_res_z st) (smoothed_z st) v
          (mlx_initialized st) (i2c_bus st) (i2c_log st) (clock_ms st).

Definition set_mlx_initialized (v : bool) (st : state) : state :=
  mkState (mlx_gain st) (mlx_res_z st) (smoothed_z st) (first_mag_reading st)
          v (i2c_bus st) (i2c_log st) (clock_ms st).

Definition log_transfer (op : i2c_op) (st : state) : state :=
  mkState (mlx_gain st) (mlx_res_z st) (smoothed_z st) (first_mag_reading st)
          (mlx_initialized st) (i2c_bus st) (op :: i2c_log st) (clock_ms st).

Definition advance_clock (ms : Z) (st : state) : state :=
  mkState (mlx_gain st) (mlx_res_z st) (smoothed_z st) (first_mag_reading st)
          (mlx_initialized st) (i2c_bus st) (i2c_log st) (clock_ms st + ms).

(** The filter state: smoothed value and its "initialized" flag (the
    program stores the negation, [first_mag_reading]). *)
Definition filter_state (st : state) : float * bool :=
  (smoothed_z st, first_mag_reading st).

(** *** State monad *)

Definition M (A : Type) : Type := state -> A * state.

Definition ret {A} (a : A) : M A := fun st => (a, st).

Definition bind {A B} (c : M A) (f : A -> M B) : M B :=
  fun st => let (a, st') := c st in f a st'.

Definition get {A} (proj : state -> A) : M A := fun st => (proj st, st).

Definition modify (f : state -> state) : M unit := fun st => (tt, f st).

Notation "x <- c ;; f" := (bind c (fun x => f))
  (at level 61, c at next level, right associativity).
Notation "c ;;; f" := (bind c (fun _ => f))
  (at level 61, right associativity).

(** *** SDK collaborators *)

Definition sleep_ms (ms : Z) : M unit := modify (advance_clock ms).

(** Returns the number of bytes written, or [PICO_ERROR_GENERIC]. *)
Definition i2c_write_blocking (src : list Z) : M Z :=
  fun st =>
    let st' := log_transfer (I2C_write src) st in
    match i2c_bus st (length (i2c_log st)) with
    | I2C_ack _ => (Z.of_nat (length src), st')
    | I2C_nack => (PICO_ERROR_GENERIC, st')
    end.

(** Returns the number of bytes read together with the bytes, or
    [PICO_ERROR_GENERIC] and nothing. *)
Definition i2c_read_blocking (len : nat) : M (Z * option (nat -> byte)) :=
  fun st =>
    let st' := log_transfer (I2C_read len) st in
    match i2c_bus st (length (i2c_log st)) with
    | I2C_ack data => ((Z.of_nat len, Some data), st')
    | I2C_nack => ((PICO_ERROR_GENERIC, None), st')
    end.

(* ================================================================== *)
(** ** MLX90393 functions *)
(* ================================================================== *)

(** [mlx_transceive(tx_data, tx_len, rx_data, rx_len)].  The result is
    [Some rx] when the function returns [true], [rx i] being [rx_data[i]]
    after the call (the status byte is [rx 0]), and [None] when it returns
    [false]; no caller reads the buffer in that case. *)
Definition mlx_transceive (tx_data : list Z) (rx_len : nat)
  : M (option (nat -> byte)) :=
  w <- i2c_write_blocking tx_data ;;
  if w <? 0 then ret None
  else
    (sleep_ms 10 ;;;
     if (0 <? rx_len)%nat then
       (r <- i2c_read_blocking (rx_len + 1) ;;
        ret (if 0 <? fst r then snd r else None))
     else
       (r <- i2c_read_blocking 1 ;;
        ret (if 0 <? fst r then snd r else None))).

Definition mlx_exit_mode : M bool :=
  let cmd := MLX90393_REG_EX in
  r <- mlx_transceive [cmd] 0 ;;
  match r with
  | None => ret false
  | Some status => ret (status_code (status 0%nat) =? 0x00)
  end.

Definition mlx_reset : M bool :=
  let cmd := MLX90393_REG_RT in
  r <- mlx_transceive [cmd] 0 ;;
  match r with
  | None => ret false
  | Some status =>
      sleep_ms 5 ;;;
      ret (status_code (status 0%nat) =? 0x01)
  end.

Definition mlx_start_measurement : M bool :=
  let cmd := Z.lor MLX90393_REG_SM MLX90393_AXIS_ALL in
  r <- mlx_transceive [cmd] 0 ;;
  match r with
  | None => ret false
  | Some status =>
      let stat := status_code (status 0%nat) in
      ret ((stat =? 0x00) || (stat =? 0x08))
  end.

(** [mlx_read_measurement(&z)]: [Some v] when the function returns [true]
    after storing [v] in [*z], [None] when it returns [false] and leaves
    [*z] alone. *)
Definition mlx_read_measurement : M (option float) :=
  let cmd := Z.lor MLX90393_REG_RM MLX90393_AXIS_ALL in
  r <- mlx_transceive [cmd] 6 ;;
  match r with
  | None => ret None
  | Some data =>
      if status_code (data 0%nat) =? 0x00 then
        gain <- get mlx_gain ;;
        res <- get mlx_res_z ;;
        ret (Some (decode_z gain res (data 5%nat) (data 6%nat)))
      else ret None
  end.

Definition mlx_read_data : M (option float) :=
  started <- mlx_start_measurement ;;
  if negb started then ret None
  else (sleep_ms 10 ;;; mlx_read_measurement).

Definition mlx_init : M bool :=
  exited <- mlx_exit_mode ;;
  if negb exited then ret false
  else
    (was_reset <- mlx_reset ;;
     if negb was_reset then ret false
     else
       (sleep_ms 10 ;;;
        modify (set_mlx_initialized true) ;;;
        ret true)).

(* ================================================================== *)
(** ** Main loop *)
(* ================================================================== *)

(** What one iteration prints. *)
Inductive console_line : Type :=
| Line_z_axis (smoothed : float)     (* "Z-axis(M1): %.3f mT" *)
| Line_error                         (* "Z-axis(M1): ERROR" *)
| Line_not_initialized.              (* "Sensor not initialized" *)

(** The filter update applied to an accepted reading [z]:
<<
    if (first_mag_reading) { smoothed_z = z; first_mag_reading = false; }
    else { smoothed_z = smooth(z, FILTER_VAL, smoothed_z); }
>>
    The value returned is [smoothed_z] afterwards, which is what is
    printed. *)
Definition filter_update (z : float) : M float :=
  first <- get first_mag_reading ;;
  (if first then
     (modify (set_smoothed_z z) ;;;
      modify (set_first_mag_reading false))
   else
     (prev <- get smoothed_z ;;
      modify (set_smoothed_z (smooth z FILTER_VAL prev)))) ;;;
  get smoothed_z.

(** One iteration of [while (true)]; the LED toggling is left out. *)
Definition main_loop_body : M console_line :=
  line <-
    (init <- get mlx_initialized ;;
     if init then
       (r <- mlx_read_data ;;
        match r with
        | Some z => (s <- filter_update z ;; ret (Line_z_axis s))
        | None => ret Line_error
        end)
     else ret Line_not_initialized) ;;
  sleep_ms 100 ;;;
  ret line.

(** The first [n] iterations of the loop and the lines they print. *)
Fixpoint main_loop (n : nat) : M (list console_line) :=
  match n with
  | O => ret []
  | S n' =>
      line <- main_loop_body ;;
      rest <- main_loop n' ;;
      ret (line :: rest)
  end.

(** [main] up to the first [n] loop iterations: the result of [mlx_init]
    (only printed) and the lines of the loop.  The set-up of the pins and
    of the bus and the messages printed before the loop (banner, outcome
    of the initialization, two header lines) are left out: the value
    returned lists the lines of the loop only. *)
Definition main (n : nat) : M (bool * list console_line) :=
  sleep_ms 2000 ;;;
  ok <- mlx_init ;;
  lines <- main_loop n ;;
  ret (ok, lines).

(* ================================================================== *)
(** ** Reference definitions used in the statements *)
(* ================================================================== *)

(** Z-axis scale factor (micro-tesla per count) of the HALLCONF = 0xC half
    of the table, by gain row and resolution column. *)
Definition z_scale_0xC (g : mlx90393_gain_t) (r : mlx90393_resolution_t)
  : float :=
  match g, r with
  | MLX90393_GAIN_5X, MLX90393_RES_16 => milli 1210
  | MLX90393_GAIN_5X, MLX90393_RES_17 => milli 2420
  | MLX90393_GAIN_5X, MLX90393_RES_18 => milli 4840
  | MLX90393_GAIN_5X, MLX90393_RES_19 => milli 9680
  | MLX90393_GAIN_4X, MLX90393_RES_16 => milli 968
  | MLX90393_GAIN_4X, MLX90393_RES_17 => milli 1936
  | MLX90393_GAIN_4X, MLX90393_RES_18 => milli 3872
  | MLX90393_GAIN_4X, MLX90393_RES_19 => milli 7744
  | MLX90393_GAIN_3X, MLX90393_RES_16 => milli 726
  | MLX90393_GAIN_3X, MLX90393_RES_17 => milli 1452
  | MLX90393_GAIN_3X, MLX90393_RES_18 => milli 2904
  | MLX90393_GAIN_3X, MLX90393_RES_19 => milli 5808
  | MLX90393_GAIN_2_5X, MLX90393_RES_16 => milli 605
  | MLX90393_GAIN_2_5X, MLX90393_RES_17 => milli 1210
  | MLX90393_GAIN_2_5X, MLX90393_RES_18 => milli 2420
  | MLX90393_GAIN_2_5X, MLX90393_RES_19 => milli 4840
  | MLX90393_GAIN_2X, MLX90393_RES_16 => milli 484
  | MLX90393_GAIN_2X, MLX90393_RES_17 => milli 968
  | MLX90393_GAIN_2X, MLX90393_RES_18 => milli 1936
  | MLX90393_GAIN_2X, MLX90393_RES_19 => milli 3872
  | MLX90393_GAIN_1_67X, MLX90393_RES_16 => milli 403
  | MLX90393_GAIN_1_67X, MLX90393_RES_17 => milli 807
  | MLX90393_GAIN_1_67X, MLX90393_RES_18 => milli 1613
  | MLX90393_GAIN_1_67X, MLX90393_RES_19 => milli 3227
  | MLX90393_GAIN_1_33X, MLX90393_RES_16 => milli 323
  | MLX90393_GAIN_1_33X, MLX90393_RES_17 => milli 645
  | MLX90393_GAIN_1_33X, MLX90393_RES_18 => milli 1291
  | MLX90393_GAIN_1_33X, MLX90393_RES_19 => milli 2581
  | MLX90393_GAIN_1X, MLX90393_RES_16 => milli 242
  | MLX90393_GAIN_1X, MLX90393_RES_17 => milli 484
  | MLX90393_GAIN_1X, MLX90393_RES_18 => milli 968
  | MLX90393_GAIN_1X, MLX90393_RES_19 => milli 1936
  end.

(** Bookkeeping for the rounding of a mantissa.  [shifted M n mrs] says
    that [mrs] is what remains of the integer [M] after [n] right shifts:
    the quotient, the last bit shifted out and whether any bit before it
    was set.  [of_mantissa] is the float a rounded mantissa stands for. *)
Definition b2z (b : bool) : Z := if b then 1 else 0.

Definition shifted (M n : Z) (mrs : shr_record) : Prop :=
  0 <= shr_m mrs /\
  exists t, 0 <= t < 2 ^ n /\
    2 * M = 2 ^ (n + 1) * shr_m mrs + 2 ^ n * b2z (shr_r mrs) + t /\
    (shr_s mrs = true <-> t <> 0).

Definition of_mantissa (s : bool) (m e : Z) : spec_float :=
  match m with
  | Z0 => S754_zero s
  | Zpos p => S754_finite s p e
  | Zneg _ => S754_nan
  end.

(** Unsigned and two's-complement signed value of a big-endian byte pair. *)
Definition be_uint16 (hi lo : byte) : Z := 256 * u8 hi + u8 lo.

Definition be_int16 (hi lo : byte) : Z :=
  let u := be_uint16 hi lo in
  if u <? 32768 then u else u - 65536.

(** Zero floor. *)
Definition clamp0 (x : float) : float :=
  if F32.ltb x F32.zero then F32.zero else x.

(** Field in millitesla from a count and a scale factor: scale, divide by
    1000, add the Z offset, floor at zero; each step in single precision. *)
Definition field_mT (count : Z) (scale : float) : float :=
  clamp0 (F32.add (F32.div (F32.mul (F32.of_Z count) scale) (F32.lit 1000 1))
                  Z_OFFSET_MT).

(** The resolution correction read as a subtraction of integers. *)
Definition count_unbounded (r : mlx90393_resolution_t) (zi : Z) : Z :=
  match r with
  | MLX90393_RES_18 => zi - 0x8000
  | MLX90393_RES_19 => zi - 0x4000
  | _ => zi
  end.

(** The resolution correction in 16-bit two's-complement arithmetic: a
    difference below -32768 re-enters the range from the top. *)
Definition count_int16 (r : mlx90393_resolution_t) (zi : Z) : Z :=
  let d := count_unbounded r zi in
  if d <? -32768 then d + 65536 else d.

Definition decode_unbounded (g : mlx90393_gain_t) (r : mlx90393_resolution_t)
    (hi lo : byte) : float :=
  field_mT (count_unbounded r (be_int16 hi lo)) (z_scale_0xC g r).

Definition decode_int16 (g : mlx90393_gain_t) (r : mlx90393_resolution_t)
    (hi lo : byte) : float :=
  field_mT (count_int16 r (be_int16 hi lo)) (z_scale_0xC g r).

(** The reply of the bus to the next write-then-read exchange: the bytes
    read when both transfers are acknowledged, [None] on a transport
    failure. *)
Definition next_exchange (st : state) : option (nat -> byte) :=
  match i2c_bus st (length (i2c_log st)) with
  | I2C_nack => None
  | I2C_ack _ =>
      match i2c_bus st (S (length (i2c_log st))) with
      | I2C_ack rx => Some rx
      | I2C_nack => None
      end
  end.

(** State after one complete write-then-read exchange. *)
Definition after_exchange (tx : list Z) (rx_len : nat) (st : state) : state :=
  log_transfer (I2C_read (if (0 <? rx_len)%nat then rx_len + 1 else 1)%nat)
    (advance_clock 10 (log_transfer (I2C_write tx) st)).

(** Two states with the same globals and the same bus: they may differ in
    the transfer log and the clock. *)
Definition same_globals (a b : state) : Prop :=
  mlx_gain a = mlx_gain b /\ mlx_res_z a = mlx_res_z b /\
  smoothed_z a = smoothed_z b /\
  first_mag_reading a = first_mag_reading b /\
  mlx_initialized a = mlx_initialized b /\
  i2c_bus a = i2c_bus b.

(** A table that keeps the HALLCONF = 0xC half and has nothing in the
    other. *)
Definition first_half_only : lsb_table :=
  [nth 0 mlx90393_lsb_lookup []; []].

(** Example buses. *)
Definition dead_bus : nat -> i2c_outcome := fun _ => I2C_nack.

(** Every transfer is acknowledged.  The status byte is 0x04 (code 0x01)
    for the fourth transfer, which is the read of the RESET exchange when
    the program starts on this bus, and 0x00 for every other read; the
    Z-axis bytes of every read are [d5] and [d6]. *)
Definition healthy_bus (d5 d6 : byte) : nat -> i2c_outcome :=
  fun n => I2C_ack (fun i => match i with
                             | 0%nat => if Nat.eqb n 3 then x04 else x00
                             | 5%nat => d5
                             | 6%nat => d6
                             | _ => x00
                             end).

(** Every read answers with status byte 0x20, that is status code 0x08
    ("already measuring"). *)
Definition busy_bus : nat -> i2c_outcome :=
  fun _ => I2C_ack (fun _ => x20).

(** START_MEASUREMENT is accepted, READ_MEASUREMENT answers with status
    byte 0x10, that is status code 0x04. *)
Definition read_rejected_bus : nat -> i2c_outcome :=
  fun n => match n with
           | 3%nat => I2C_ack (fun _ => x10)
           | _ => I2C_ack (fun _ => x00)
           end.

(** An initialized driver in mid-run on a given bus. *)
Definition running_state (bus : nat -> i2c_outcome) : state :=
  {| mlx_gain := MLX90393_GAIN_1X;
     mlx_res_z := MLX90393_RES_16;
     smoothed_z := F32.of_Z 10;
     first_mag_reading := false;
     mlx_initialized := true;
     i2c_bus := bus;
     i2c_log := [];
     clock_ms := 0 |}.

(* ================================================================== *)
(** ** Further reference definitions *)
(* ================================================================== *)

(** [shifted_by D W n mrs]: [mrs] is what remains of the quotient [W / D]
    after [n] right shifts. *)
Definition shifted_by (D W n : Z) (mrs : shr_record) : Prop :=
  0 <= shr_m mrs /\
  exists t, 0 <= t < 2 ^ n * D /\
    2 * W = 2 ^ (n + 1) * shr_m mrs * D + 2 ^ n * b2z (shr_r mrs) * D + t /\
    (shr_s mrs = true <-> t <> 0).

(** The quotient [W / D] scaled by [2^ez], as a rational. *)
Definition ratio (W D ez : Z) : Q := (inject_Z W / inject_Z D * 2 ^ ez)%Q.

(** Zero floor of a rational. *)
Definition Qclamp0 (q : Q) : Q := if Qlt_le_dec q 0 then 0%Q else q.

(** The field in millitesla as the exact formula gives it: count times
    scale (micro-tesla per count), over 1000, plus the 20 mT offset,
    floored at zero. *)
Definition field_exact (count : Z) (scale : Q) : Q :=
  Qclamp0 (inject_Z count * scale / 1000 + 20).

(** The calibration line [slope * x + intercept] with the decimal
    constants of the source. *)
Definition calibration_line (x : Q) : Q :=
  ((5194029384743018 # 100000000000000) * x
   - (6929925307532482 # 10000000000000))%Q.

(** The force as the exact formula gives it. *)
Definition force_exact (x : Q) : Q := Qclamp0 (calibration_line x).

(** Transfers issued and blocking delay spent between two states. *)
Definition transfers (st st' : state) : Z :=
  Z.of_nat (length (i2c_log st')) - Z.of_nat (length (i2c_log st)).

Definition elapsed (st st' : state) : Z := clock_ms st' - clock_ms st.

(** The globals that no function of the program assigns after start-up,
    and the bus. *)
Definition same_configuration (a b : state) : Prop :=
  mlx_gain a = mlx_gain b /\ mlx_res_z a = mlx_res_z b /\
  i2c_bus a = i2c_bus b.

(** The bus delivers a reading to [mlx_read_data] called in state [st]:
    the four transfers are acknowledged, the start command is answered with
    status code 0x00 or 0x08 and the read command with 0x00; [rx] is the
    reply to the read command. *)
Definition reading_on_bus (st : state) (rx : nat -> byte) : Prop :=
  let n := length (i2c_log st) in
  exists d0 rx1 d2,
    i2c_bus st n = I2C_ack d0 /\
    i2c_bus st (n + 1)%nat = I2C_ack rx1 /\
    (status_code (rx1 0%nat) = 0x00 \/ status_code (rx1 0%nat) = 0x08) /\
    i2c_bus st (n + 2)%nat = I2C_ack d2 /\
    i2c_bus st (n + 3)%nat = I2C_ack rx /\
    status_code (rx 0%nat) = 0x00.

(** The bus lets [mlx_init] called in state [st] succeed. *)
Definition init_on_bus (st : state) : Prop :=
  let n := length (i2c_log st) in
  exists d0 rx1 d2 rx3,
    i2c_bus st n = I2C_ack d0 /\
    i2c_bus st (n + 1)%nat = I2C_ack rx1 /\
    status_code (rx1 0%nat) = 0x00 /\
    i2c_bus st (n + 2)%nat = I2C_ack d2 /\
    i2c_bus st (n + 3)%nat = I2C_ack rx3 /\
    status_code (rx3 0%nat) = 0x01.

(** The line reports a field value. *)
Definition is_reading (l : console_line) : bool :=
  match l with Line_z_axis _ => true | _ => false end.

(** A finite single between 12 and 28. *)
Definition in_band (v : float) : Prop :=
  F32.is_finite v = true /\ F32.valid v = true /\ (12 <= F32.toQ v <= 28)%Q.

(** The program's gain and resolution, and a smoothed value in the band
    once a first reading was taken. *)
Definition configured (st : state) : Prop :=
  mlx_gain st = MLX90393_GAIN_1X /\ mlx_res_z st = MLX90393_RES_16 /\
  (first_mag_reading st = false -> in_band (smoothed_z st)).

(** The value a line reports, if any, is finite and between 12 and
    28. *)
Definition line_in_band (l : console_line) : Prop :=
  match l with
  | Line_z_axis v => F32.is_finite v = true /\ (12 <= F32.toQ v <= 28)%Q
  | _ => True
  end.

(** The transfers of a complete initialization and of a complete read,
    newest first as in the log. *)
Definition init_ops : list i2c_op :=
  [I2C_read 1; I2C_write [0xF0]; I2C_read 1; I2C_write [0x80]].

Definition cycle_ops : list i2c_op :=
  [I2C_read 7; I2C_write [0x4E]; I2C_read 1; I2C_write [0x3E]].

(** Every transfer is acknowledged; the fourth one (the reply to RESET
    when the program starts on this bus) carries status code 0x01, every
    other one status code 0x00. *)
Definition answering_bus (bus : nat -> i2c_outcome) : Prop :=
  forall k, exists rx,
    bus k = I2C_ack rx /\
    status_code (rx 0%nat) = if (k =? 3)%nat then 0x01 else 0x00.

(** The smoothed state after [n] updates
    [smoothed = smooth(data, c, smoothed)] with the same [data], from the
    state [s]. *)
Fixpoint smooth_iter (n : nat) (data c s : float) : float :=
  match n with
  | O => s
  | S k => smooth data c (smooth_iter k data c s)
  end.

(** [n] accepted readings of the same value [z] in a row: the filter
    update of the main loop, [n] times. *)
Fixpoint repeat_update (n : nat) (z : float) : M unit :=
  match n with
  | O => ret tt
  | S k => repeat_update k z ;;; (filter_update z ;;; ret tt)
  end.

(** The rounding allowance of one update at input [x]:
    [2^-20 * |x| + 2^-147]. *)
Definition smooth_slack (x : float) : Q :=
  (2 ^ (-20) * Qabs (F32.toQ x) + 2 ^ (-147))%Q.

(* ================================================================== *)
(** ** Single-precision arithmetic: when a result is a number *)
(* ================================================================== *)

Section RoundingNeverNaN.
Variables prec emax : Z.

Lemma shr_1_nonneg mrs : 0 <= shr_m mrs -> 0 <= shr_m (shr_1 mrs).
Proof.
  destruct mrs as [m r s]; simpl.
  destruct m as [|p|p]; [ | destruct p | ]; simpl; lia.
Qed.

Lemma iter_shr_1_nonneg p : forall mrs,
  0 <= shr_m mrs -> 0 <= shr_m (SpecFloat.iter_pos shr_1 p mrs).
Proof.
  induction p; intros mrs H; simpl; auto using shr_1_nonneg.
Qed.

Lemma shr_record_of_loc_m m l : shr_m (shr_record_of_loc m l) = m.
Proof. destruct l as [|[]]; reflexivity. Qed.

Lemma shr_fexp_nonneg m e l :
  0 <= m -> 0 <= shr_m (fst (shr_fexp prec emax m e l)).
Proof.
  intros H. unfold shr_fexp, shr.
  destruct (fexp prec emax (Zdigits2 m + e) - e); simpl;
    try (rewrite shr_record_of_loc_m; assumption).
  apply iter_shr_1_nonneg. rewrite shr_record_of_loc_m; assumption.
Qed.

Lemma round_nearest_even_nonneg m l :
  0 <= m -> 0 <= round_nearest_even m l.
Proof.
  intros H. destruct l as [|[]]; simpl; try lia.
  destruct (Z.even m); lia.
Qed.

Lemma binary_round_aux_not_nan sx mx ex lx :
  0 <= mx -> binary_round_aux prec emax sx mx ex lx <> S754_nan.
Proof.
  intros H. unfold binary_round_aux.
  pose proof (shr_fexp_nonneg mx ex lx H) as H1.
  destruct (shr_fexp prec emax mx ex lx) as [mrs' e']. simpl in H1.
  pose proof (shr_fexp_nonneg _ e' loc_Exact
                (round_nearest_even_nonneg _ (loc_of_shr_record mrs') H1))
    as H2.
  destruct (shr_fexp prec emax _ e' loc_Exact) as [mrs'' e''].
  simpl in H2.
  destruct (shr_m mrs'') as [|p|p]; try discriminate.
  - destruct (e'' <=? emax - prec); discriminate.
  - lia.
Qed.

Lemma binary_normalize_not_nan m e sz :
  binary_normalize prec emax m e sz <> S754_nan.
Proof.
  destruct m; simpl; try discriminate; unfold binary_round;
    destruct (shl_align _ _ _); apply binary_round_aux_not_nan; lia.
Qed.

Lemma SFmul_not_nan_r x sy my ey :
  x <> S754_nan -> SFmul prec emax x (S754_finite sy my ey) <> S754_nan.
Proof.
  destruct x; simpl; try discriminate; try congruence.
  intros _. apply binary_round_aux_not_nan. lia.
Qed.

Lemma SFmul_not_nan_l x sy my ey :
  x <> S754_nan -> SFmul prec emax (S754_finite sy my ey) x <> S754_nan.
Proof.
  destruct x; simpl; try discriminate; try congruence.
  intros _. apply binary_round_aux_not_nan. lia.
Qed.

Lemma SFadd_not_nan_r x sy my ey :
  x <> S754_nan -> SFadd prec emax x (S754_finite sy my ey) <> S754_nan.
Proof.
  destruct x; simpl; try discriminate; try congruence.
  intros _. apply binary_normalize_not_nan.
Qed.

Lemma SFdiv_not_nan_r x sy my ey :
  x <> S754_nan -> SFdiv prec emax x (S754_finite sy my ey) <> S754_nan.
Proof.
  destruct x; simpl; try discriminate; try congruence.
  intros _.
  destruct (SFdiv_core_binary prec emax (Z.pos m) e (Z.pos my) ey)
    as [[mz ez] lz] eqn:E.
  apply binary_round_aux_not_nan.
  unfold SFdiv_core_binary in E.
  set (m' := match _ - _ - _ with Z0 => _ | Zpos _ => _ | Zneg _ => _ end)
    in E.
  assert (0 <= m').
  { subst m'. destruct (_ - _ - _); try lia. apply Z.shiftl_nonneg. lia. }
  pose proof (Z_div_mod m' (Z.pos my) ltac:(lia)) as D.
  destruct (Z.div_eucl m' (Z.pos my)) as [q r]. inversion E; subst.
  destruct D. nia.
Qed.
End RoundingNeverNaN.

(* ================================================================== *)
(** ** Single-precision arithmetic: rounding error *)
(* ================================================================== *)

(** A rounded addition, subtraction or multiplication of finite singles
    whose exact result is below [2^127] in magnitude returns a finite
    single within a relative error [F32.eps] plus an absolute error
    [F32.eta] of the exact result.  The proof follows the rounding of
    [SpecFloat]: shift the mantissa right to the target exponent, keeping a
    round bit and a sticky bit, then round to nearest-even. *)

(** *** Shifting and rounding an integer mantissa *)

Lemma digits2_pos_bounds m :
  2 ^ (Zpos (digits2_pos m) - 1) <= Zpos m < 2 ^ Zpos (digits2_pos m).
Proof.
  induction m as [p IH|p IH|]; cbn [digits2_pos].
  - rewrite Pos2Z.inj_succ.
    replace (Z.succ (Z.pos (digits2_pos p)) - 1)
      with (Z.succ (Z.pos (digits2_pos p) - 1)) by lia.
    rewrite !Z.pow_succ_r by lia. lia.
  - rewrite Pos2Z.inj_succ.
    replace (Z.succ (Z.pos (digits2_pos p)) - 1)
      with (Z.succ (Z.pos (digits2_pos p) - 1)) by lia.
    rewrite !Z.pow_succ_r by lia. lia.
  - simpl. lia.
Qed.

Lemma digits2_pos_le m n :
  0 <= n -> Zpos m < 2 ^ n -> Zpos (digits2_pos m) <= n.
Proof.
  intros Hn H. pose proof (digits2_pos_bounds m) as [L _].
  destruct (Z.le_gt_cases (Zpos (digits2_pos m)) n) as [|G]; [assumption|].
  assert (2 ^ n <= 2 ^ (Zpos (digits2_pos m) - 1))
    by (apply Z.pow_le_mono_r; lia).
  lia.
Qed.

Lemma digits2_pos_ge m n : 2 ^ n <= Zpos m -> n < Zpos (digits2_pos m).
Proof.
  intros H. pose proof (digits2_pos_bounds m) as [_ U].
  destruct (Z.lt_ge_cases n (Zpos (digits2_pos m))) as [|G]; [assumption|].
  assert (2 ^ Zpos (digits2_pos m) <= 2 ^ n)
    by (apply Z.pow_le_mono_r; lia).
  lia.
Qed.

Lemma digits2_pos_mul mx my :
  Zpos (digits2_pos mx) + Zpos (digits2_pos my) - 1
  <= Zpos (digits2_pos (mx * my)).
Proof.
  pose proof (digits2_pos_bounds mx) as [Lx _].
  pose proof (digits2_pos_bounds my) as [Ly _].
  assert (H : 2 ^ (Zpos (digits2_pos mx) - 1 + (Zpos (digits2_pos my) - 1))
              <= Zpos (mx * my)).
  { rewrite Z.pow_add_r by lia. rewrite Pos2Z.inj_mul.
    apply Z.mul_le_mono_nonneg; try lia; apply Z.pow_nonneg; lia. }
  apply digits2_pos_ge in H. lia.
Qed.

Lemma shifted_0 M :
  0 <= M -> shifted M 0 (Build_shr_record M false false).
Proof.
  intros H. split; [exact H|]. exists 0. cbn.
  repeat split; try lia; try discriminate.
Qed.

Lemma shifted_shr_1 M n mrs :
  0 <= n -> shifted M n mrs -> shifted M (n + 1) (shr_1 mrs).
Proof.
  intros Hn (Hm & t & Ht & E & S).
  destruct mrs as [m r s]. cbn [shr_m shr_r shr_s] in *.
  assert (P : 2 ^ (n + 1) = 2 * 2 ^ n)
    by (rewrite Z.pow_add_r by lia; lia).
  assert (P2 : 2 ^ (n + 1 + 1) = 4 * 2 ^ n)
    by (rewrite Z.pow_add_r, P by lia; lia).
  assert (P0 : 0 < 2 ^ n) by (apply Z.pow_pos_nonneg; lia).
  assert (Hs : (r || s = true) <-> 2 ^ n * b2z r + t <> 0).
  { assert (D : t = 0 \/ t <> 0) by lia.
    destruct r, s; cbn [orb b2z]; split; intros H; try reflexivity;
      try lia; try (apply S; lia);
      destruct D as [D|D]; try lia; apply S in D; discriminate. }
  destruct m as [|p|p]; [ | destruct p | lia ]; cbn [shr_1];
    (split; [cbn; lia|]); exists (2 ^ n * b2z r + t);
    cbn [shr_m shr_r shr_s b2z]; rewrite P, P2;
    (split; [destruct r; cbn [b2z]; lia|]); (split; [|exact Hs]); lia.
Qed.

Lemma shifted_iter p : forall M n mrs,
  0 <= n -> shifted M n mrs ->
  shifted M (n + Zpos p) (SpecFloat.iter_pos shr_1 p mrs).
Proof.
  induction p as [p IH|p IH|]; intros M n mrs Hn H;
    cbn [SpecFloat.iter_pos].
  - replace (n + Z.pos p~1) with ((n + 1 + Z.pos p) + Z.pos p) by lia.
    apply IH; [lia|]. apply IH; [lia|]. apply shifted_shr_1; assumption.
  - replace (n + Z.pos p~0) with ((n + Z.pos p) + Z.pos p) by lia.
    apply IH; [lia|]. apply IH; assumption.
  - apply shifted_shr_1; assumption.
Qed.

(** Rounding the remains to nearest-even gives a quotient within half a
    step of [M / 2^n]. *)
Lemma shifted_round M n mrs :
  0 <= n -> shifted M n mrs ->
  let m' := round_nearest_even (shr_m mrs) (loc_of_shr_record mrs) in
  shr_m mrs <= m' <= shr_m mrs + 1 /\
  2 ^ n * shr_m mrs <= M < 2 ^ n * (shr_m mrs + 1) /\
  2 * Z.abs (2 ^ n * m' - M) <= 2 ^ n.
Proof.
  intros Hn (Hm & t & Ht & E & S).
  destruct mrs as [m r s]. cbn [shr_m shr_r shr_s] in *.
  assert (P : 2 ^ (n + 1) = 2 * 2 ^ n)
    by (rewrite Z.pow_add_r by lia; lia).
  rewrite P in E.
  assert (P0 : 0 < 2 ^ n) by (apply Z.pow_pos_nonneg; lia).
  assert (Hs : s = false -> t = 0).
  { intros ->. destruct (Z.eq_dec t 0) as [|N]; auto.
    apply S in N. discriminate. }
  destruct r, s; cbn [loc_of_shr_record round_nearest_even b2z] in *;
    try destruct (Z.even m); try specialize (Hs eq_refl); lia.
Qed.

Lemma fexp_eq e : fexp 24 128 e = Z.max (e - 24) (-149).
Proof. reflexivity. Qed.

Lemma canonical_exponent m e :
  canonical_mantissa 24 128 m e = true ->
  e = Z.max (Zpos (digits2_pos m) + e - 24) (-149).
Proof.
  unfold canonical_mantissa. rewrite fexp_eq. intros H.
  apply Z.eqb_eq in H. lia.
Qed.

(** First phase of the rounding: the shift to the target exponent. *)
Lemma shr_fexp_shifted M ex :
  let fe := fexp 24 128 (Zpos (digits2_pos M) + ex) in
  ex <= fe ->
  exists mrs, shr_fexp 24 128 (Zpos M) ex loc_Exact = (mrs, fe) /\
              shifted (Zpos M) (fe - ex) mrs.
Proof.
  intros fe H. unfold shr_fexp. cbn [Zdigits2 shr_record_of_loc]. fold fe.
  unfold shr. destruct (fe - ex) as [|p|p] eqn:E; try lia.
  - eexists; split; [f_equal; lia|]. apply shifted_0. lia.
  - eexists; split; [f_equal; lia|].
    change (Zpos p) with (0 + Zpos p). apply shifted_iter; [lia|].
    apply shifted_0. lia.
Qed.

(** The whole rounding of a mantissa [M] at an exponent [ex] not above
    the target exponent [fe]: the result is a zero or a canonical finite
    number whose mantissa, brought back to exponent [ex], is within half
    of [2^(fe - ex)] of [M]. *)
Lemma binary_round_aux_core s M ex :
  let fe := fexp 24 128 (Zpos (digits2_pos M) + ex) in
  ex <= fe -> fe <= 103 ->
  exists m e,
    binary_round_aux 24 128 s (Zpos M) ex loc_Exact = of_mantissa s m e /\
    0 <= m /\ fe <= e /\
    (m = 0 \/ bounded 24 128 (Z.to_pos m) e = true) /\
    2 * Z.abs (m * 2 ^ (e - ex) - Zpos M) <= 2 ^ (fe - ex).
Proof.
  intros fe Hn Hfe.
  destruct (shr_fexp_shifted M ex Hn) as (mrs & E1 & Sh).
  fold fe in E1, Sh.
  unfold binary_round_aux. rewrite E1.
  assert (Hn0 : 0 <= fe - ex) by lia.
  pose proof (shifted_round (Zpos M) (fe - ex) mrs Hn0 Sh) as R.
  cbv zeta in R.
  set (m' := round_nearest_even (shr_m mrs) (loc_of_shr_record mrs)) in *.
  destruct R as (Rm & Rq & Rabs).
  destruct Sh as (Hm0 & _).
  pose proof (digits2_pos_bounds M) as [DL DU].
  set (d := Zpos (digits2_pos M)) in *.
  set (n := fe - ex) in *.
  assert (P0 : 0 < 2 ^ n) by (apply Z.pow_pos_nonneg; lia).
  assert (Hfe149 : -149 <= fe) by (unfold fe; rewrite fexp_eq; lia).
  assert (Hdn : d - n <= 24) by (unfold n, fe; rewrite fexp_eq; lia).
  assert (Hm24 : shr_m mrs < 2 ^ 24).
  { assert (H : 2 ^ d <= 2 ^ (n + 24)) by (apply Z.pow_le_mono_r; lia).
    rewrite Z.pow_add_r in H by lia. nia. }
  assert (Hnormal : -149 < fe -> 2 ^ 23 <= shr_m mrs).
  { intros Hf.
    assert (H : d - 1 = n + 23)
      by (unfold n, fe in *; rewrite fexp_eq in *; lia).
    rewrite H in DL. rewrite Z.pow_add_r in DL by lia. nia. }
  destruct m' as [|q|q] eqn:Em'; [ | | lia].
  - (* the mantissa rounds to zero *)
    exists 0, fe. unfold shr_fexp. cbn [Zdigits2 shr_record_of_loc].
    assert (fexp 24 128 (0 + fe) - fe <= 0) by (rewrite fexp_eq; lia).
    unfold shr. destruct (fexp 24 128 (0 + fe) - fe) eqn:E; try lia;
      cbn [shr_m of_mantissa]; repeat split; try lia; auto.
  - destruct (Z.eq_dec (Zpos q) (2 ^ 24)) as [C|C].
    + (* the rounding carries into a 25th digit *)
      exists (2 ^ 23), (fe + 1).
      assert (q = 16777216%positive) by (apply Pos2Z.inj; exact C).
      subst q.
      unfold shr_fexp. cbn [Zdigits2 shr_record_of_loc].
      assert (E : fexp 24 128 (Zpos (digits2_pos 16777216) + fe) - fe = 1).
      { rewrite fexp_eq. change (Zpos (digits2_pos 16777216)) with 25.
        lia. }
      rewrite E. cbn [shr SpecFloat.iter_pos shr_1 shr_m of_mantissa].
      change (2 ^ 23) with (Zpos 8388608). cbn [of_mantissa].
      assert ((fe + 1 <=? 128 - 24) = true) as ->
        by (apply Z.leb_le; lia).
      repeat split; try lia.
      * right. unfold bounded, canonical_mantissa. cbn [Z.to_pos].
        change (Zpos (digits2_pos 8388608)) with 24. rewrite fexp_eq.
        apply andb_true_intro; split;
          [apply Z.eqb_eq | apply Z.leb_le]; lia.
      * replace (fe + 1 - ex) with (n + 1) by (unfold n; lia).
        rewrite Z.pow_add_r by lia. change (2 ^ 1) with 2.
        change (Z.pos 8388608 * (2 ^ n * 2)) with (8388608 * (2 ^ n * 2)).
        replace (8388608 * (2 ^ n * 2)) with (2 ^ n * Z.pos 16777216)
          by lia.
        exact Rabs.
    + exists (Zpos q), fe.
      assert (Hq24 : Zpos q < 2 ^ 24) by lia.
      assert (H24 : 0 <= 24) by lia.
      pose proof (digits2_pos_le q 24 H24 Hq24) as Dq.
      unfold shr_fexp. cbn [Zdigits2 shr_record_of_loc].
      assert (E : fexp 24 128 (Zpos (digits2_pos q) + fe) = fe).
      { rewrite fexp_eq.
        destruct (Z.eq_dec fe (-149)) as [F|F]; [lia|].
        assert (Hf : -149 < fe) by lia.
        assert (H : 2 ^ 23 <= Zpos q) by (specialize (Hnormal Hf); lia).
        apply digits2_pos_ge in H. lia. }
      rewrite E, Z.sub_diag. cbn [shr shr_m of_mantissa].
      assert ((fe <=? 128 - 24) = true) as -> by (apply Z.leb_le; lia).
      repeat split; try lia.
      * right. unfold bounded, canonical_mantissa. cbn [Z.to_pos].
        rewrite E.
        apply andb_true_intro; split;
          [apply Z.eqb_eq | apply Z.leb_le]; lia.
      * fold n. rewrite (Z.mul_comm (Zpos q)). exact Rabs.
Qed.

Lemma iter_xO_value d : forall m,
  Zpos (Pos.iter xO m d) = Zpos m * 2 ^ Zpos d.
Proof.
  induction d as [|d IH] using Pos.peano_ind; intros m.
  - cbn [Pos.iter]. lia.
  - rewrite Pos.iter_succ, Pos2Z.inj_succ, Z.pow_succ_r by lia.
    rewrite Pos2Z.inj_xO, IH. lia.
Qed.

Lemma iter_xO_digits d : forall m,
  Zpos (digits2_pos (Pos.iter xO m d)) = Zpos (digits2_pos m) + Zpos d.
Proof.
  induction d as [|d IH] using Pos.peano_ind; intros m.
  - cbn [Pos.iter digits2_pos]. lia.
  - rewrite Pos.iter_succ. cbn [digits2_pos].
    rewrite !Pos2Z.inj_succ, IH. lia.
Qed.

(** Aligning a mantissa to a lower exponent multiplies it by a power of
    two. *)
Lemma shl_align_value m e e' :
  e' <= e ->
  Zpos (fst (shl_align m e e')) = Zpos m * 2 ^ (e - e') /\
  snd (shl_align m e e') = e' /\
  Zpos (digits2_pos (fst (shl_align m e e')))
  = Zpos (digits2_pos m) + (e - e').
Proof.
  intros H. unfold shl_align. destruct (e' - e) as [|p|p] eqn:E; try lia.
  - replace (e - e') with 0 by lia. cbn [fst snd]. repeat split; lia.
  - replace (e - e') with (Zpos p) by lia. cbn [fst snd].
    rewrite iter_xO_value, iter_xO_digits. repeat split; lia.
Qed.

(** *** Exact values *)

Lemma p2_pos a : (0 < 2 ^ a)%Q.
Proof. apply Qpower_0_lt. reflexivity. Qed.

Lemma p2_add a b : (2 ^ (a + b) == 2 ^ a * 2 ^ b)%Q.
Proof. apply Qpower_plus. discriminate. Qed.

Lemma p2_inj n : 0 <= n -> (inject_Z (2 ^ n) == 2 ^ n)%Q.
Proof. intros H. rewrite Zpower_Qpower by assumption. reflexivity. Qed.

Lemma p2_lt_inv a b : (2 ^ a < 2 ^ b)%Q -> a < b.
Proof.
  intros H. eapply Qpower_lt_compat_l_inv; [exact H | reflexivity].
Qed.

Lemma inject_Z_le a b : a <= b -> (inject_Z a <= inject_Z b)%Q.
Proof. intros H. rewrite <- Zle_Qle. exact H. Qed.

Lemma Qabs_bound a b : (Qabs a <= b)%Q -> (- b <= a /\ a <= b)%Q.
Proof. intros H. apply Qabs_Qle_condition in H. exact H. Qed.

Lemma Qabs_intro a b : (- b <= a)%Q -> (a <= b)%Q -> (Qabs a <= b)%Q.
Proof. intros. apply Qabs_Qle_condition. split; assumption. Qed.

Lemma Qabs_mul_le a b A B :
  (Qabs a <= A)%Q -> (Qabs b <= B)%Q -> (Qabs (a * b) <= A * B)%Q.
Proof.
  intros Ha Hb. rewrite Qabs_Qmult.
  pose proof (Qabs_nonneg a). pose proof (Qabs_nonneg b).
  apply Qle_trans with (Qabs a * B)%Q.
  - rewrite !(Qmult_comm (Qabs a)). apply Qmult_le_compat_r; assumption.
  - apply Qmult_le_compat_r; [assumption|]. eapply Qle_trans; eassumption.
Qed.

Lemma toQ_of_mantissa s m e :
  0 <= m -> (F32.toQ (of_mantissa s m e) == F32.F2Q s m e)%Q.
Proof.
  intros H. destruct m; cbn [of_mantissa F32.toQ]; try lia;
    try reflexivity.
  unfold F32.F2Q. destruct s; cbn [cond_Zopp Z.opp]; symmetry;
    apply Qmult_0_l.
Qed.

Lemma Qabs_F2Q s m e :
  0 <= m -> (Qabs (F32.F2Q s m e) == inject_Z m * 2 ^ e)%Q.
Proof.
  intros H. unfold F32.F2Q. rewrite Qabs_Qmult.
  rewrite (Qabs_pos (2 ^ e)) by (apply Qlt_le_weak, p2_pos).
  apply Qmult_comp; [|reflexivity].
  destruct s; cbn [cond_Zopp]; [rewrite inject_Z_opp, Qabs_opp|];
    apply Qabs_pos; change 0%Q with (inject_Z 0); apply inject_Z_le;
    exact H.
Qed.

Lemma Qabs_F2Q_diff s m e M ex :
  ex <= e ->
  (Qabs (F32.F2Q s m e - F32.F2Q s M ex)
   == inject_Z (Z.abs (m * 2 ^ (e - ex) - M)) * 2 ^ ex)%Q.
Proof.
  intros H. unfold F32.F2Q.
  replace e with ((e - ex) + ex) at 1 by lia. rewrite p2_add.
  rewrite <- (p2_inj (e - ex)) by lia.
  pose proof (p2_pos ex) as P. revert P. generalize (2 ^ ex)%Q.
  intros p P.
  assert (E : (inject_Z (cond_Zopp s m) * (inject_Z (2 ^ (e - ex)) * p)
               - inject_Z (cond_Zopp s M) * p
               == inject_Z (cond_Zopp s (m * 2 ^ (e - ex) - M)) * p)%Q).
  { destruct s; cbn [cond_Zopp]; unfold Z.sub;
      rewrite ?inject_Z_opp, ?inject_Z_plus, ?inject_Z_mult,
        ?inject_Z_opp;
      ring. }
  rewrite E, Qabs_Qmult. rewrite (Qabs_pos p) by (apply Qlt_le_weak, P).
  apply Qmult_comp; [|reflexivity].
  destruct s; cbn [cond_Zopp]; [rewrite inject_Z_opp, Qabs_opp|];
    reflexivity.
Qed.

Lemma F2Q_shift s m e n :
  0 <= n -> (F32.F2Q s (m * 2 ^ n) (e - n) == F32.F2Q s m e)%Q.
Proof.
  intros H. unfold F32.F2Q.
  assert (E : (2 ^ e == inject_Z (2 ^ n) * 2 ^ (e - n))%Q).
  { rewrite (p2_inj n H), <- p2_add. replace (n + (e - n)) with e by lia.
    reflexivity. }
  rewrite E. generalize (2 ^ (e - n))%Q. intros p.
  destruct s; cbn [cond_Zopp]; rewrite ?inject_Z_opp, inject_Z_mult; ring.
Qed.

Lemma F2Q_mul sx sy mx my ex ey :
  (F32.F2Q (xorb sx sy) (mx * my) (ex + ey)
   == F32.F2Q sx mx ex * F32.F2Q sy my ey)%Q.
Proof.
  unfold F32.F2Q. rewrite p2_add.
  generalize (2 ^ ex)%Q (2 ^ ey)%Q. intros p q.
  destruct sx, sy; cbn [xorb cond_Zopp];
    rewrite ?inject_Z_opp, inject_Z_mult; ring.
Qed.

(** The value of a finite number on its mantissa aligned to a lower
    exponent. *)
Lemma F2Q_align s m e ez :
  ez <= e ->
  (F32.F2Q s (Zpos m) e
   == inject_Z (cond_Zopp s (Zpos (fst (shl_align m e ez)))) * 2 ^ ez)%Q.
Proof.
  intros H. destruct (shl_align_value m e ez H) as (V & _ & _). rewrite V.
  assert (K : 0 <= e - ez) by lia.
  pose proof (F2Q_shift s (Zpos m) e (e - ez) K) as Q.
  replace (e - (e - ez)) with ez in Q by lia. symmetry. exact Q.
Qed.

(** *** Error of one rounding *)

Lemma exact_result_error a b :
  (a == b)%Q -> (Qabs (a - b) <= F32.eps * Qabs b + F32.eta)%Q.
Proof.
  intros E. setoid_replace (a - b)%Q with 0%Q by (rewrite E; ring).
  pose proof (Qabs_nonneg b). assert (0 < F32.eps)%Q by reflexivity.
  assert (0 < F32.eta)%Q by reflexivity.
  change (Qabs 0) with 0%Q.
  assert (0 <= F32.eps * Qabs b)%Q
    by (apply Qmult_le_0_compat; [apply Qlt_le_weak|]; assumption).
  lra.
Qed.

(** The rounding of a positive mantissa at an exponent not above the
    target exponent: finite, canonical, and within [F32.eps] relative
    plus [F32.eta] absolute of the exact value. *)
Lemma binary_round_aux_error s M ex :
  ex <= fexp 24 128 (Zpos (digits2_pos M) + ex) ->
  (inject_Z (Zpos M) * 2 ^ ex < 2 ^ 127)%Q ->
  let R := binary_round_aux 24 128 s (Zpos M) ex loc_Exact in
  F32.is_finite R = true /\ F32.valid R = true /\
  (Qabs (F32.toQ R - F32.F2Q s (Zpos M) ex)
   <= F32.eps * (inject_Z (Zpos M) * 2 ^ ex) + F32.eta)%Q.
Proof.
  intros Hn HV R.
  pose proof (digits2_pos_bounds M) as [DL DU].
  set (d := Zpos (digits2_pos M)) in *.
  assert (Hd : d + ex <= 127).
  { assert (D1 : (2 ^ (d - 1 + ex) <= inject_Z (Zpos M) * 2 ^ ex)%Q).
    { rewrite p2_add.
      apply Qmult_le_compat_r; [|apply Qlt_le_weak, p2_pos].
      rewrite <- p2_inj by lia. apply inject_Z_le. exact DL. }
    assert (D2 : (2 ^ (d - 1 + ex) < 2 ^ 127)%Q)
      by (eapply Qle_lt_trans; eassumption).
    apply p2_lt_inv in D2. lia. }
  assert (Hfe : fexp 24 128 (d + ex) <= 103) by (rewrite fexp_eq; lia).
  destruct (binary_round_aux_core s M ex Hn Hfe)
    as (m & e & ER & Hm & He & Hb & Habs).
  fold d in He, Habs, Hn. set (fe := fexp 24 128 (d + ex)) in *.
  unfold R. rewrite ER. repeat split.
  - destruct m; [reflexivity|reflexivity|lia].
  - destruct m; [reflexivity| |lia].
    destruct Hb as [Hb|Hb]; [discriminate|exact Hb].
  - rewrite toQ_of_mantissa by assumption.
    rewrite Qabs_F2Q_diff by lia.
    assert (B : (inject_Z (Z.abs (m * 2 ^ (e - ex) - Zpos M)) * 2 ^ ex
                 <= 2 ^ (fe - 1))%Q).
    { replace (fe - 1) with ((fe - ex) + -1 + ex) by lia. rewrite !p2_add.
      apply Qmult_le_compat_r; [|apply Qlt_le_weak, p2_pos].
      rewrite <- p2_inj by lia.
      assert (H2 : (inject_Z (2 * Z.abs (m * 2 ^ (e - ex) - Z.pos M))
                    <= inject_Z (2 ^ (fe - ex)))%Q)
        by (apply inject_Z_le; exact Habs).
      rewrite inject_Z_mult in H2. change (2 ^ (-1))%Q with (1 # 2)%Q.
      revert H2.
      generalize (inject_Z (2 ^ (fe - ex))),
                 (inject_Z (Z.abs (m * 2 ^ (e - ex) - Z.pos M))).
      intros a b H2. change (inject_Z 2) with 2%Q in H2. lra. }
    eapply Qle_trans; [exact B|].
    assert (Hu : (0 <= F32.eps * (inject_Z (Z.pos M) * 2 ^ ex))%Q).
    { apply Qmult_le_0_compat; [discriminate|].
      apply Qmult_le_0_compat;
        [discriminate | apply Qlt_le_weak, p2_pos]. }
    unfold fe. rewrite fexp_eq.
    destruct (Z.max_spec (d + ex - 24) (-149)) as [[_ ->]|[_ ->]].
    + change (2 ^ (-149 - 1))%Q with F32.eta. lra.
    + assert ((2 ^ (d + ex - 24 - 1)
               <= F32.eps * (inject_Z (Z.pos M) * 2 ^ ex))%Q).
      { replace (d + ex - 24 - 1) with (-24 + ((d - 1) + ex)) by lia.
        rewrite p2_add. fold F32.eps. apply Qmult_le_l; [reflexivity|].
        rewrite p2_add.
        apply Qmult_le_compat_r; [|apply Qlt_le_weak, p2_pos].
        rewrite <- p2_inj by lia. apply inject_Z_le. exact DL. }
      assert (0 <= F32.eta)%Q by discriminate. lra.
Qed.

(** Rounding of [m * 2^e] as [binary_round] performs it. *)
Lemma binary_round_error s m e :
  (inject_Z (Zpos m) * 2 ^ e < 2 ^ 127)%Q ->
  let R := binary_round 24 128 s m e in
  F32.is_finite R = true /\ F32.valid R = true /\
  (Qabs (F32.toQ R - F32.F2Q s (Zpos m) e)
   <= F32.eps * (inject_Z (Zpos m) * 2 ^ e) + F32.eta)%Q.
Proof.
  intros HV R. unfold R, binary_round.
  set (fe := fexp 24 128 (Zpos (digits2_pos m) + e)).
  destruct (Z.le_gt_cases fe e) as [L|G].
  - destruct (shl_align_value m e fe L) as (V & S & D).
    destruct (shl_align m e fe) as [mz ez]. cbn [fst snd] in *. subst ez.
    assert (K : 0 <= e - fe) by lia.
    assert (EQ : (F32.F2Q s (Zpos mz) fe == F32.F2Q s (Zpos m) e)%Q).
    { rewrite V. replace fe with (e - (e - fe)) at 2 by lia.
      apply F2Q_shift. exact K. }
    assert (EV : (inject_Z (Zpos mz) * 2 ^ fe
                  == inject_Z (Zpos m) * 2 ^ e)%Q).
    { pose proof (F2Q_shift false (Zpos m) e (e - fe) K) as Q.
      unfold F32.F2Q in Q. cbn [cond_Zopp] in Q.
      rewrite V. replace fe with (e - (e - fe)) at 2 by lia. exact Q. }
    rewrite <- EQ, <- EV.
    apply binary_round_aux_error.
    + rewrite D.
      replace (Zpos (digits2_pos m) + (e - fe) + fe)
        with (Zpos (digits2_pos m) + e) by lia.
      fold fe. lia.
    + rewrite EV. exact HV.
  - assert (E : shl_align m e fe = (m, e)).
    { unfold shl_align. destruct (fe - e) eqn:E; try lia; reflexivity. }
    rewrite E. apply binary_round_aux_error; [fold fe; lia | exact HV].
Qed.

(** Rounding of a signed integer at an exponent, as [binary_normalize]
    performs it. *)
Lemma binary_normalize_error z e :
  (Qabs (inject_Z z * 2 ^ e) < 2 ^ 127)%Q ->
  let R := binary_normalize 24 128 z e false in
  F32.is_finite R = true /\ F32.valid R = true /\
  (Qabs (F32.toQ R - inject_Z z * 2 ^ e)
   <= F32.eps * Qabs (inject_Z z * 2 ^ e) + F32.eta)%Q.
Proof.
  intros HV R. subst R. destruct z as [|m|m]; cbn [binary_normalize].
  - repeat split. cbn [F32.toQ]. apply exact_result_error. ring.
  - change (inject_Z (Zpos m) * 2 ^ e)%Q
      with (F32.F2Q false (Zpos m) e) in *.
    rewrite Qabs_F2Q in * by lia. apply binary_round_error. exact HV.
  - change (inject_Z (Zneg m) * 2 ^ e)%Q
      with (F32.F2Q true (Zpos m) e) in *.
    rewrite Qabs_F2Q in * by lia. apply binary_round_error. exact HV.
Qed.

(** *** Error of one operation *)

Lemma mul_rounding_error x y :
  F32.is_finite x = true -> F32.is_finite y = true ->
  F32.valid x = true -> F32.valid y = true ->
  (Qabs (F32.toQ x * F32.toQ y) < 2 ^ 127)%Q ->
  F32.is_finite (F32.mul x y) = true /\ F32.valid (F32.mul x y) = true /\
  (Qabs (F32.toQ (F32.mul x y) - F32.toQ x * F32.toQ y)
   <= F32.eps * Qabs (F32.toQ x * F32.toQ y) + F32.eta)%Q.
Proof.
  intros Fx Fy Vx Vy HV. unfold F32.mul.
  destruct x as [sx|sx| |sx mx ex], y as [sy|sy| |sy my ey];
    try discriminate; cbn [SFmul F32.toQ];
    try (repeat split; apply exact_result_error; ring).
  unfold F32.valid in Vx, Vy. cbn [valid_binary] in Vx, Vy.
  apply andb_prop in Vx, Vy. destruct Vx as [Cx _], Vy as [Cy _].
  apply canonical_exponent in Cx, Cy.
  pose proof (digits2_pos_mul mx my) as Dm.
  cbn [F32.toQ] in HV. rewrite <- F2Q_mul in HV |- *.
  rewrite <- Pos2Z.inj_mul in HV |- *.
  rewrite Qabs_F2Q in HV |- * by lia.
  apply binary_round_aux_error; [|exact HV].
  rewrite fexp_eq.
  pose proof (Pos2Z.is_pos (digits2_pos mx)).
  pose proof (Pos2Z.is_pos (digits2_pos my)).
  lia.
Qed.

Lemma add_rounding_error x y :
  F32.is_finite x = true -> F32.is_finite y = true ->
  F32.valid x = true -> F32.valid y = true ->
  (Qabs (F32.toQ x + F32.toQ y) < 2 ^ 127)%Q ->
  F32.is_finite (F32.add x y) = true /\ F32.valid (F32.add x y) = true /\
  (Qabs (F32.toQ (F32.add x y) - (F32.toQ x + F32.toQ y))
   <= F32.eps * Qabs (F32.toQ x + F32.toQ y) + F32.eta)%Q.
Proof.
  intros Fx Fy Vx Vy HV. unfold F32.add.
  destruct x as [sx|sx| |sx mx ex], y as [sy|sy| |sy my ey];
    try discriminate; cbn [SFadd].
  - destruct sx, sy; repeat split; apply exact_result_error;
      cbn [F32.toQ]; ring.
  - repeat split; auto. apply exact_result_error; cbn [F32.toQ]; ring.
  - repeat split; auto. apply exact_result_error; cbn [F32.toQ]; ring.
  - cbv zeta. set (ez := Z.min ex ey).
    assert (E : (F32.toQ (S754_finite sx mx ex)
                 + F32.toQ (S754_finite sy my ey)
                 == inject_Z
                      (cond_Zopp sx (Zpos (fst (shl_align mx ex ez)))
                       + cond_Zopp sy (Zpos (fst (shl_align my ey ez))))
                    * 2 ^ ez)%Q).
    { cbn [F32.toQ].
      rewrite (F2Q_align sx mx ex ez), (F2Q_align sy my ey ez)
        by (unfold ez; lia).
      rewrite inject_Z_plus. ring. }
    rewrite E in HV |- *. apply binary_normalize_error. exact HV.
Qed.

Lemma sub_rounding_error x y :
  F32.is_finite x = true -> F32.is_finite y = true ->
  F32.valid x = true -> F32.valid y = true ->
  (Qabs (F32.toQ x - F32.toQ y) < 2 ^ 127)%Q ->
  F32.is_finite (F32.sub x y) = true /\ F32.valid (F32.sub x y) = true /\
  (Qabs (F32.toQ (F32.sub x y) - (F32.toQ x - F32.toQ y))
   <= F32.eps * Qabs (F32.toQ x - F32.toQ y) + F32.eta)%Q.
Proof.
  intros Fx Fy Vx Vy HV. unfold F32.sub.
  destruct x as [sx|sx| |sx mx ex], y as [sy|sy| |sy my ey];
    try discriminate; cbn [SFsub].
  - destruct sx, sy; repeat split; apply exact_result_error;
      cbn [F32.toQ]; ring.
  - repeat split; auto. apply exact_result_error; cbn [F32.toQ].
    unfold F32.F2Q.
    destruct sy; cbn [negb cond_Zopp]; rewrite ?inject_Z_opp;
      change (inject_Z (Zneg my)) with (- inject_Z (Zpos my))%Q; ring.
  - repeat split; auto. apply exact_result_error; cbn [F32.toQ]; ring.
  - cbv zeta. set (ez := Z.min ex ey).
    assert (E : (F32.toQ (S754_finite sx mx ex)
                 - F32.toQ (S754_finite sy my ey)
                 == inject_Z
                      (cond_Zopp sx (Zpos (fst (shl_align mx ex ez)))
                       - cond_Zopp sy (Zpos (fst (shl_align my ey ez))))
                    * 2 ^ ez)%Q).
    { cbn [F32.toQ].
      rewrite (F2Q_align sx mx ex ez), (F2Q_align sy my ey ez)
        by (unfold ez; lia).
      unfold Z.sub. rewrite inject_Z_plus, inject_Z_opp. ring. }
    rewrite E in HV |- *. apply binary_normalize_error. exact HV.
Qed.

(* ================================================================== *)
(** ** Constants and table entries *)
(* ================================================================== *)

(** The zero floor of a number is a number. *)
Lemma clamp0_not_nan x : x <> S754_nan -> clamp0 x <> S754_nan.
Proof.
  intros H. unfold clamp0. destruct (F32.ltb x F32.zero); [discriminate|].
  exact H.
Qed.

(** The zero floor of a number is at least zero. *)
Lemma clamp0_nonneg x : x <> S754_nan -> F32.nonneg (clamp0 x) = true.
Proof.
  intros H. unfold clamp0.
  destruct x as [s|s| |s m e]; try congruence; destruct s; reflexivity.
Qed.

(** Every table entry the decode can index is a positive finite number,
    the one [z_scale_0xC] names. *)
Lemma lsb_at_in_range g r :
  lsb_at mlx90393_lsb_lookup 0 (gain_index g) (res_index r) 1
  = z_scale_0xC g r.
Proof. destruct g, r; reflexivity. Qed.

Lemma z_scale_0xC_finite g r :
  exists m e, z_scale_0xC g r = S754_finite false m e.
Proof. destruct g, r; do 2 eexists; vm_compute; reflexivity. Qed.

(** The constants are the singles nearest to the decimal literals. *)
Lemma constants_nearest :
  F32.nearest CALIBRATION_SLOPE 5194029384743018 100000000000000 = true /\
  F32.nearest (F32.opp CALIBRATION_INTERCEPT)
              6929925307532482 10000000000000 = true /\
  F32.nearest FILTER_VAL 4 10 = true /\
  Z_OFFSET_MT = F32.of_Z 20 /\
  F32.lit 1000 1 = F32.of_Z 1000 /\
  F32.one = F32.of_Z 1.
Proof. vm_compute. repeat split. Qed.

Lemma table_nearest :
  forallb (fun t => F32.nearest (milli t) t 1000)
    [ 751; 1210; 1502; 2420; 3004; 4840; 6009; 9680; 601; 968; 1202; 1936;
      2403; 3872; 7744; 451; 726; 901; 1452; 1803; 2904; 3605; 5808; 376;
      605; 300; 484; 250; 403; 501; 807; 1001; 1613; 2003; 3227; 200; 323;
      401; 645; 801; 1291; 1602; 2581; 150; 242; 787; 1267; 1573; 2534;
      3146; 5068; 6292; 10137; 629; 1014; 1258; 2027; 2517; 4055; 5034;
      8109; 472; 760; 944; 1521; 1888; 3041; 3775; 6082; 393; 634; 315;
      507; 262; 422; 524; 845; 1049; 1689; 2097; 3379; 210; 338; 419; 676;
      839; 1352; 1678; 2703; 157; 253 ]%positive = true.
Proof. vm_compute. reflexivity. Qed.

(* ================================================================== *)
(** ** Integer part of the decode *)
(* ================================================================== *)

Lemma u8_range b : 0 <= u8 b < 256.
Proof. unfold u8. pose proof (Byte.to_N_bounded b). lia. Qed.

Lemma lor_shiftl_8 hi lo :
  0 <= lo < 256 -> Z.lor (Z.shiftl hi 8) lo = 256 * hi + lo.
Proof.
  intros H.
  rewrite Z.shiftl_mul_pow2 by lia.
  assert (L : Z.land (hi * 2 ^ 8) lo = 0).
  { apply Z.bits_inj'. intros n Hn. rewrite Z.land_spec, Z.bits_0.
    destruct (Z.ltb_spec n 8).
    - rewrite Z.mul_pow2_bits_low by lia. reflexivity.
    - rewrite (Z.bits_above_log2 lo n); [apply andb_false_r | lia | ].
      destruct (Z.eq_dec lo 0) as [->|]; [simpl; lia|].
      apply Z.log2_lt_pow2; [lia|].
      apply Z.lt_le_trans with (2 ^ 8);
        [simpl; lia | apply Z.pow_le_mono_r; lia]. }
  rewrite <- Z.lxor_lor by exact L.
  rewrite <- Z.add_nocarry_lxor by exact L.
  change (2 ^ 8) with 256. lia.
Qed.

Lemma be_uint16_range hi lo : 0 <= be_uint16 hi lo < 65536.
Proof.
  unfold be_uint16. pose proof (u8_range hi). pose proof (u8_range lo). lia.
Qed.

Lemma be_int16_range hi lo : -32768 <= be_int16 hi lo < 32768.
Proof.
  unfold be_int16. pose proof (be_uint16_range hi lo).
  destruct (Z.ltb_spec (be_uint16 hi lo) 32768); lia.
Qed.

Lemma int16_of_int_in_range z :
  -32768 <= z < 32768 -> int16_of_int z = z.
Proof. intros H. unfold int16_of_int. Z.div_mod_to_equations. lia. Qed.

Lemma int16_of_int_above z :
  32768 <= z < 98304 -> int16_of_int z = z - 65536.
Proof. intros H. unfold int16_of_int. Z.div_mod_to_equations. lia. Qed.

Lemma int16_of_int_below z :
  -98304 <= z < -32768 -> int16_of_int z = z + 65536.
Proof. intros H. unfold int16_of_int. Z.div_mod_to_equations. lia. Qed.

(** The initial value of [zi] is the two's-complement reading of the
    pair. *)
Lemma int16_of_pair hi lo :
  int16_of_int (Z.lor (Z.shiftl (u8 hi) 8) (u8 lo)) = be_int16 hi lo.
Proof.
  rewrite lor_shiftl_8 by apply u8_range.
  fold (be_uint16 hi lo). unfold be_int16.
  pose proof (be_uint16_range hi lo).
  destruct (Z.ltb_spec (be_uint16 hi lo) 32768).
  - apply int16_of_int_in_range; lia.
  - apply int16_of_int_above; lia.
Qed.

Lemma z_count_int16 r hi lo :
  z_count r hi lo = count_int16 r (be_int16 hi lo).
Proof.
  unfold z_count. rewrite int16_of_pair.
  pose proof (be_int16_range hi lo) as R.
  unfold count_int16, count_unbounded.
  destruct r; cbn [res_eqb res_index Nat.eqb].
  - destruct (Z.ltb_spec (be_int16 hi lo) (-32768)); lia.
  - destruct (Z.ltb_spec (be_int16 hi lo) (-32768)); lia.
  - destruct (Z.ltb_spec (be_int16 hi lo - 0x8000) (-32768)).
    + apply int16_of_int_below; lia.
    + apply int16_of_int_in_range; lia.
  - destruct (Z.ltb_spec (be_int16 hi lo - 0x4000) (-32768)).
    + apply int16_of_int_below; lia.
    + apply int16_of_int_in_range; lia.
Qed.

Lemma z_count_range r hi lo : -32768 <= z_count r hi lo < 32768.
Proof.
  rewrite z_count_int16. pose proof (be_int16_range hi lo).
  unfold count_int16, count_unbounded.
  destruct r;
    match goal with |- context [?a <? ?b] => destruct (Z.ltb_spec a b) end;
    lia.
Qed.

(** The decode in terms of the reference definitions. *)
Lemma decode_with_field_mT tbl g r d5 d6 :
  decode_with tbl g r d5 d6
  = field_mT (z_count r d5 d6)
             (lsb_at tbl 0 (gain_index g) (res_index r) 1).
Proof. reflexivity. Qed.

Lemma decode_z_field_mT g r d5 d6 :
  decode_z g r d5 d6 = field_mT (z_count r d5 d6) (z_scale_0xC g r).
Proof.
  unfold decode_z. rewrite decode_with_field_mT, lsb_at_in_range.
  reflexivity.
Qed.

Lemma field_mT_not_nan c s m e :
  F32.add (F32.div (F32.mul (F32.of_Z c) (S754_finite s m e))
                   (F32.lit 1000 1)) Z_OFFSET_MT <> S754_nan.
Proof.
  change Z_OFFSET_MT with (S754_finite false 10485760 (-19)).
  change (F32.lit 1000 1) with (S754_finite false 16384000 (-14)).
  apply SFadd_not_nan_r, SFdiv_not_nan_r, SFmul_not_nan_r.
  apply binary_normalize_not_nan.
Qed.

(* ================================================================== *)
(** ** Properties of the measurement decode *)
(* ================================================================== *)

(** C1 (as stated, refuted).  With the resolution correction read as a
    plain subtraction, the pair 0x80 0x00 at 18-bit resolution would give a
    count of -65536 and a field floored to 0; the program wraps the count
    to 0 and returns the offset 20. *)
Lemma decode_subtraction_is_not_unbounded :
  decode_z MLX90393_GAIN_1X MLX90393_RES_18 x80 x00 = F32.of_Z 20 /\
  decode_unbounded MLX90393_GAIN_1X MLX90393_RES_18 x80 x00 = F32.zero /\
  decode_z MLX90393_GAIN_1X MLX90393_RES_18 x80 x00
  <> decode_unbounded MLX90393_GAIN_1X MLX90393_RES_18 x80 x00.
Proof. vm_compute. repeat split. discriminate. Qed.

(** C1 (amended).  For every byte pair, gain and resolution the decode is:
    the big-endian two's-complement 16-bit value of the pair; reduced by
    0x8000 at 18-bit and by 0x4000 at 19-bit resolution in 16-bit
    wrap-around arithmetic (no correction at 16 and 17 bit); multiplied by
    the Z-axis scale factor of the HALLCONF = 0xC half for the gain and
    resolution; divided by 1000, increased by the Z offset and floored at
    zero, each operation in single precision. *)
Theorem decode_is_int16_corrected_scaling g r hi lo :
  decode_z g r hi lo = decode_int16 g r hi lo.
Proof.
  rewrite decode_z_field_mT, z_count_int16. reflexivity.
Qed.

(** C3 (as stated, refuted).  The pair 0x00 0x64 at 16-bit resolution and
    gain 1X does not decode to [100 * 0.150 / 1000 + Z_OFFSET_MT]: the
    decoded field is more than 0.009 mT above that value. *)
Lemma decode_100_is_not_xy_scaled :
  z_count MLX90393_RES_16 x00 x64 = 100 /\
  decode_z MLX90393_GAIN_1X MLX90393_RES_16 x00 x64
    <> field_mT 100 (milli 150) /\
  (9 # 1000 < F32.toQ (decode_z MLX90393_GAIN_1X MLX90393_RES_16 x00 x64)
              - F32.toQ (field_mT 100 (milli 150)))%Q.
Proof. vm_compute. repeat split. discriminate. Qed.

(** C3 (amended).  The pair 0x00 0x64 (count 100) at 16-bit resolution and
    gain 1X decodes to [100 * 0.242 / 1000 + Z_OFFSET_MT] floored at zero,
    in single precision: 0.242 is the Z-axis factor of that table entry
    (0.150 is its XY factor).  The value is 10498448 * 2^-19, less than
    2^-19 away from 20.0242. *)
Theorem decode_100_is_z_scaled :
  decode_z MLX90393_GAIN_1X MLX90393_RES_16 x00 x64
    = field_mT 100 (milli 242) /\
  field_mT 100 (milli 242) = S754_finite false 10498448 (-19) /\
  (Qabs (F32.toQ (decode_z MLX90393_GAIN_1X MLX90393_RES_16 x00 x64)
         - (200242 # 10000)) < (1 # 524288))%Q.
Proof. vm_compute. repeat split. Qed.

(** C7 (as stated, refuted).  [calculate_force] applied to a NaN returns
    the NaN, for which [0.0f <= force] is false: the comparison
    [force < 0.0f] that guards the floor is false on a NaN. *)
Lemma calculate_force_of_nan :
  calculate_force S754_nan = S754_nan /\
  F32.nonneg (calculate_force S754_nan) = false.
Proof. split; reflexivity. Qed.

(** [calculate_force] of a number is at least zero. *)
Lemma calculate_force_nonneg x :
  x <> S754_nan -> F32.nonneg (calculate_force x) = true.
Proof.
  intros Hx. unfold calculate_force.
  fold (clamp0 (F32.add (F32.mul CALIBRATION_SLOPE x)
                        CALIBRATION_INTERCEPT)).
  apply clamp0_nonneg.
  change CALIBRATION_SLOPE with (S754_finite false 13615836 (-18)).
  change CALIBRATION_INTERCEPT with (S754_finite true 11353990 (-14)).
  apply SFadd_not_nan_r, SFmul_not_nan_l. exact Hx.
Qed.

(** C7 (amended).  The field produced by the decode is [>= 0] for every
    byte pair, gain and resolution, and [calculate_force] returns a value
    [>= 0] for every input that is not a NaN, infinities included; in
    particular for every field the decode produces. *)
Theorem decode_and_force_nonneg g r d5 d6 x :
  F32.is_nan x = false ->
  F32.nonneg (decode_z g r d5 d6) = true /\
  F32.nonneg (calculate_force x) = true /\
  F32.nonneg (calculate_force (decode_z g r d5 d6)) = true.
Proof.
  intros Hx.
  assert (D : decode_z g r d5 d6 <> S754_nan).
  { rewrite decode_z_field_mT.
    destruct (z_scale_0xC_finite g r) as (m & e & ->).
    apply clamp0_not_nan, field_mT_not_nan. }
  split; [|split].
  - rewrite decode_z_field_mT.
    destruct (z_scale_0xC_finite g r) as (m & e & ->).
    apply clamp0_nonneg, field_mT_not_nan.
  - apply calculate_force_nonneg. destruct x; discriminate.
  - apply calculate_force_nonneg, D.
Qed.

Lemma decode_and_force_nonneg_witness :
  F32.nonneg (decode_z MLX90393_GAIN_5X MLX90393_RES_18 x00 x00) = true /\
  F32.nonneg (calculate_force (S754_infinity true)) = true /\
  F32.nonneg (calculate_force
                (decode_z MLX90393_GAIN_5X MLX90393_RES_18 x00 x00)) = true.
Proof.
  apply (decode_and_force_nonneg MLX90393_GAIN_5X MLX90393_RES_18 x00 x00
           (S754_infinity true)).
  reflexivity.
Defined.

(** C8 (as stated, refuted).  At gain 1X the pair 0x40 0x00 decodes to
    about 23.96 mT at 16-bit and about 4.14 mT at 18-bit resolution
    (neither is floored).  The two differ by about 19.8 mT, whereas 0x8000
    counts are about 7.9 mT at the 16-bit factor 0.242 and about 31.7 mT at
    the 18-bit factor 0.968. *)
Lemma decode_18_vs_16_not_fixed_offset :
  let d16 := decode_z MLX90393_GAIN_1X MLX90393_RES_16 x40 x00 in
  let d18 := decode_z MLX90393_GAIN_1X MLX90393_RES_18 x40 x00 in
  let off s := F32.div (F32.mul (F32.of_Z 0x8000) s) (F32.lit 1000 1) in
  F32.ltb F32.zero d18 = true /\
  (19 < F32.toQ d16 - F32.toQ d18 < 20)%Q /\
  (F32.toQ (off (milli 242)) < 8)%Q /\ (31 < F32.toQ (off (milli 968)))%Q /\
  F32.sub d16 d18 <> off (milli 242) /\ F32.sub d16 d18 <> off (milli 968) /\
  F32.sub d18 d16 <> off (milli 242) /\ F32.sub d18 d16 <> off (milli 968).
Proof. vm_compute. repeat split; discriminate. Qed.

(** C8 (amended).  For the same byte pair, the count scaled at 18-bit
    resolution is the count scaled at 16-bit resolution with 0x8000
    subtracted in 16-bit wrap-around arithmetic: 0x8000 lower for a
    non-negative 16-bit count, 0x8000 higher for a negative one, which is
    the unsigned value of the pair minus 0x8000.  Each decode then scales
    its own count by the factor of its own resolution column, divides by
    1000, adds the Z offset and floors at zero. *)
Theorem decode_18_vs_16_counts g hi lo :
  let c16 := z_count MLX90393_RES_16 hi lo in
  let c18 := z_count MLX90393_RES_18 hi lo in
  c16 = be_int16 hi lo /\
  c18 = be_uint16 hi lo - 0x8000 /\
  c18 = (if 0 <=? c16 then c16 - 0x8000 else c16 + 0x8000) /\
  (c16 - c18) mod 65536 = 0x8000 /\
  decode_z g MLX90393_RES_16 hi lo
    = field_mT c16 (z_scale_0xC g MLX90393_RES_16) /\
  decode_z g MLX90393_RES_18 hi lo
    = field_mT c18 (z_scale_0xC g MLX90393_RES_18).
Proof.
  cbv zeta. rewrite !decode_z_field_mT, !z_count_int16.
  unfold count_int16, count_unbounded, be_int16.
  pose proof (be_uint16_range hi lo) as R.
  destruct (Z.ltb_spec (be_uint16 hi lo) 32768) as [L|L].
  - destruct (Z.ltb_spec (be_uint16 hi lo) (-32768)); [lia|].
    destruct (Z.ltb_spec (be_uint16 hi lo - 0x8000) (-32768)); [lia|].
    destruct (Z.leb_spec 0 (be_uint16 hi lo)); [|lia].
    repeat split; try reflexivity.
    replace (be_uint16 hi lo - (be_uint16 hi lo - 32768)) with 32768 by lia.
    reflexivity.
  - destruct (Z.ltb_spec (be_uint16 hi lo - 65536) (-32768)); [lia|].
    destruct (Z.ltb_spec (be_uint16 hi lo - 65536 - 0x8000) (-32768));
      [|lia].
    destruct (Z.leb_spec 0 (be_uint16 hi lo - 65536)); [lia|].
    repeat split; try reflexivity; try lia.
    replace (be_uint16 hi lo - 65536
             - (be_uint16 hi lo - 65536 - 32768 + 65536))
      with (32768 + (-1) * 65536) by lia.
    rewrite Z.mod_add by lia. reflexivity.
Qed.

(** C10.  The scale factor of every decode is the entry
    [[0][gain][resolution][1]] of the table, in its HALLCONF = 0xC half:
    the decode is the same for every table with that half, whatever the
    other half holds, and no hallconf setting is among its inputs. *)
Theorem decode_reads_hallconf_0xC_half tbl g r d5 d6 :
  nth 0 tbl [] = nth 0 mlx90393_lsb_lookup [] ->
  decode_z g r d5 d6
    = field_mT (z_count r d5 d6)
               (lsb_at mlx90393_lsb_lookup 0 (gain_index g) (res_index r) 1)
  /\ decode_with tbl g r d5 d6 = decode_z g r d5 d6.
Proof.
  intros H. split; [reflexivity|].
  unfold decode_z. rewrite !decode_with_field_mT.
  unfold lsb_at. rewrite H. reflexivity.
Qed.

Lemma decode_reads_hallconf_0xC_half_witness :
  decode_z MLX90393_GAIN_1X MLX90393_RES_16 x00 x64
    = field_mT (z_count MLX90393_RES_16 x00 x64)
        (lsb_at mlx90393_lsb_lookup 0 (gain_index MLX90393_GAIN_1X)
                (res_index MLX90393_RES_16) 1)
  /\ decode_with first_half_only MLX90393_GAIN_1X MLX90393_RES_16 x00 x64
     = decode_z MLX90393_GAIN_1X MLX90393_RES_16 x00 x64.
Proof.
  apply (decode_reads_hallconf_0xC_half first_half_only).
  reflexivity.
Defined.

(* ================================================================== *)
(** ** Bus exchanges and command status *)
(* ================================================================== *)

(** An exchange whose write is refused stops after the write; otherwise
    the read follows 10 ms later and decides the outcome. *)
Lemma mlx_transceive_result tx rx_len st :
  mlx_transceive tx rx_len st
  = match i2c_bus st (length (i2c_log st)) with
    | I2C_nack => (None, log_transfer (I2C_write tx) st)
    | I2C_ack _ => (next_exchange st, after_exchange tx rx_len st)
    end.
Proof.
  unfold mlx_transceive, bind, i2c_write_blocking, next_exchange,
    after_exchange.
  destruct (i2c_bus st (length (i2c_log st))) as [d|] eqn:W;
    [|reflexivity].
  destruct (Z.ltb_spec (Z.of_nat (length tx)) 0) as [L|L]; [lia|].
  unfold sleep_ms, modify, ret, i2c_read_blocking. cbn [fst snd].
  destruct (0 <? rx_len)%nat; cbn [log_transfer advance_clock i2c_bus
      i2c_log length];
    destruct (i2c_bus st (S (length (i2c_log st)))) as [rx|];
    cbn [fst snd]; try reflexivity.
  assert ((0 <? Z.of_nat (rx_len + 1)) = true) as ->
    by (apply Z.ltb_lt; lia).
  reflexivity.
Qed.

Lemma mlx_transceive_value tx rx_len st :
  fst (mlx_transceive tx rx_len st) = next_exchange st.
Proof.
  rewrite mlx_transceive_result. unfold next_exchange.
  destruct (i2c_bus st (length (i2c_log st))); reflexivity.
Qed.

(** Every call of [mlx_transceive] leaves a trace in the transfer log. *)
Lemma mlx_transceive_logs tx rx_len st :
  (length (i2c_log st)
   < length (i2c_log (snd (mlx_transceive tx rx_len st))))%nat.
Proof.
  rewrite mlx_transceive_result.
  destruct (i2c_bus st (length (i2c_log st))); cbn; lia.
Qed.

Lemma same_globals_trans a b c :
  same_globals a b -> same_globals b c -> same_globals a c.
Proof.
  unfold same_globals. intros (?&?&?&?&?&?) (?&?&?&?&?&?).
  repeat split; congruence.
Qed.

Lemma mlx_transceive_globals tx rx_len st :
  same_globals st (snd (mlx_transceive tx rx_len st)).
Proof.
  rewrite mlx_transceive_result.
  destruct (i2c_bus st (length (i2c_log st))); repeat split.
Qed.

(** Decomposition of the command functions over the result of their
    exchange. *)
Lemma mlx_exit_mode_result st :
  mlx_exit_mode st
  = (match fst (mlx_transceive [MLX90393_REG_EX] 0 st) with
     | Some status => status_code (status 0%nat) =? 0x00
     | None => false
     end,
     snd (mlx_transceive [MLX90393_REG_EX] 0 st)).
Proof.
  unfold mlx_exit_mode, bind.
  destruct (mlx_transceive [MLX90393_REG_EX] 0 st) as [[rx|] st'];
    reflexivity.
Qed.

Lemma mlx_reset_result st :
  mlx_reset st
  = match fst (mlx_transceive [MLX90393_REG_RT] 0 st) with
    | Some status =>
        (status_code (status 0%nat) =? 0x01,
         advance_clock 5 (snd (mlx_transceive [MLX90393_REG_RT] 0 st)))
    | None => (false, snd (mlx_transceive [MLX90393_REG_RT] 0 st))
    end.
Proof.
  unfold mlx_reset, bind.
  destruct (mlx_transceive [MLX90393_REG_RT] 0 st) as [[rx|] st'];
    reflexivity.
Qed.

Lemma mlx_start_measurement_result st :
  let cmd := Z.lor MLX90393_REG_SM MLX90393_AXIS_ALL in
  mlx_start_measurement st
  = (match fst (mlx_transceive [cmd] 0 st) with
     | Some status =>
         (status_code (status 0%nat) =? 0x00)
         || (status_code (status 0%nat) =? 0x08)
     | None => false
     end,
     snd (mlx_transceive [cmd] 0 st)).
Proof.
  cbv zeta. unfold mlx_start_measurement, bind.
  destruct (mlx_transceive _ 0 st) as [[rx|] st']; reflexivity.
Qed.

Lemma mlx_read_measurement_result st :
  let cmd := Z.lor MLX90393_REG_RM MLX90393_AXIS_ALL in
  mlx_read_measurement st
  = (match fst (mlx_transceive [cmd] 6 st) with
     | Some data =>
         if status_code (data 0%nat) =? 0x00
         then Some (decode_z (mlx_gain st) (mlx_res_z st)
                             (data 5%nat) (data 6%nat))
         else None
     | None => None
     end,
     snd (mlx_transceive [cmd] 6 st)).
Proof.
  cbv zeta. unfold mlx_read_measurement, bind.
  pose proof (mlx_transceive_globals
                [Z.lor MLX90393_REG_RM MLX90393_AXIS_ALL] 6 st)
    as (Hg & Hr & _).
  destruct (mlx_transceive _ 6 st) as [[rx|] st']; [|reflexivity].
  cbn [fst snd] in *.
  destruct (status_code (rx 0%nat) =? 0); [|reflexivity].
  unfold get, ret. rewrite Hg, Hr. reflexivity.
Qed.

Lemma mlx_exit_mode_globals st : same_globals st (snd (mlx_exit_mode st)).
Proof. rewrite mlx_exit_mode_result. apply mlx_transceive_globals. Qed.

Lemma mlx_reset_globals st : same_globals st (snd (mlx_reset st)).
Proof.
  rewrite mlx_reset_result.
  pose proof (mlx_transceive_globals [MLX90393_REG_RT] 0 st) as H.
  destruct (fst (mlx_transceive [MLX90393_REG_RT] 0 st)); [|exact H].
  eapply same_globals_trans; [exact H|]. repeat split.
Qed.

Lemma mlx_start_measurement_globals st :
  same_globals st (snd (mlx_start_measurement st)).
Proof.
  rewrite mlx_start_measurement_result. apply mlx_transceive_globals.
Qed.

Lemma mlx_read_measurement_globals st :
  same_globals st (snd (mlx_read_measurement st)).
Proof.
  rewrite mlx_read_measurement_result. apply mlx_transceive_globals.
Qed.

Lemma mlx_read_data_globals st : same_globals st (snd (mlx_read_data st)).
Proof.
  unfold mlx_read_data, bind.
  pose proof (mlx_start_measurement_globals st) as H.
  destruct (mlx_start_measurement st) as [[|] st1]; cbn [negb snd] in *.
  - unfold sleep_ms, modify.
    eapply same_globals_trans; [exact H|].
    eapply same_globals_trans;
      [|apply (mlx_read_measurement_globals (advance_clock 10 st1))].
    repeat split.
  - exact H.
Qed.

Lemma status_code_div b : status_code b = u8 b / 4.
Proof. unfold status_code. rewrite Z.shiftr_div_pow2 by lia. reflexivity. Qed.

(** C2.  The status code of an exchange is the status byte shifted right
    by two bits, a 6-bit value that ignores the two low bits.  On the reply
    of its exchange, EXIT_MODE succeeds iff the code is 0x00, RESET iff it
    is 0x01, START_MEASUREMENT iff it is 0x00 or 0x08, and
    READ_MEASUREMENT returns the decoded bytes 5 and 6 iff the code is
    0x00 and otherwise returns failure without a value; each of them fails
    when the exchange itself fails. *)
Theorem status_code_decides_success st :
  (forall b, status_code b = Z.shiftr (u8 b) 2 /\
             0 <= status_code b < 64 /\
             u8 b = 4 * status_code b + Z.land (u8 b) 3) /\
  fst (mlx_exit_mode st)
    = match next_exchange st with
      | Some rx => status_code (rx 0%nat) =? 0x00
      | None => false
      end /\
  fst (mlx_reset st)
    = match next_exchange st with
      | Some rx => status_code (rx 0%nat) =? 0x01
      | None => false
      end /\
  fst (mlx_start_measurement st)
    = match next_exchange st with
      | Some rx => (status_code (rx 0%nat) =? 0x00)
                   || (status_code (rx 0%nat) =? 0x08)
      | None => false
      end /\
  fst (mlx_read_measurement st)
    = match next_exchange st with
      | Some rx =>
          if status_code (rx 0%nat) =? 0x00
          then Some (decode_z (mlx_gain st) (mlx_res_z st)
                              (rx 5%nat) (rx 6%nat))
          else None
      | None => None
      end.
Proof.
  split; [|repeat split].
  - intros b. split; [reflexivity|].
    rewrite status_code_div. pose proof (u8_range b) as R.
    change 3 with (Z.ones 2). rewrite Z.land_ones by lia.
    change (2 ^ 2) with 4. split.
    + Z.div_mod_to_equations. lia.
    + Z.div_mod_to_equations. lia.
  - rewrite mlx_exit_mode_result. cbn [fst].
    rewrite mlx_transceive_value. reflexivity.
  - rewrite mlx_reset_result, mlx_transceive_value.
    destruct (next_exchange st); reflexivity.
  - rewrite mlx_start_measurement_result. cbn [fst].
    rewrite mlx_transceive_value. reflexivity.
  - rewrite mlx_read_measurement_result. cbn [fst].
    rewrite mlx_transceive_value. reflexivity.
Qed.

(** Status code 0x08 is accepted by START_MEASUREMENT only. *)
Lemma commands_on_busy_bus :
  let st := running_state busy_bus in
  status_code x20 = 0x08 /\
  fst (mlx_start_measurement st) = true /\
  fst (mlx_exit_mode st) = false /\
  fst (mlx_reset st) = false /\
  fst (mlx_read_measurement st) = None.
Proof. vm_compute. repeat split. Qed.

(* ================================================================== *)
(** ** Initialization and the polling loop *)
(* ================================================================== *)

Lemma mlx_init_result st :
  mlx_init st
  = let (exited, st1) := mlx_exit_mode st in
    if exited then
      let (was_reset, st2) := mlx_reset st1 in
      if was_reset
      then (true, set_mlx_initialized true (advance_clock 10 st2))
      else (false, st2)
    else (false, st1).
Proof.
  unfold mlx_init, bind.
  destruct (mlx_exit_mode st) as [[|] st1]; cbn [negb]; [|reflexivity].
  destruct (mlx_reset st1) as [[|] st2]; reflexivity.
Qed.

(** A cycle of an uninitialized driver only waits. *)
Lemma main_loop_body_uninitialized st :
  mlx_initialized st = false ->
  main_loop_body st = (Line_not_initialized, advance_clock 100 st).
Proof.
  intros H. unfold main_loop_body, bind, get. rewrite H. reflexivity.
Qed.

Lemma main_loop_uninitialized n : forall st,
  mlx_initialized st = false ->
  fst (main_loop n st) = repeat Line_not_initialized n /\
  i2c_log (snd (main_loop n st)) = i2c_log st /\
  mlx_initialized (snd (main_loop n st)) = false.
Proof.
  induction n as [|n IH]; intros st H.
  - repeat split; assumption.
  - assert (E : main_loop (S n) st
                = (Line_not_initialized
                     :: fst (main_loop n (advance_clock 100 st)),
                   snd (main_loop n (advance_clock 100 st)))).
    { cbn [main_loop]. unfold bind.
      rewrite (main_loop_body_uninitialized st H).
      destruct (main_loop n (advance_clock 100 st)); reflexivity. }
    rewrite E. cbn [fst snd repeat].
    destruct (IH (advance_clock 100 st) H) as (E1 & E2 & E3).
    rewrite E1, E2, E3. repeat split.
Qed.

(** C4.  When the EXIT_MODE exchange, or the RESET exchange that follows
    it, fails (transport failure or wrong status code), [mlx_init] returns
    failure and the initialized flag stays false; from then on every cycle
    of the main loop reports "not initialized" and issues no transfer on
    the bus. *)
Theorem failed_init_blocks_polling st n :
  mlx_initialized st = false ->
  fst (mlx_exit_mode st) = false \/
  fst (mlx_reset (snd (mlx_exit_mode st))) = false ->
  fst (mlx_init st) = false /\
  mlx_initialized (snd (mlx_init st)) = false /\
  fst (main_loop n (snd (mlx_init st))) = repeat Line_not_initialized n /\
  i2c_log (snd (main_loop n (snd (mlx_init st))))
    = i2c_log (snd (mlx_init st)).
Proof.
  intros Hinit Hfail.
  assert (fst (mlx_init st) = false /\
          mlx_initialized (snd (mlx_init st)) = false) as [H1 H2].
  { rewrite mlx_init_result.
    pose proof (mlx_exit_mode_globals st) as (_&_&_&_&G1&_).
    destruct (mlx_exit_mode st) as [e st1]. cbn [fst snd] in *.
    pose proof (mlx_reset_globals st1) as (_&_&_&_&G2&_).
    destruct (mlx_reset st1) as [r st2]. cbn [fst snd] in *.
    destruct e; [destruct r|]; cbn [fst snd].
    - destruct Hfail; discriminate.
    - split; congruence.
    - split; congruence. }
  destruct (main_loop_uninitialized n _ H2) as (L1 & L2 & _).
  auto.
Qed.

Lemma failed_init_blocks_polling_witness :
  fst (mlx_init (initial_state dead_bus)) = false /\
  mlx_initialized (snd (mlx_init (initial_state dead_bus))) = false /\
  fst (main_loop 3 (snd (mlx_init (initial_state dead_bus))))
    = repeat Line_not_initialized 3 /\
  i2c_log (snd (main_loop 3 (snd (mlx_init (initial_state dead_bus)))))
    = i2c_log (snd (mlx_init (initial_state dead_bus))).
Proof.
  apply (failed_init_blocks_polling (initial_state dead_bus) 3).
  - reflexivity.
  - left. reflexivity.
Defined.

(** The filter update leaves everything but the filter state alone. *)
Lemma filter_update_result z st :
  filter_update z st
  = if first_mag_reading st
    then (z, set_first_mag_reading false (set_smoothed_z z st))
    else (smooth z FILTER_VAL (smoothed_z st),
          set_smoothed_z (smooth z FILTER_VAL (smoothed_z st)) st).
Proof.
  unfold filter_update, bind, get, modify.
  destruct (first_mag_reading st); reflexivity.
Qed.

Lemma main_loop_body_result st :
  mlx_initialized st = true ->
  main_loop_body st
  = match mlx_read_data st with
    | (Some z, st1) =>
        (Line_z_axis (fst (filter_update z st1)),
         advance_clock 100 (snd (filter_update z st1)))
    | (None, st1) => (Line_error, advance_clock 100 st1)
    end.
Proof.
  intros H. unfold main_loop_body, bind, get. rewrite H.
  destruct (mlx_read_data st) as [[z|] st1]; [|reflexivity].
  destruct (filter_update z st1); reflexivity.
Qed.

(** A run on a healthy bus: initialization succeeds with four transfers,
    and each of the first two cycles issues four more, decodes the count
    100 and prints the filtered field; the second line is the filter
    applied to two equal readings. *)
Lemma main_two_cycles_on_healthy_bus :
  let z := field_mT 100 (milli 242) in
  let run := main 2 (initial_state (healthy_bus x00 x64)) in
  fst run = (true, [Line_z_axis z; Line_z_axis (smooth z FILTER_VAL z)]) /\
  length (i2c_log (snd run)) = 12%nat /\
  clock_ms (snd run) = 2295.
Proof. vm_compute. repeat split. Qed.

(** What makes [mlx_read_data] fail: the start command, or the read that
    follows it 10 ms later. *)
Lemma mlx_read_data_fails_iff st :
  fst (mlx_read_data st) = None <->
  fst (mlx_start_measurement st) = false \/
  fst (mlx_read_measurement
         (advance_clock 10 (snd (mlx_start_measurement st)))) = None.
Proof.
  unfold mlx_read_data, bind, sleep_ms, modify.
  destruct (mlx_start_measurement st) as [[|] st1]; cbn [negb fst snd].
  - destruct (mlx_read_measurement (advance_clock 10 st1)) as [[z|] st2];
      cbn [fst]; split; auto. intros [H|H]; discriminate.
  - split; auto.
Qed.

(** C5.  A cycle in which [mlx_read_data] fails, at whichever step, leaves
    the smoothed value and the first-reading flag as they were before the
    cycle, and prints the error line. *)
Theorem failed_cycle_keeps_filter_state st :
  fst (mlx_read_data st) = None ->
  filter_state (snd (main_loop_body st)) = filter_state st /\
  (mlx_initialized st = true -> fst (main_loop_body st) = Line_error).
Proof.
  intros Hfail.
  destruct (mlx_initialized st) eqn:Hi.
  - rewrite (main_loop_body_result st Hi).
    pose proof (mlx_read_data_globals st) as (_&_&Gs&Gf&_).
    destruct (mlx_read_data st) as [[z|] st1]; cbn [fst snd] in *;
      [discriminate|].
    split; [|reflexivity].
    unfold filter_state. cbn. congruence.
  - rewrite (main_loop_body_uninitialized st Hi).
    split; [reflexivity | discriminate].
Qed.

Lemma failed_cycle_keeps_filter_state_witness :
  (status_code x10 = 0x04 /\
   fst (mlx_read_data (running_state read_rejected_bus)) = None) /\
  filter_state (snd (main_loop_body (running_state read_rejected_bus)))
    = filter_state (running_state read_rejected_bus) /\
  (mlx_initialized (running_state read_rejected_bus) = true ->
   fst (main_loop_body (running_state read_rejected_bus)) = Line_error).
Proof.
  split; [split; reflexivity|].
  apply (failed_cycle_keeps_filter_state (running_state read_rejected_bus)).
  reflexivity.
Defined.

(** C6.  On the first accepted reading the smoothed value becomes the raw
    input, the first-reading flag is cleared and the raw input is the
    result; on every later reading the new smoothed value, also the result,
    is [raw * (1 - 0.4f) + previous * 0.4f], which is [smooth] at its
    coefficient [FILTER_VAL], [smooth] being
    [data * (1 - coefficient) + smoothed * coefficient] for every
    coefficient.  With inputs 10 then 20 the second result is exactly
    16. *)
Theorem filter_update_first_then_average z st :
  (first_mag_reading st = true ->
   fst (filter_update z st) = z /\
   smoothed_z (snd (filter_update z st)) = z /\
   first_mag_reading (snd (filter_update z st)) = false) /\
  (first_mag_reading st = false ->
   fst (filter_update z st)
     = F32.add (F32.mul z (F32.sub F32.one FILTER_VAL))
               (F32.mul (smoothed_z st) FILTER_VAL) /\
   smoothed_z (snd (filter_update z st)) = fst (filter_update z st) /\
   first_mag_reading (snd (filter_update z st)) = false) /\
  (forall data c s,
     smooth data c s
     = F32.add (F32.mul data (F32.sub F32.one c)) (F32.mul s c)) /\
  (first_mag_reading st = true ->
   fst ((filter_update (F32.of_Z 10) ;;; filter_update (F32.of_Z 20)) st)
   = F32.of_Z 16).
Proof.
  repeat split; intros; try reflexivity;
    try (rewrite filter_update_result, H; try reflexivity; assumption).
  unfold bind. rewrite filter_update_result, H.
  rewrite filter_update_result. reflexivity.
Qed.

Lemma filter_update_first_then_average_witness :
  let st := initial_state dead_bus in
  fst (filter_update (F32.of_Z 10) st) = F32.of_Z 10 /\
  smoothed_z (snd (filter_update (F32.of_Z 10) st)) = F32.of_Z 10 /\
  first_mag_reading (snd (filter_update (F32.of_Z 10) st)) = false /\
  fst ((filter_update (F32.of_Z 10) ;;; filter_update (F32.of_Z 20)) st)
  = F32.of_Z 16.
Proof.
  cbv zeta.
  destruct (filter_update_first_then_average (F32.of_Z 10)
              (initial_state dead_bus)) as (H1 & _ & _ & H4).
  destruct (H1 eq_refl) as (A & B & C).
  split; [exact A|]. split; [exact B|]. split; [exact C|].
  exact (H4 eq_refl).
Defined.

(* ================================================================== *)
(** ** The filter under constant input *)
(* ================================================================== *)

(** [smooth] is within rounding error of the exact weighted mean
    [data * (1 - c) + smoothed * c]: four rounded operations, each with
    relative error [F32.eps]. *)
Lemma smooth_rounding_error data c smoothed b :
  F32.is_finite data = true -> F32.valid data = true ->
  F32.is_finite c = true -> F32.valid c = true ->
  F32.is_finite smoothed = true -> F32.valid smoothed = true ->
  (0 <= F32.toQ c < 1)%Q ->
  (Qabs (F32.toQ data) <= b)%Q -> (Qabs (F32.toQ smoothed) <= b)%Q ->
  (b <= 2 ^ 126)%Q ->
  F32.is_finite (smooth data c smoothed) = true /\
  (Qabs (F32.toQ (smooth data c smoothed)
         - (F32.toQ data * (1 - F32.toQ c) + F32.toQ smoothed * F32.toQ c))
   <= 2 ^ (-21) * b + 2 ^ (-148))%Q.
Proof.
  intros Fd Vd Fc Vc Fs Vs [C0 C1] HD HS Hb. unfold smooth.
  assert (F1 : F32.is_finite F32.one = true) by reflexivity.
  assert (V1 : F32.valid F32.one = true) by reflexivity.
  assert (Q1 : (F32.toQ F32.one == 1)%Q) by reflexivity.
  set (D := F32.toQ data) in *. set (S := F32.toQ smoothed) in *.
  set (C := F32.toQ c) in *.
  assert (E : (F32.eta <= 1 # 16777216)%Q) by (unfold Qle; cbn; lia).
  assert (E0 : (0 < F32.eta)%Q) by reflexivity.
  assert (B126 : (2 ^ 126 == 85070591730234615865843651857942052864)%Q)
    by reflexivity.
  assert (B127 : (2 ^ 127 == 170141183460469231731687303715884105728)%Q)
    by reflexivity.
  assert (E4 : (2 ^ (-148) == 4 * F32.eta)%Q) by reflexivity.
  assert (U8 : (2 ^ (-21) == 8 # 16777216)%Q) by reflexivity.
  assert (b0 : (0 <= b)%Q)
    by (eapply Qle_trans; [apply (Qabs_nonneg D) | exact HD]).
  (* a = 1 - c *)
  destruct (sub_rounding_error F32.one c F1 Fc V1 Vc) as (Fa & Va & Ea).
  { rewrite Q1. fold C. apply Qle_lt_trans with 1%Q; [|reflexivity].
    apply Qabs_intro; lra. }
  rewrite Q1 in Ea. fold C in Ea.
  set (a := F32.sub F32.one c) in *. set (A := F32.toQ a) in *.
  rewrite (Qabs_pos (1 - C)) in Ea by lra.
  apply Qabs_bound in Ea. destruct Ea as [Ea1 Ea2].
  change F32.eps with (1 # 16777216)%Q in Ea1, Ea2.
  assert (A0 : (Qabs A <= 3 # 2)%Q) by (apply Qabs_intro; lra).
  assert (A1 : (Qabs (A - (1 - C)) <= 2 # 16777216)%Q)
    by (apply Qabs_intro; lra).
  assert (C2 : (Qabs C <= C)%Q) by (apply Qabs_intro; lra).
  assert (C3 : (Qabs (1 - C) <= 1 - C)%Q) by (apply Qabs_intro; lra).
  (* p = data * a *)
  pose proof (Qabs_mul_le D A _ _ HD A0) as DA.
  destruct (mul_rounding_error data a Fd Fa Vd Va) as (Fp & Vp & Ep).
  { fold D A. eapply Qle_lt_trans; [exact DA|]. rewrite B127. lra. }
  fold D A in Ep. set (p := F32.mul data a) in *.
  set (P := F32.toQ p) in *.
  (* q = smoothed * c *)
  pose proof (Qabs_mul_le S C _ _ HS C2) as SC.
  destruct (mul_rounding_error smoothed c Fs Fc Vs Vc) as (Fq & Vq & Eq_).
  { fold S C. eapply Qle_lt_trans; [exact SC|]. rewrite B127.
    setoid_replace (b * C)%Q with (b - b * (1 - C))%Q by ring.
    assert (0 <= b * (1 - C))%Q by (apply Qmult_le_0_compat; lra).
    lra. }
  fold S C in Eq_. set (q := F32.mul smoothed c) in *.
  set (Qv := F32.toQ q) in *.
  change F32.eps with (1 # 16777216)%Q in Ep, Eq_.
  (* the exact weighted mean and its distance to p + q *)
  pose proof (Qabs_mul_le D (A - (1 - C)) _ _ HD A1) as DE.
  pose proof (Qabs_mul_le D (1 - C) _ _ HD C3) as DC.
  assert (SC' : (Qabs (S * C) <= b)%Q).
  { eapply Qle_trans; [exact SC|].
    setoid_replace (b * C)%Q with (b - b * (1 - C))%Q by ring.
    assert (0 <= b * (1 - C))%Q by (apply Qmult_le_0_compat; lra).
    lra. }
  assert (W : (Qabs (D * (1 - C) + S * C) <= b)%Q).
  { eapply Qle_trans; [apply Qabs_triangle|].
    setoid_replace (b * (1 - C))%Q with (b - b * C)%Q in DC by ring.
    lra. }
  assert (PQ : (Qabs (P + Qv - (D * (1 - C) + S * C))
                <= (9 # 33554432) * b + 2 * F32.eta)%Q).
  { setoid_replace (P + Qv - (D * (1 - C) + S * C))%Q
      with ((P - D * A) + (Qv - S * C) + D * (A - (1 - C)))%Q by ring.
    apply Qabs_bound in Ep, Eq_, DE.
    revert Ep Eq_ DE DA SC'.
    generalize (P - D * A)%Q (Qv - S * C)%Q (D * (A - (1 - C)))%Q
      (Qabs (D * A)) (Qabs (S * C)).
    intros d2 d3 de ada asc Ep Eq_ DE DA SC'. apply Qabs_intro; lra. }
  assert (PQ' : (Qabs (P + Qv) <= (33554441 # 33554432) * b
                                  + 2 * F32.eta)%Q).
  { setoid_replace (P + Qv)%Q
      with ((P + Qv - (D * (1 - C) + S * C)) + (D * (1 - C) + S * C))%Q
      by ring.
    eapply Qle_trans; [apply Qabs_triangle|]. lra. }
  (* r = p + q *)
  destruct (add_rounding_error p q Fp Fq Vp Vq) as (Fr & Vr & Er).
  { fold P Qv. eapply Qle_lt_trans; [exact PQ'|]. rewrite B127. lra. }
  fold P Qv in Er. split; [exact Fr|].
  set (r := F32.add p q) in *.
  setoid_replace (F32.toQ r - (D * (1 - C) + S * C))%Q
    with ((F32.toQ r - (P + Qv)) + (P + Qv - (D * (1 - C) + S * C)))%Q
    by ring.
  eapply Qle_trans; [apply Qabs_triangle|].
  change F32.eps with (1 # 16777216)%Q in Er.
  rewrite U8, E4. lra.
Qed.

(** C9 (as stated, refuted).  With the program's coefficient 0.4f the
    field value 29 is not a fixed point: [smooth(29, 0.4f, 29)] is the next
    single above 29. *)
Lemma smooth_29_is_not_fixed :
  smooth (F32.of_Z 29) FILTER_VAL (F32.of_Z 29)
    = S754_finite false 15204353 (-19) /\
  F32.of_Z 29 = S754_finite false 15204352 (-19) /\
  F32.ltb F32.zero FILTER_VAL = true /\ F32.ltb FILTER_VAL F32.one = true /\
  smooth (F32.of_Z 29) FILTER_VAL (F32.of_Z 29) <> F32.of_Z 29.
Proof. vm_compute. repeat split. discriminate. Qed.

(** One update from a state equal to the input.  For every finite
    single [x] of magnitude at most [2^126] and every coefficient [c]
    with [0 <= c < 1], [smooth(x, c, x)] is finite and differs from [x] by
    at most [2^-21 * |x| + 2^-148]. *)
Theorem smooth_constant_input_near_fixed_point x c :
  F32.is_finite x = true -> F32.valid x = true ->
  F32.is_finite c = true -> F32.valid c = true ->
  (0 <= F32.toQ c < 1)%Q -> (Qabs (F32.toQ x) <= 2 ^ 126)%Q ->
  F32.is_finite (smooth x c x) = true /\
  (Qabs (F32.toQ (smooth x c x) - F32.toQ x)
   <= 2 ^ (-21) * Qabs (F32.toQ x) + 2 ^ (-148))%Q.
Proof.
  intros Fx Vx Fc Vc Hc HX.
  destruct (smooth_rounding_error x c x (Qabs (F32.toQ x))
              Fx Vx Fc Vc Fx Vx Hc (Qle_refl _) (Qle_refl _) HX)
    as [Fr Er].
  split; [exact Fr|].
  setoid_replace
    (F32.toQ x * (1 - F32.toQ c) + F32.toQ x * F32.toQ c)%Q
    with (F32.toQ x) in Er by ring.
  exact Er.
Qed.

Lemma smooth_constant_input_near_fixed_point_witness :
  F32.is_finite (smooth (F32.of_Z 29) FILTER_VAL (F32.of_Z 29)) = true /\
  (Qabs (F32.toQ (smooth (F32.of_Z 29) FILTER_VAL (F32.of_Z 29))
         - F32.toQ (F32.of_Z 29))
   <= 2 ^ (-21) * Qabs (F32.toQ (F32.of_Z 29)) + 2 ^ (-148))%Q.
Proof.
  apply (smooth_constant_input_near_fixed_point (F32.of_Z 29) FILTER_VAL).
  - reflexivity.
  - reflexivity.
  - reflexivity.
  - reflexivity.
  - split; vm_compute; [discriminate | reflexivity].
  - vm_compute. discriminate.
Defined.

(* ================================================================== *)
(** ** Single-precision division: rounding error *)
(* ================================================================== *)

(** Position of a remainder [r] of a division by [D] within the unit
    interval. *)
Lemma new_location_cases D r :
  0 < D -> 0 <= r < D ->
  new_location D r
  = if r =? 0 then loc_Exact else loc_Inexact (2 * r ?= D).
Proof.
  intros HD Hr. unfold new_location, new_location_even, new_location_odd.
  destruct r as [|p|p]; [destruct (Z.even D); reflexivity | | lia].
  cbn [Z.eqb].
  destruct (Z.even D) eqn:Ev; [reflexivity|].
  f_equal.
  assert (O : Z.odd D = true) by (rewrite <- Z.negb_even, Ev; reflexivity).
  apply Z.odd_spec in O. destruct O as [h O].
  destruct (Z.compare_spec (2 * Z.pos p + 1) D),
           (Z.compare_spec (2 * Z.pos p) D);
    try reflexivity; lia.
Qed.

(** The invariant holds before any shift, is kept by every shift, and
    bounds the error of the rounded mantissa. *)
Lemma shifted_by_0 D q r :
  0 < D -> 0 <= q -> 0 <= r < D ->
  shifted_by D (q * D + r) 0 (shr_record_of_loc q (new_location D r)).
Proof.
  intros HD Hq Hr. rewrite new_location_cases by assumption.
  assert (F : false = true <-> 0 <> 0) by (split; [discriminate | lia]).
  destruct (Z.eqb_spec r 0) as [->|N];
    [| destruct (Z.compare_spec (2 * r) D) as [E|L|G]];
    cbn [shr_record_of_loc]; (split; [exact Hq|]);
    [exists 0 | exists 0 | exists (2 * r) | exists (2 * r - D)];
    cbn [shr_m shr_r shr_s b2z]; change (2 ^ 0) with 1;
    change (2 ^ (0 + 1)) with 2;
    (split; [lia|]); (split; [lia|]); try exact F;
    split; intros; try reflexivity; lia.
Qed.

Lemma shifted_by_shr_1 D W n mrs :
  0 < D -> 0 <= n ->
  shifted_by D W n mrs -> shifted_by D W (n + 1) (shr_1 mrs).
Proof.
  intros HD Hn (Hm & t & Ht & E & S).
  destruct mrs as [m r s]. cbn [shr_m shr_r shr_s] in *.
  assert (P : 2 ^ (n + 1) = 2 * 2 ^ n)
    by (rewrite Z.pow_add_r by lia; lia).
  assert (P2 : 2 ^ (n + 1 + 1) = 4 * 2 ^ n)
    by (rewrite Z.pow_add_r, P by lia; lia).
  assert (P0 : 0 < 2 ^ n) by (apply Z.pow_pos_nonneg; lia).
  assert (PD : 0 < 2 ^ n * D) by nia.
  assert (Hs : (r || s = true) <-> 2 ^ n * b2z r * D + t <> 0).
  { assert (T : t = 0 \/ t <> 0) by lia.
    destruct r, s; cbn [orb b2z]; split; intros H; try reflexivity;
      try nia; try (apply S; nia);
      destruct T as [T|T]; try nia; apply S in T; discriminate. }
  destruct m as [|p|p]; [ | destruct p | lia ]; cbn [shr_1];
    (split; [cbn; lia|]); exists (2 ^ n * b2z r * D + t);
    cbn [shr_m shr_r shr_s b2z]; rewrite P, P2;
    (split; [destruct r; cbn [b2z]; nia|]); (split; [|exact Hs]); nia.
Qed.

Lemma shifted_by_iter p : forall D W n mrs,
  0 < D -> 0 <= n -> shifted_by D W n mrs ->
  shifted_by D W (n + Zpos p) (SpecFloat.iter_pos shr_1 p mrs).
Proof.
  induction p as [p IH|p IH|]; intros D W n mrs HD Hn H;
    cbn [SpecFloat.iter_pos].
  - replace (n + Z.pos p~1) with ((n + 1 + Z.pos p) + Z.pos p) by lia.
    apply IH; [assumption|lia|]. apply IH; [assumption|lia|].
    apply shifted_by_shr_1; assumption.
  - replace (n + Z.pos p~0) with ((n + Z.pos p) + Z.pos p) by lia.
    apply IH; [assumption|lia|]. apply IH; assumption.
  - apply shifted_by_shr_1; assumption.
Qed.

Lemma shifted_by_round D W n mrs :
  0 < D -> 0 <= n -> shifted_by D W n mrs ->
  let m' := round_nearest_even (shr_m mrs) (loc_of_shr_record mrs) in
  shr_m mrs <= m' <= shr_m mrs + 1 /\
  2 ^ n * shr_m mrs * D <= W < 2 ^ n * (shr_m mrs + 1) * D /\
  2 * Z.abs (2 ^ n * m' * D - W) <= 2 ^ n * D.
Proof.
  intros HD Hn (Hm & t & Ht & E & S).
  destruct mrs as [m r s]. cbn [shr_m shr_r shr_s] in *.
  assert (P : 2 ^ (n + 1) = 2 * 2 ^ n)
    by (rewrite Z.pow_add_r by lia; lia).
  rewrite P in E.
  assert (P0 : 0 < 2 ^ n) by (apply Z.pow_pos_nonneg; lia).
  assert (PD : 0 < 2 ^ n * D) by nia.
  assert (Hs : s = false -> t = 0).
  { intros ->. destruct (Z.eq_dec t 0) as [|N]; auto.
    apply S in N. discriminate. }
  destruct r, s; cbn [loc_of_shr_record round_nearest_even b2z] in *;
    try destruct (Z.even m); try specialize (Hs eq_refl); nia.
Qed.

(** Number of binary digits of a non-negative integer. *)
Lemma Zdigits2_bounds q :
  0 <= q -> q < 2 ^ Zdigits2 q /\ (0 < q -> 2 ^ (Zdigits2 q - 1) <= q).
Proof.
  intros H. destruct q as [|p|p]; [cbn; lia | | lia].
  cbn [Zdigits2]. pose proof (digits2_pos_bounds p). lia.
Qed.

Lemma Zdigits2_nonneg q : 0 <= Zdigits2 q.
Proof. destruct q; cbn; lia. Qed.

Lemma Zdigits2_pos q : 0 < q -> 0 < Zdigits2 q.
Proof. destruct q; cbn; lia. Qed.

Lemma shr_fexp_shifted_by D q r ez :
  0 < D -> 0 <= q -> 0 <= r < D ->
  let fe := fexp 24 128 (Zdigits2 q + ez) in
  ez <= fe ->
  exists mrs, shr_fexp 24 128 q ez (new_location D r) = (mrs, fe) /\
              shifted_by D (q * D + r) (fe - ez) mrs.
Proof.
  intros HD Hq Hr fe H. unfold shr_fexp. fold fe.
  pose proof (shifted_by_0 D q r HD Hq Hr) as S0.
  unfold shr. destruct (fe - ez) as [|p|p] eqn:E; try lia.
  - eexists; split; [f_equal; lia|]. exact S0.
  - eexists; split; [f_equal; lia|].
    change (Zpos p) with (0 + Zpos p). apply shifted_by_iter; [assumption|lia|].
    exact S0.
Qed.

(** Rounding of a quotient [q + r / D] at exponent [ez], given as the
    integer part [q] and the location of the remainder. *)
Lemma binary_round_aux_quotient_core s D q r ez :
  0 < D -> 0 <= q -> 0 <= r < D ->
  let fe := fexp 24 128 (Zdigits2 q + ez) in
  ez <= fe -> fe <= 103 ->
  exists m e,
    binary_round_aux 24 128 s q ez (new_location D r) = of_mantissa s m e /\
    0 <= m /\ fe <= e /\
    (m = 0 \/ bounded 24 128 (Z.to_pos m) e = true) /\
    2 * Z.abs (m * 2 ^ (e - ez) * D - (q * D + r)) <= 2 ^ (fe - ez) * D.
Proof.
  intros HD Hq Hr fe Hn Hfe.
  destruct (shr_fexp_shifted_by D q r ez HD Hq Hr Hn) as (mrs & E1 & Sh).
  fold fe in E1, Sh.
  unfold binary_round_aux. rewrite E1.
  assert (Hn0 : 0 <= fe - ez) by lia.
  pose proof (shifted_by_round D (q * D + r) (fe - ez) mrs HD Hn0 Sh) as R.
  cbv zeta in R.
  set (m' := round_nearest_even (shr_m mrs) (loc_of_shr_record mrs)) in *.
  destruct R as (Rm & Rq & Rabs).
  destruct Sh as (Hm0 & _).
  destruct (Zdigits2_bounds q Hq) as [DU DL].
  pose proof (Zdigits2_nonneg q) as D0.
  set (d := Zdigits2 q) in *.
  set (n := fe - ez) in *.
  assert (P0 : 0 < 2 ^ n) by (apply Z.pow_pos_nonneg; lia).
  assert (Hfe149 : -149 <= fe) by (unfold fe; rewrite fexp_eq; lia).
  assert (Hdn : d - n <= 24) by (unfold n, fe; rewrite fexp_eq; lia).
  assert (Hm24 : shr_m mrs < 2 ^ 24).
  { assert (H : 2 ^ d <= 2 ^ (n + 24)) by (apply Z.pow_le_mono_r; lia).
    rewrite Z.pow_add_r in H by lia.
    assert (2 ^ n * shr_m mrs * D < 2 ^ n * 2 ^ 24 * D) by nia.
    nia. }
  assert (Hnormal : -149 < fe -> 2 ^ 23 <= shr_m mrs).
  { intros Hf.
    assert (H : d - 1 = n + 23)
      by (unfold n, fe in *; rewrite fexp_eq in *; lia).
    assert (Hq0 : 0 < q).
    { destruct (Z.eq_dec q 0) as [Hz|Hz]; [|lia].
      subst q. cbn in d. subst d. lia. }
    specialize (DL Hq0). rewrite H in DL. rewrite Z.pow_add_r in DL by lia.
    assert (2 ^ n * 2 ^ 23 * D < 2 ^ n * (shr_m mrs + 1) * D) by nia.
    nia. }
  destruct m' as [|p|p] eqn:Em'; [ | | lia].
  - exists 0, fe. unfold shr_fexp. cbn [Zdigits2 shr_record_of_loc].
    assert (fexp 24 128 (0 + fe) - fe <= 0) by (rewrite fexp_eq; lia).
    unfold shr. destruct (fexp 24 128 (0 + fe) - fe) eqn:E; try lia;
      cbn [shr_m of_mantissa]; repeat split; try lia; auto;
      fold n; rewrite Z.mul_0_l; cbn [Z.mul Z.sub];
      rewrite ?Z.mul_0_r in Rabs; exact Rabs.
  - destruct (Z.eq_dec (Zpos p) (2 ^ 24)) as [C|C].
    + exists (2 ^ 23), (fe + 1).
      assert (p = 16777216%positive) by (apply Pos2Z.inj; exact C).
      subst p.
      unfold shr_fexp. cbn [Zdigits2 shr_record_of_loc].
      assert (E : fexp 24 128 (Zpos (digits2_pos 16777216) + fe) - fe = 1).
      { rewrite fexp_eq. change (Zpos (digits2_pos 16777216)) with 25.
        lia. }
      rewrite E. cbn [shr SpecFloat.iter_pos shr_1 shr_m of_mantissa].
      change (2 ^ 23) with (Zpos 8388608). cbn [of_mantissa].
      assert ((fe + 1 <=? 128 - 24) = true) as ->
        by (apply Z.leb_le; lia).
      repeat split; try lia.
      * right. unfold bounded, canonical_mantissa. cbn [Z.to_pos].
        change (Zpos (digits2_pos 8388608)) with 24. rewrite fexp_eq.
        apply andb_true_intro; split;
          [apply Z.eqb_eq | apply Z.leb_le]; lia.
      * replace (fe + 1 - ez) with (n + 1) by (unfold n; lia).
        rewrite Z.pow_add_r by lia. change (2 ^ 1) with 2.
        replace (Z.pos 8388608 * (2 ^ n * 2) * D)
          with (2 ^ n * Z.pos 16777216 * D) by lia.
        exact Rabs.
    + exists (Zpos p), fe.
      assert (Hp24 : Zpos p < 2 ^ 24) by lia.
      assert (H24 : 0 <= 24) by lia.
      pose proof (digits2_pos_le p 24 H24 Hp24) as Dp.
      unfold shr_fexp. cbn [Zdigits2 shr_record_of_loc].
      assert (E : fexp 24 128 (Zpos (digits2_pos p) + fe) = fe).
      { rewrite fexp_eq.
        destruct (Z.eq_dec fe (-149)) as [F|F]; [lia|].
        assert (Hf : -149 < fe) by lia.
        assert (H : 2 ^ 23 <= Zpos p) by (specialize (Hnormal Hf); lia).
        apply digits2_pos_ge in H. lia. }
      rewrite E, Z.sub_diag. cbn [shr shr_m of_mantissa].
      assert ((fe <=? 128 - 24) = true) as -> by (apply Z.leb_le; lia).
      repeat split; try lia.
      * right. unfold bounded, canonical_mantissa. cbn [Z.to_pos].
        rewrite E.
        apply andb_true_intro; split;
          [apply Z.eqb_eq | apply Z.leb_le]; lia.
      * fold n. rewrite (Z.mul_comm (Zpos p)). exact Rabs.
Qed.

Lemma inject_Z_pos_lt a : 0 < a -> (0 < inject_Z a)%Q.
Proof. intros H. change 0%Q with (inject_Z 0). rewrite <- Zlt_Qlt. exact H. Qed.

Lemma ratio_nonneg W D ez : 0 <= W -> 0 < D -> (0 <= ratio W D ez)%Q.
Proof.
  intros HW HD. unfold ratio.
  apply Qmult_le_0_compat; [|apply Qlt_le_weak, p2_pos].
  apply Qle_shift_div_l; [apply inject_Z_pos_lt; exact HD|].
  rewrite Qmult_0_l. change 0%Q with (inject_Z 0). apply inject_Z_le. exact HW.
Qed.

(** A lower bound [a * D <= W] on the numerator bounds the ratio. *)
Lemma ratio_ge a W D ez :
  0 < D -> a * D <= W -> (inject_Z a * 2 ^ ez <= ratio W D ez)%Q.
Proof.
  intros HD H. unfold ratio.
  apply Qmult_le_compat_r; [|apply Qlt_le_weak, p2_pos].
  apply Qle_shift_div_l; [apply inject_Z_pos_lt; exact HD|].
  rewrite <- inject_Z_mult. apply inject_Z_le. exact H.
Qed.

Lemma Qabs_ratio_diff m e W D ez :
  0 < D -> ez <= e ->
  (Qabs (inject_Z m * 2 ^ e - ratio W D ez)
   == inject_Z (Z.abs (m * 2 ^ (e - ez) * D - W)) / inject_Z D * 2 ^ ez)%Q.
Proof.
  intros HD H. unfold ratio.
  pose proof (inject_Z_pos_lt D HD) as PD.
  replace e with ((e - ez) + ez) at 1 by lia. rewrite p2_add.
  rewrite <- (p2_inj (e - ez)) by lia.
  pose proof (p2_pos ez) as P. revert P. generalize (2 ^ ez)%Q. intros p P.
  assert (E : (inject_Z m * (inject_Z (2 ^ (e - ez)) * p)
               - inject_Z W / inject_Z D * p
               == inject_Z (m * 2 ^ (e - ez) * D - W) / inject_Z D * p)%Q).
  { unfold Z.sub. rewrite inject_Z_plus, inject_Z_opp, !inject_Z_mult.
    field. intros Hz. rewrite Hz in PD. discriminate. }
  rewrite E, Qabs_Qmult. rewrite (Qabs_pos p) by (apply Qlt_le_weak, P).
  apply Qmult_comp; [|reflexivity].
  unfold Qdiv. rewrite Qabs_Qmult.
  rewrite (Qabs_pos (/ inject_Z D)).
  - reflexivity.
  - apply Qlt_le_weak, Qinv_lt_0_compat. exact PD.
Qed.

(** The rounding of a quotient is finite, canonical and within [F32.eps]
    relative plus [F32.eta] absolute of the exact quotient. *)
Lemma quotient_round_error s D q r ez :
  0 < D -> 0 <= q -> 0 <= r < D ->
  ez <= fexp 24 128 (Zdigits2 q + ez) ->
  (ratio (q * D + r) D ez < 2 ^ 127)%Q ->
  let R := binary_round_aux 24 128 s q ez (new_location D r) in
  F32.is_finite R = true /\ F32.valid R = true /\
  (Qabs (F32.toQ R
         - (if s then - ratio (q * D + r) D ez else ratio (q * D + r) D ez))
   <= F32.eps * ratio (q * D + r) D ez + F32.eta)%Q.
Proof.
  intros HD Hq Hr Hn HV R.
  set (W := q * D + r) in *.
  destruct (Zdigits2_bounds q Hq) as [DU DL].
  pose proof (Zdigits2_nonneg q) as D0.
  set (d := Zdigits2 q) in *.
  assert (HqV : (inject_Z q * 2 ^ ez <= ratio W D ez)%Q)
    by (apply ratio_ge; [exact HD | unfold W; lia]).
  assert (Hfe : fexp 24 128 (d + ez) <= 103).
  { rewrite fexp_eq. destruct (Z.eq_dec q 0) as [Hz|Hz].
    - subst q. cbn in d. subst d. rewrite fexp_eq in Hn. lia.
    - assert (Hq0 : 0 < q) by lia. specialize (DL Hq0).
      pose proof (Zdigits2_pos q Hq0) as Dp. fold d in Dp.
      assert (D1 : (2 ^ (d - 1 + ez) <= inject_Z q * 2 ^ ez)%Q).
      { rewrite p2_add.
        apply Qmult_le_compat_r; [|apply Qlt_le_weak, p2_pos].
        apply inject_Z_le in DL. rewrite (p2_inj (d - 1)) in DL by lia.
        exact DL. }
      assert (D2 : (2 ^ (d - 1 + ez) < 2 ^ 127)%Q).
      { eapply Qle_lt_trans; [exact D1|].
        eapply Qle_lt_trans; [exact HqV | exact HV]. }
      apply p2_lt_inv in D2. lia. }
  destruct (binary_round_aux_quotient_core s D q r ez HD Hq Hr Hn Hfe)
    as (m & e & ER & Hm & He & Hb & Habs).
  fold d in He, Habs, Hn. fold W in Habs.
  set (fe := fexp 24 128 (d + ez)) in *.
  unfold R. rewrite ER. repeat split.
  - destruct m; [reflexivity|reflexivity|lia].
  - destruct m; [reflexivity| |lia].
    destruct Hb as [Hb|Hb]; [discriminate|exact Hb].
  - rewrite toQ_of_mantissa by assumption.
    assert (ES : (Qabs (F32.F2Q s m e
                        - (if s then - ratio W D ez else ratio W D ez))
                  == Qabs (inject_Z m * 2 ^ e - ratio W D ez))%Q).
    { unfold F32.F2Q. destruct s; cbn [cond_Zopp]; [|reflexivity].
      rewrite inject_Z_opp.
      setoid_replace (- inject_Z m * 2 ^ e - - ratio W D ez)%Q
        with (- (inject_Z m * 2 ^ e - ratio W D ez))%Q by ring.
      apply Qabs_opp. }
    rewrite ES. rewrite Qabs_ratio_diff by lia.
    pose proof (inject_Z_pos_lt D HD) as PD.
    assert (B : (inject_Z (Z.abs (m * 2 ^ (e - ez) * D - W)) / inject_Z D
                 * 2 ^ ez <= 2 ^ (fe - 1))%Q).
    { replace (fe - 1) with ((fe - ez) + -1 + ez) by lia. rewrite !p2_add.
      apply Qmult_le_compat_r; [|apply Qlt_le_weak, p2_pos].
      apply Qle_shift_div_r; [exact PD|].
      rewrite <- p2_inj by lia.
      assert (H2 : (inject_Z (2 * Z.abs (m * 2 ^ (e - ez) * D - W))
                    <= inject_Z (2 ^ (fe - ez) * D))%Q)
        by (apply inject_Z_le; exact Habs).
      rewrite !inject_Z_mult in H2. change (2 ^ (-1))%Q with (1 # 2)%Q.
      revert H2 PD.
      generalize (inject_Z (2 ^ (fe - ez))), (inject_Z D),
                 (inject_Z (Z.abs (m * 2 ^ (e - ez) * D - W))).
      intros a b c H2 PD. change (inject_Z 2) with 2%Q in H2.
      setoid_replace (a * (1 # 2) * b)%Q with ((1 # 2) * (a * b))%Q by ring.
      lra. }
    eapply Qle_trans; [exact B|].
    pose proof (ratio_nonneg W D ez ltac:(unfold W; nia) HD) as V0.
    assert (Hu : (0 <= F32.eps * ratio W D ez)%Q)
      by (apply Qmult_le_0_compat; [discriminate | exact V0]).
    unfold fe. rewrite fexp_eq.
    destruct (Z.max_spec (d + ez - 24) (-149)) as [[_ ->]|[Hmax ->]].
    + change (2 ^ (-149 - 1))%Q with F32.eta. lra.
    + assert (Hq0 : 0 < q).
      { destruct (Z.eq_dec q 0) as [Hz|Hz]; [|lia].
        unfold fe in Hn. rewrite fexp_eq in Hn.
        subst q. cbn in d. subst d. lia. }
      specialize (DL Hq0).
      pose proof (Zdigits2_pos q Hq0) as Dp. fold d in Dp.
      assert ((2 ^ (d + ez - 24 - 1) <= F32.eps * ratio W D ez)%Q).
      { replace (d + ez - 24 - 1) with (-24 + ((d - 1) + ez)) by lia.
        rewrite p2_add. fold F32.eps. apply Qmult_le_l; [reflexivity|].
        eapply Qle_trans; [|exact HqV].
        rewrite p2_add.
        apply Qmult_le_compat_r; [|apply Qlt_le_weak, p2_pos].
        apply inject_Z_le in DL. rewrite (p2_inj (d - 1)) in DL by lia.
        exact DL. }
      assert (0 <= F32.eta)%Q by discriminate. lra.
Qed.

(** What the division core hands to the rounding: the integer quotient of
    the dividend shifted far enough for a full mantissa, and the location
    of the remainder. *)
Lemma SFdiv_core_binary_quotient mx ex my ey :
  exists q r e',
    SFdiv_core_binary 24 128 (Zpos mx) ex (Zpos my) ey
    = (q, e', new_location (Zpos my) r) /\
    0 <= q /\ 0 <= r < Zpos my /\ e' <= ex - ey /\
    q * Zpos my + r = Zpos mx * 2 ^ (ex - ey - e') /\
    e' <= fexp 24 128 (Zdigits2 q + e').
Proof.
  unfold SFdiv_core_binary. cbn [Zdigits2].
  set (d1 := Zpos (digits2_pos mx)). set (d2 := Zpos (digits2_pos my)).
  set (e' := Z.min (fexp 24 128 (d1 + ex - (d2 + ey))) (ex - ey)).
  set (sh := ex - ey - e').
  assert (Hsh : 0 <= sh) by (unfold sh, e'; lia).
  set (m' := match sh with Z0 => _ | Zpos _ => _ | Zneg _ => _ end).
  assert (Hm' : m' = Zpos mx * 2 ^ sh).
  { unfold m'. destruct sh as [|p|p] eqn:E; [cbn; lia | | lia].
    rewrite Z.shiftl_mul_pow2 by lia. reflexivity. }
  clearbody m'.
  assert (H0 : 0 < Zpos my) by lia.
  pose proof (Z_div_mod m' (Zpos my) ltac:(lia)) as DM.
  destruct (Z.div_eucl m' (Zpos my)) as [q r]. destruct DM as [DM Hr].
  assert (P0 : 0 < 2 ^ sh) by (apply Z.pow_pos_nonneg; lia).
  assert (Hq : 0 <= q).
  { destruct (Z_le_gt_dec 0 q) as [L|G]; [exact L|].
    assert (q * Zpos my <= (-1) * Zpos my)
      by (apply Z.mul_le_mono_nonneg_r; lia).
    assert (0 < m') by (rewrite Hm'; apply Z.mul_pos_pos; lia).
    clear - DM Hr G H H1. lia. }
  exists q, r, e'.
  split; [reflexivity|]. split; [exact Hq|]. split; [exact Hr|].
  split; [unfold e'; lia|]. split; [fold sh; rewrite <- Hm'; lia|].
  - (* the shift of the rounding is not negative *)
    rewrite fexp_eq.
    destruct (Z_le_gt_dec e' (-149)) as [L|G]; [lia|].
    assert (X : 24 <= d1 + sh - d2).
    { unfold sh. unfold e' in G |- *. rewrite fexp_eq in *. lia. }
    pose proof (digits2_pos_bounds mx) as [L1 _]. fold d1 in L1.
    pose proof (digits2_pos_bounds my) as [_ U2]. fold d2 in U2.
    assert (Hd2 : 0 < d2) by (unfold d2; lia).
    assert (Q1 : 2 ^ (d1 + sh - 1 - d2) <= q).
    { assert (E1 : 2 ^ (d1 - 1) * 2 ^ sh <= m') by nia.
      assert (E2 : 2 ^ (d1 - 1) * 2 ^ sh = 2 ^ (d1 + sh - 1 - d2) * 2 ^ d2).
      { rewrite <- !Z.pow_add_r by lia. f_equal. lia. }
      assert (P1 : 0 < 2 ^ (d1 + sh - 1 - d2))
        by (apply Z.pow_pos_nonneg; lia).
      nia. }
    assert (Hq0 : 0 < q) by lia.
    destruct q as [|p|p]; try lia.
    apply digits2_pos_ge in Q1. cbn [Zdigits2]. lia.
Qed.

(** Error of one division. *)
Lemma div_rounding_error x y :
  F32.is_finite x = true -> F32.is_finite y = true ->
  ~ (F32.toQ y == 0)%Q ->
  (Qabs (F32.toQ x / F32.toQ y) < 2 ^ 127)%Q ->
  F32.is_finite (F32.div x y) = true /\ F32.valid (F32.div x y) = true /\
  (Qabs (F32.toQ (F32.div x y) - F32.toQ x / F32.toQ y)
   <= F32.eps * Qabs (F32.toQ x / F32.toQ y) + F32.eta)%Q.
Proof.
  intros Fx Fy Ny HV. unfold F32.div, F32.prec, F32.emax.
  destruct x as [sx|sx| |sx mx ex], y as [sy|sy| |sy my ey];
    try discriminate; cbn [SFdiv F32.toQ] in *;
    try (exfalso; apply Ny; reflexivity).
  - repeat split. apply exact_result_error. unfold Qdiv. ring.
  - destruct (SFdiv_core_binary_quotient mx ex my ey)
      as (q & r & e' & E & Hq & Hr & He & HW & Hn).
    rewrite E.
    assert (H0 : 0 < Zpos my) by lia.
    set (V := ratio (q * Zpos my + r) (Zpos my) e') in *.
    assert (EV : (F32.F2Q sx (Zpos mx) ex / F32.F2Q sy (Zpos my) ey
                  == if xorb sx sy then - V else V)%Q).
    { assert (P : (2 ^ ex == 2 ^ (ex - ey - e') * 2 ^ e' * 2 ^ ey)%Q).
      { rewrite <- !p2_add. replace (ex - ey - e' + e' + ey) with ex by lia.
        reflexivity. }
      pose proof (p2_pos ey) as Py.
      assert (PM : (0 < inject_Z (Zpos my))%Q) by reflexivity.
      unfold V, ratio, F32.F2Q. rewrite HW.
      destruct sx, sy; cbn [xorb cond_Zopp];
        change (Z.neg mx) with (- Z.pos mx);
        change (Z.neg my) with (- Z.pos my);
        rewrite ?inject_Z_opp, inject_Z_mult, P;
        rewrite (p2_inj (ex - ey - e')) by lia;
        revert Py PM;
        generalize (2 ^ (ex - ey - e'))%Q (2 ^ ey)%Q (2 ^ e')%Q;
        generalize (inject_Z (Zpos my)) (inject_Z (Zpos mx));
        intros d n c a b Pa PM; field; split; lra. }
    assert (V0 : (0 <= V)%Q) by (apply ratio_nonneg; lia).
    assert (AV : (Qabs (F32.F2Q sx (Zpos mx) ex / F32.F2Q sy (Zpos my) ey)
                  == V)%Q).
    { rewrite EV. destruct (xorb sx sy).
      - rewrite Qabs_opp. apply Qabs_pos, V0.
      - apply Qabs_pos, V0. }
    rewrite AV in HV |- *. rewrite EV.
    apply (quotient_round_error (xorb sx sy) (Zpos my) q r e' H0 Hq Hr Hn HV).
Qed.

(** A decimal literal is within one rounding of the fraction it denotes. *)
Lemma lit_error n d :
  (inject_Z (Zpos n) / inject_Z (Zpos d) < 2 ^ 127)%Q ->
  F32.is_finite (F32.lit n d) = true /\ F32.valid (F32.lit n d) = true /\
  (Qabs (F32.toQ (F32.lit n d) - inject_Z (Zpos n) / inject_Z (Zpos d))
   <= F32.eps * (inject_Z (Zpos n) / inject_Z (Zpos d)) + F32.eta)%Q.
Proof.
  intros HV.
  assert (E : (F32.toQ (S754_finite false n 0) / F32.toQ (S754_finite false d 0)
               == inject_Z (Zpos n) / inject_Z (Zpos d))%Q).
  { cbn [F32.toQ]. unfold F32.F2Q. cbn [cond_Zopp].
    change (2 ^ 0)%Q with 1%Q. rewrite !Qmult_1_r. reflexivity. }
  assert (P : (0 <= inject_Z (Zpos n) / inject_Z (Zpos d))%Q).
  { apply Qle_shift_div_l; [reflexivity|]. rewrite Qmult_0_l. discriminate. }
  destruct (div_rounding_error (S754_finite false n 0) (S754_finite false d 0))
    as (F & V & Er); try reflexivity.
  - cbn [F32.toQ]. unfold F32.F2Q. cbn [cond_Zopp].
    change (2 ^ 0)%Q with 1%Q. rewrite Qmult_1_r. discriminate.
  - rewrite E, Qabs_pos by exact P. exact HV.
  - rewrite E in Er. rewrite (Qabs_pos _ P) in Er.
    repeat split; assumption.
Qed.

(* ================================================================== *)
(** ** Comparison with zero and exact conversions *)
(* ================================================================== *)

(** Sign of a finite number and the comparison with [0.0f]. *)
Lemma F2Q_sign (s : bool) m e :
  if s then (F32.F2Q s (Zpos m) e < 0)%Q else (0 < F32.F2Q s (Zpos m) e)%Q.
Proof.
  pose proof (p2_pos e) as P. unfold F32.F2Q.
  destruct s; cbn [cond_Zopp Z.opp].
  - setoid_replace (inject_Z (Z.neg m) * 2 ^ e)%Q
      with (- (inject_Z (Zpos m) * 2 ^ e))%Q
      by (change (inject_Z (Zneg m)) with (- inject_Z (Zpos m))%Q; ring).
    assert (0 < inject_Z (Zpos m) * 2 ^ e)%Q
      by (apply Qmult_lt_0_compat; [reflexivity|exact P]).
    lra.
  - apply Qmult_lt_0_compat; [reflexivity|exact P].
Qed.

Lemma ltb_zero_spec v :
  F32.is_finite v = true ->
  if F32.ltb v F32.zero then (F32.toQ v < 0)%Q else (0 <= F32.toQ v)%Q.
Proof.
  intros F. destruct v as [s|s| |s m e]; try discriminate F.
  - change (F32.ltb (S754_zero s) F32.zero) with false.
    cbv iota. apply Qle_refl.
  - pose proof (F2Q_sign s m e) as H. destruct s; cbn [F32.toQ].
    + exact H.
    + change (F32.ltb (S754_finite false m e) F32.zero) with false.
      cbv iota. apply Qlt_le_weak, H.
Qed.

(** The zero floor over the rationals. *)
Lemma Qclamp0_neg q : (q < 0)%Q -> Qclamp0 q = 0%Q.
Proof.
  intros H. unfold Qclamp0. destruct (Qlt_le_dec q 0); [reflexivity|lra].
Qed.

Lemma Qclamp0_nonneg q : (0 <= q)%Q -> Qclamp0 q = q.
Proof.
  intros H. unfold Qclamp0. destruct (Qlt_le_dec q 0); [lra|reflexivity].
Qed.

Lemma Qclamp0_ge_0 q : (0 <= Qclamp0 q)%Q.
Proof.
  unfold Qclamp0. destruct (Qlt_le_dec q 0) as [N|P];
    [apply Qle_refl|exact P].
Qed.

Lemma Qclamp0_close a b : (Qabs (Qclamp0 a - Qclamp0 b) <= Qabs (a - b))%Q.
Proof.
  unfold Qclamp0.
  destruct (Qlt_le_dec a 0), (Qlt_le_dec b 0);
    apply Qabs_intro; pose proof (Qabs_nonneg (a - b)) as N;
    pose proof (Qle_Qabs (a - b)) as U;
    pose proof (Qle_Qabs (- (a - b))) as L; rewrite Qabs_opp in L; lra.
Qed.

Lemma Qclamp0_le q b : (q <= b)%Q -> (0 <= b)%Q -> (Qclamp0 q <= b)%Q.
Proof. intros H H0. unfold Qclamp0. destruct (Qlt_le_dec q 0); assumption. Qed.

(** The floating-point zero floor computes the rational one. *)
Lemma clamp0_toQ v :
  F32.is_finite v = true -> F32.valid v = true ->
  F32.is_finite (clamp0 v) = true /\ F32.valid (clamp0 v) = true /\
  F32.toQ (clamp0 v) = Qclamp0 (F32.toQ v).
Proof.
  intros F V. pose proof (ltb_zero_spec v F) as H. unfold clamp0.
  destruct (F32.ltb v F32.zero).
  - rewrite Qclamp0_neg by exact H. repeat split.
  - rewrite Qclamp0_nonneg by exact H. repeat split; assumption.
Qed.

(** A mantissa already at its target exponent is not changed. *)
Lemma binary_round_aux_exact s M ex :
  ex = fexp 24 128 (Zpos (digits2_pos M) + ex) -> ex <= 103 ->
  let R := binary_round_aux 24 128 s (Zpos M) ex loc_Exact in
  F32.is_finite R = true /\ F32.valid R = true /\
  (F32.toQ R == F32.F2Q s (Zpos M) ex)%Q.
Proof.
  intros Hn H103 R.
  destruct (binary_round_aux_core s M ex) as (m & e & ER & Hm & He & Hb & Habs);
    [lia | lia |].
  rewrite <- Hn in He, Habs. rewrite Z.sub_diag in Habs.
  change (2 ^ 0) with 1 in Habs.
  unfold R. rewrite ER. repeat split.
  - destruct m; [reflexivity|reflexivity|lia].
  - destruct m; [reflexivity| |lia].
    destruct Hb as [Hb|Hb]; [discriminate|exact Hb].
  - rewrite toQ_of_mantissa by assumption.
    assert (Z0 : (Qabs (F32.F2Q s m e - F32.F2Q s (Zpos M) ex) == 0)%Q).
    { rewrite Qabs_F2Q_diff by lia.
      replace (Z.abs (m * 2 ^ (e - ex) - Zpos M)) with 0 by lia.
      ring. }
    pose proof (Qle_Qabs (F32.F2Q s m e - F32.F2Q s (Zpos M) ex)) as U.
    pose proof (Qle_Qabs (- (F32.F2Q s m e - F32.F2Q s (Zpos M) ex))) as L.
    rewrite Qabs_opp in L. rewrite Z0 in U, L. lra.
Qed.

(** Conversion of an integer of at most 24 bits to single precision is
    exact. *)
Lemma of_Z_exact z :
  Z.abs z < 2 ^ 24 ->
  F32.is_finite (F32.of_Z z) = true /\ F32.valid (F32.of_Z z) = true /\
  (F32.toQ (F32.of_Z z) == inject_Z z)%Q.
Proof.
  intros Hz. unfold F32.of_Z, F32.prec, F32.emax.
  assert (G : forall s m, Zpos m < 2 ^ 24 ->
    let R := binary_round 24 128 s m 0 in
    F32.is_finite R = true /\ F32.valid R = true /\
    (F32.toQ R == F32.F2Q s (Zpos m) 0)%Q).
  { intros s m Hm R. unfold R, binary_round.
    pose proof (digits2_pos_le m 24 ltac:(lia) Hm) as Hd.
    pose proof (Pos2Z.is_pos (digits2_pos m)) as Hp.
    set (fe := fexp 24 128 (Zpos (digits2_pos m) + 0)).
    assert (Hfe : -149 <= fe <= 0) by (unfold fe; rewrite fexp_eq; lia).
    destruct (shl_align_value m 0 fe ltac:(lia)) as (V & S & D).
    destruct (shl_align m 0 fe) as [mz ez]. cbn [fst snd] in *. subst ez.
    assert (EQ : (F32.F2Q s (Zpos mz) fe == F32.F2Q s (Zpos m) 0)%Q).
    { rewrite V. replace fe with (0 - (0 - fe)) at 2 by lia.
      apply F2Q_shift. lia. }
    rewrite <- EQ. apply binary_round_aux_exact; [|lia].
    rewrite D. replace (Zpos (digits2_pos m) + (0 - fe) + fe)
      with (Zpos (digits2_pos m) + 0) by lia. reflexivity. }
  destruct z as [|m|m]; cbn [binary_normalize].
  - repeat split.
  - destruct (G false m ltac:(lia)) as (F & V & E).
    repeat split; try assumption. rewrite E. unfold F32.F2Q. cbn [cond_Zopp].
    change (2 ^ 0)%Q with 1%Q. ring.
  - destruct (G true m ltac:(lia)) as (F & V & E).
    repeat split; try assumption. rewrite E. unfold F32.F2Q. cbn [cond_Zopp].
    change (2 ^ 0)%Q with 1%Q. cbn [Z.opp]. ring.
Qed.

Lemma inject_Z_abs_le c b :
  - b <= c <= b -> (Qabs (inject_Z c) <= inject_Z b)%Q.
Proof.
  intros H. apply Qabs_intro.
  - rewrite <- inject_Z_opp. apply inject_Z_le. lia.
  - apply inject_Z_le. lia.
Qed.

(* ================================================================== *)
(** ** Accuracy and range of the decoded field *)
(* ================================================================== *)

(** The field computed from a 16-bit count and a table literal of at
    most 10.24 uT per count: the conversion of the count is exact, and the
    literal, the product, the quotient and the sum are each rounded
    once. *)
Lemma field_mT_accuracy c t :
  -32768 <= c <= 32768 -> Zpos t <= 10240 ->
  F32.is_finite (field_mT c (milli t)) = true /\
  F32.valid (field_mT c (milli t)) = true /\
  (0 <= F32.toQ (field_mT c (milli t)))%Q /\
  (Qabs (F32.toQ (field_mT c (milli t))
         - field_exact c (inject_Z (Zpos t) / 1000)) <= 2 ^ (-13))%Q.
Proof.
  intros Hc Ht. unfold field_mT, milli, field_exact.
  set (Cq := inject_Z c). set (S := (inject_Z (Zpos t) / 1000)%Q).
  assert (E : (F32.eta <= 1 # 16777216)%Q) by (unfold Qle; cbn; lia).
  assert (E0 : (0 < F32.eta)%Q) by reflexivity.
  assert (B127 : (2 ^ 127 == 170141183460469231731687303715884105728)%Q)
    by reflexivity.
  assert (S0 : (0 <= S)%Q).
  { unfold S. apply Qle_shift_div_l; [reflexivity|]. rewrite Qmult_0_l.
    discriminate. }
  assert (S1 : (S <= 1024 # 100)%Q).
  { unfold S. apply Qle_shift_div_r; [reflexivity|].
    apply Qle_trans with (inject_Z 10240);
      [apply inject_Z_le; exact Ht | discriminate]. }
  assert (HC : (Qabs Cq <= 32768)%Q).
  { apply Qabs_intro; unfold Cq.
    - change (- (32768))%Q with (inject_Z (-32768)). apply inject_Z_le. lia.
    - change 32768%Q with (inject_Z 32768). apply inject_Z_le. lia. }
  (* the scale literal *)
  destruct (lit_error t 1000) as (Fs & Vs & Es).
  { change (inject_Z 1000) with 1000%Q. fold S. rewrite B127. lra. }
  change (inject_Z 1000) with 1000%Q in Es. fold S in Es.
  set (sf := F32.lit t 1000) in *. set (Sf := F32.toQ sf) in *.
  change F32.eps with (1 # 16777216)%Q in Es.
  assert (Es' : (Qabs (Sf - S) <= 7 # 10000000)%Q).
  { eapply Qle_trans; [exact Es|]. lra. }
  (* the count *)
  destruct (of_Z_exact c) as (Fa & Va & Ea);
    [change (2 ^ 24) with 16777216; lia|].
  set (a := F32.of_Z c) in *.
  (* X = count * scale *)
  assert (S2 : (Qabs S <= 1024 # 100)%Q) by (apply Qabs_intro; lra).
  pose proof (Qabs_mul_le Cq S _ _ HC S2) as HX.
  pose proof (Qabs_mul_le Cq (Sf - S) _ _ HC Es') as HXd.
  set (X := (Cq * S)%Q) in *.
  assert (EXf : (F32.toQ a * Sf == X + Cq * (Sf - S))%Q)
    by (rewrite Ea; unfold X; fold Cq; ring).
  assert (HXf : (Qabs (F32.toQ a * Sf) <= 335545)%Q).
  { rewrite EXf. eapply Qle_trans; [apply Qabs_triangle|]. lra. }
  destruct (mul_rounding_error a sf Fa Fs Va Vs) as (Fp & Vp & Ep).
  { fold Sf. eapply Qle_lt_trans; [exact HXf|]. rewrite B127. lra. }
  fold Sf in Ep. set (p := F32.mul a sf) in *. set (P := F32.toQ p) in *.
  change F32.eps with (1 # 16777216)%Q in Ep.
  assert (Ep' : (Qabs (P - X) <= 1 # 20)%Q).
  { setoid_replace (P - X)%Q
      with ((P - F32.toQ a * Sf) + Cq * (Sf - S))%Q by (rewrite EXf; ring).
    eapply Qle_trans; [apply Qabs_triangle|].
    revert Ep HXf HXd.
    generalize (Qabs (P - F32.toQ a * Sf)) (Qabs (F32.toQ a * Sf))
      (Qabs (Cq * (Sf - S))).
    intros u v w Ep HXf HXd. lra. }
  (* division by 1000 *)
  assert (Q1000 : (F32.toQ (F32.lit 1000 1) == 1000)%Q) by reflexivity.
  assert (HP : (Qabs (P / 1000) <= 336)%Q).
  { apply Qabs_bound in Ep', HX. apply Qabs_intro.
    - apply Qle_shift_div_l; [reflexivity|]. lra.
    - apply Qle_shift_div_r; [reflexivity|]. lra. }
  destruct (div_rounding_error p (F32.lit 1000 1) Fp) as (Fd & Vd & Ed).
  { reflexivity. }
  { rewrite Q1000. discriminate. }
  { fold P. rewrite Q1000. eapply Qle_lt_trans; [exact HP|].
    rewrite B127. lra. }
  fold P in Ed. rewrite Q1000 in Ed.
  set (d := F32.div p (F32.lit 1000 1)) in *. set (D := F32.toQ d) in *.
  change F32.eps with (1 # 16777216)%Q in Ed.
  (* the offset *)
  assert (Q20 : (F32.toQ Z_OFFSET_MT == 20)%Q) by reflexivity.
  assert (HD : (Qabs (D - P / 1000) <= 21 # 1000000)%Q).
  { eapply Qle_trans; [exact Ed|]. lra. }
  assert (HD2 : (Qabs (D + 20) <= 357)%Q).
  { apply Qabs_bound in HD, HP. apply Qabs_intro; lra. }
  destruct (add_rounding_error d Z_OFFSET_MT Fd) as (Fz & Vz & Ez);
    try reflexivity; try exact Vd.
  { fold D. rewrite Q20. eapply Qle_lt_trans; [exact HD2|].
    rewrite B127. lra. }
  fold D in Ez. rewrite Q20 in Ez.
  set (z := F32.add d Z_OFFSET_MT) in *.
  change F32.eps with (1 # 16777216)%Q in Ez.
  destruct (clamp0_toQ z Fz Vz) as (Fr & Vr & Er).
  split; [exact Fr|]. split; [exact Vr|].
  rewrite Er. split; [apply Qclamp0_ge_0|].
  eapply Qle_trans; [apply Qclamp0_close|].
  assert (U13 : (2 ^ (-13) == 1 # 8192)%Q) by reflexivity.
  rewrite U13.
  assert (HPX : (Qabs (P / 1000 - X / 1000) <= 1 # 20000)%Q).
  { apply Qabs_bound in Ep'. apply Qabs_intro.
    - setoid_replace (P / 1000 - X / 1000)%Q with ((P - X) / 1000)%Q
        by (field).
      apply Qle_shift_div_l; [reflexivity|]. lra.
    - setoid_replace (P / 1000 - X / 1000)%Q with ((P - X) / 1000)%Q
        by (field).
      apply Qle_shift_div_r; [reflexivity|]. lra. }
  assert (Ez' : (Qabs (F32.toQ z - (D + 20)) <= 22 # 1000000)%Q).
  { eapply Qle_trans; [exact Ez|]. lra. }
  apply Qabs_bound in Ez', HD, HPX.
  revert Ez' HD HPX. generalize (P / 1000)%Q (X / 1000)%Q. intros u v.
  intros. apply Qabs_intro; lra.
Qed.

(** Every Z-axis entry is a literal in thousandths, at most 9.680. *)
Lemma z_scale_0xC_milli g r :
  exists t, z_scale_0xC g r = milli t /\ Zpos t <= 9680.
Proof. destruct g, r; eexists; (split; [reflexivity|lia]). Qed.

(** Bounds of a decoded field for any gain and resolution. *)
Lemma decode_z_bounds g r d5 d6 :
  F32.is_finite (decode_z g r d5 d6) = true /\
  F32.valid (decode_z g r d5 d6) = true /\
  (0 <= F32.toQ (decode_z g r d5 d6) <= 338)%Q.
Proof.
  rewrite decode_z_field_mT.
  destruct (z_scale_0xC_milli g r) as (t & -> & Ht).
  pose proof (z_count_range r d5 d6) as Hc.
  destruct (field_mT_accuracy (z_count r d5 d6) t) as (F & V & N & A);
    [lia | lia |].
  split; [exact F|]. split; [exact V|]. split; [exact N|].
  assert (HC : (Qabs (inject_Z (z_count r d5 d6)) <= 32768)%Q)
    by (apply (inject_Z_abs_le _ 32768); lia).
  assert (HS : (Qabs (inject_Z (Zpos t) / 1000) <= 968 # 100)%Q).
  { apply Qabs_intro.
    - apply Qle_shift_div_l; [reflexivity|].
      apply Qle_trans with 0%Q; discriminate.
    - apply Qle_shift_div_r; [reflexivity|].
      apply Qle_trans with (inject_Z 9680);
        [apply inject_Z_le; exact Ht | discriminate]. }
  pose proof (Qabs_mul_le _ _ _ _ HC HS) as HX.
  assert (U13 : (2 ^ (-13) == 1 # 8192)%Q) by reflexivity.
  rewrite U13 in A. unfold field_exact in A.
  set (X := (inject_Z (z_count r d5 d6) * (inject_Z (Zpos t) / 1000))%Q) in *.
  assert (HE : (Qclamp0 (X / 1000 + 20) <= 3373 # 10)%Q).
  { apply Qclamp0_le; [|discriminate]. apply Qabs_bound in HX.
    assert (X / 1000 <= 3172 # 10)%Q
      by (apply Qle_shift_div_r; [reflexivity|]; lra).
    lra. }
  apply Qabs_bound in A. lra.
Qed.

(** Bounds of a decoded field at the gain and resolution the program is
    built with. *)
Lemma decode_z_configured d5 d6 :
  let v := decode_z MLX90393_GAIN_1X MLX90393_RES_16 d5 d6 in
  F32.is_finite v = true /\ F32.valid v = true /\
  (1206 # 100 <= F32.toQ v <= 2794 # 100)%Q.
Proof.
  intros v. unfold v. rewrite decode_z_field_mT.
  change (z_scale_0xC MLX90393_GAIN_1X MLX90393_RES_16) with (milli 242).
  pose proof (z_count_range MLX90393_RES_16 d5 d6) as Hc.
  destruct (field_mT_accuracy (z_count MLX90393_RES_16 d5 d6) 242)
    as (F & V & N & A); [lia | lia |].
  split; [exact F|]. split; [exact V|].
  assert (HC : (Qabs (inject_Z (z_count MLX90393_RES_16 d5 d6)) <= 32768)%Q)
    by (apply (inject_Z_abs_le _ 32768); lia).
  assert (U13 : (2 ^ (-13) == 1 # 8192)%Q) by reflexivity.
  rewrite U13 in A. unfold field_exact in A.
  set (Cq := inject_Z (z_count MLX90393_RES_16 d5 d6)) in *.
  assert (EX : (Cq * (inject_Z 242 / 1000) / 1000 + 20
                == Cq * (242 # 1000000) + 20)%Q) by field.
  apply Qabs_bound in HC.
  rewrite Qclamp0_nonneg in A by (rewrite EX; lra).
  rewrite EX in A. apply Qabs_bound in A. lra.
Qed.

(** X5.  For every gain, resolution and byte pair the decoded field is a
    finite number within [2^-13] mT of the exact value
    [max 0 (count * (t / 1000) / 1000 + 20)], where [t / 1000] is the
    decimal literal of the Z-axis entry of the table (in micro-tesla per
    count) and [count] the integer the bytes decode to. *)
Theorem decode_z_accuracy g r d5 d6 :
  exists t,
    z_scale_0xC g r = milli t /\
    F32.is_finite (decode_z g r d5 d6) = true /\
    (Qabs (F32.toQ (decode_z g r d5 d6)
           - field_exact (z_count r d5 d6) (inject_Z (Zpos t) / 1000))
     <= 2 ^ (-13))%Q.
Proof.
  destruct (z_scale_0xC_milli g r) as (t & E & Ht).
  exists t. split; [exact E|].
  rewrite decode_z_field_mT, E.
  pose proof (z_count_range r d5 d6) as Hc.
  destruct (field_mT_accuracy (z_count r d5 d6) t) as (F & V & N & A);
    [lia | lia |].
  split; assumption.
Qed.

(** X6.  The decoded field is finite and lies between 0 and 338 mT for
    every gain and resolution.  At the gain and resolution the program is
    built with (GAIN_1X, RES_16) it lies between 12.06 and 27.94 mT, so
    the zero floor never applies there. *)
Theorem decode_z_range g r d5 d6 :
  F32.is_finite (decode_z g r d5 d6) = true /\
  (0 <= F32.toQ (decode_z g r d5 d6) <= 338)%Q /\
  (1206 # 100 <= F32.toQ (decode_z MLX90393_GAIN_1X MLX90393_RES_16 d5 d6)
   <= 2794 # 100)%Q.
Proof.
  destruct (decode_z_bounds g r d5 d6) as (F & _ & B).
  destruct (decode_z_configured d5 d6) as (_ & _ & C).
  split; [exact F|]. split; [exact B|exact C].
Qed.

(* ================================================================== *)
(** ** The count as a function of the raw word *)
(* ================================================================== *)

(** Bytes and byte pairs are determined by their values. *)
Lemma u8_inj a b : u8 a = u8 b -> a = b.
Proof.
  unfold u8. intros H. apply N2Z.inj in H.
  pose proof (Byte.of_to_N a) as A. rewrite H, Byte.of_to_N in A.
  congruence.
Qed.

Lemma u8_onto n : 0 <= n < 256 -> exists b, u8 b = n.
Proof.
  intros H. destruct (Byte.of_N (Z.to_N n)) as [b|] eqn:E.
  - exists b. apply Byte.to_of_N in E. unfold u8. rewrite E. lia.
  - apply Byte.of_N_None_iff in E. lia.
Qed.

Lemma be_uint16_inj hi lo hi' lo' :
  be_uint16 hi lo = be_uint16 hi' lo' -> hi = hi' /\ lo = lo'.
Proof.
  unfold be_uint16. intros H.
  pose proof (u8_range hi). pose proof (u8_range lo).
  pose proof (u8_range hi'). pose proof (u8_range lo').
  split; apply u8_inj; lia.
Qed.

Lemma be_uint16_onto w :
  0 <= w < 65536 -> exists hi lo, be_uint16 hi lo = w.
Proof.
  intros H.
  destruct (u8_onto (w / 256)) as [hi Hhi];
    [Z.div_mod_to_equations; lia|].
  destruct (u8_onto (w mod 256)) as [lo Hlo];
    [Z.div_mod_to_equations; lia|].
  exists hi, lo. unfold be_uint16. rewrite Hhi, Hlo.
  Z.div_mod_to_equations. lia.
Qed.

(** The count as one reduction of the unsigned word. *)
Lemma z_count_of_word r hi lo :
  z_count r hi lo = int16_of_int (count_unbounded r (be_uint16 hi lo)).
Proof.
  rewrite z_count_int16. unfold count_int16, be_int16, int16_of_int.
  pose proof (be_uint16_range hi lo) as U.
  set (u := be_uint16 hi lo) in *.
  destruct r; cbn [count_unbounded];
    destruct (Z.ltb_spec u 32768);
    match goal with
    | |- context [?a <? ?b] => destruct (Z.ltb_spec a b)
    end; Z.div_mod_to_equations; lia.
Qed.

(** X4.  The count is the 16-bit two's-complement reduction of the
    unsigned big-endian word minus the resolution offset (0 at 16 and 17
    bits, 0x8000 at 18, 0x4000 at 19): the two conversions of the code
    compose into one.  At each resolution distinct byte pairs give distinct
    counts, and every value of [-32768, 32767] is the count of some byte
    pair. *)
Theorem z_count_one_to_one r :
  (forall hi lo,
     z_count r hi lo = int16_of_int (count_unbounded r (be_uint16 hi lo))) /\
  (forall hi lo hi' lo',
     z_count r hi lo = z_count r hi' lo' -> hi = hi' /\ lo = lo') /\
  (forall c, -32768 <= c < 32768 -> exists hi lo, z_count r hi lo = c).
Proof.
  split; [apply z_count_of_word|]. split.
  - intros hi lo hi' lo' H. rewrite !z_count_of_word in H.
    apply be_uint16_inj.
    pose proof (be_uint16_range hi lo). pose proof (be_uint16_range hi' lo').
    revert H. unfold int16_of_int.
    destruct r; cbn [count_unbounded]; Z.div_mod_to_equations; lia.
  - intros c Hc.
    destruct (be_uint16_onto ((c - count_unbounded r 0) mod 65536))
      as (hi & lo & E); [Z.div_mod_to_equations; lia|].
    exists hi, lo. rewrite z_count_of_word, E. unfold int16_of_int.
    destruct r; cbn [count_unbounded]; Z.div_mod_to_equations; lia.
Qed.

(* ================================================================== *)
(** ** The filter with the program's coefficient *)
(* ================================================================== *)

(** [smooth] with the program's coefficient: finite, canonical and within
    rounding of [0.6 * data + 0.4 * smoothed]. *)
Lemma smooth_filter_val_error z s b :
  F32.is_finite z = true -> F32.valid z = true ->
  F32.is_finite s = true -> F32.valid s = true ->
  (Qabs (F32.toQ z) <= b)%Q -> (Qabs (F32.toQ s) <= b)%Q ->
  (b <= 2 ^ 100)%Q ->
  F32.is_finite (smooth z FILTER_VAL s) = true /\
  F32.valid (smooth z FILTER_VAL s) = true /\
  (Qabs (F32.toQ (smooth z FILTER_VAL s)
         - ((6 # 10) * F32.toQ z + (4 # 10) * F32.toQ s))
   <= 2 ^ (-22) * b + 2 ^ (-148))%Q.
Proof.
  intros Fz Vz Fs Vs HZ HS Hb. unfold smooth.
  assert (Ea : F32.sub F32.one FILTER_VAL = S754_finite false 10066330 (-24))
    by (vm_compute; reflexivity).
  rewrite Ea. set (a := S754_finite false 10066330 (-24)).
  assert (QA : (F32.toQ a == 10066330 # 16777216)%Q) by reflexivity.
  assert (QC : (F32.toQ FILTER_VAL == 13421773 # 33554432)%Q) by reflexivity.
  assert (E : (F32.eta <= 1 # 16777216)%Q) by (unfold Qle; cbn; lia).
  assert (E0 : (0 < F32.eta)%Q) by reflexivity.
  assert (E4 : (2 ^ (-148) == 4 * F32.eta)%Q) by reflexivity.
  assert (U4 : (2 ^ (-22) == 4 # 16777216)%Q) by reflexivity.
  assert (B100 : (2 ^ 100 == 1267650600228229401496703205376)%Q)
    by reflexivity.
  assert (B127 : (2 ^ 127 == 170141183460469231731687303715884105728)%Q)
    by reflexivity.
  set (Z := F32.toQ z) in *. set (S := F32.toQ s) in *.
  assert (b0 : (0 <= b)%Q)
    by (eapply Qle_trans; [apply (Qabs_nonneg Z) | exact HZ]).
  apply Qabs_bound in HZ, HS.
  assert (HZA : (Qabs (Z * F32.toQ a) <= (61 # 100) * b)%Q)
    by (rewrite QA; apply Qabs_intro; lra).
  assert (HSC : (Qabs (S * F32.toQ FILTER_VAL) <= (41 # 100) * b)%Q)
    by (rewrite QC; apply Qabs_intro; lra).
  destruct (mul_rounding_error z a Fz eq_refl Vz eq_refl) as (Fp & Vp & Ep).
  { fold Z. eapply Qle_lt_trans; [exact HZA|]. rewrite B127. lra. }
  destruct (mul_rounding_error s FILTER_VAL Fs eq_refl Vs eq_refl)
    as (Fq & Vq & Eq_).
  { fold S. eapply Qle_lt_trans; [exact HSC|]. rewrite B127. lra. }
  fold Z in Ep. fold S in Eq_.
  set (p := F32.mul z a) in *. set (q := F32.mul s FILTER_VAL) in *.
  set (P := F32.toQ p) in *. set (Qv := F32.toQ q) in *.
  change F32.eps with (1 # 16777216)%Q in Ep, Eq_.
  assert (Ep' : (Qabs (P - Z * F32.toQ a) <= (1 # 16777216) * b + F32.eta)%Q).
  { eapply Qle_trans; [exact Ep|]. lra. }
  assert (Eq' : (Qabs (Qv - S * F32.toQ FILTER_VAL)
                 <= (1 # 16777216) * b + F32.eta)%Q).
  { eapply Qle_trans; [exact Eq_|]. lra. }
  rewrite QA in Ep'. rewrite QC in Eq'.
  apply Qabs_bound in Ep', Eq'.
  assert (HPQ : (Qabs (P + Qv) <= (11 # 10) * b + 2 * F32.eta)%Q)
    by (apply Qabs_intro; lra).
  destruct (add_rounding_error p q Fp Fq Vp Vq) as (Fr & Vr & Er).
  { fold P Qv. eapply Qle_lt_trans; [exact HPQ|]. rewrite B127. lra. }
  fold P Qv in Er. change F32.eps with (1 # 16777216)%Q in Er.
  split; [exact Fr|]. split; [exact Vr|].
  assert (Er' : (Qabs (F32.toQ (F32.add p q) - (P + Qv))
                 <= (12 # 167772160) * b + 2 * F32.eta)%Q).
  { eapply Qle_trans; [exact Er|]. lra. }
  apply Qabs_bound in Er'. rewrite U4, E4. apply Qabs_intro; lra.
Qed.

(** One filter step at the program's configuration keeps the smoothed
    value between 12 and 28. *)
Lemma smooth_in_band z s :
  F32.is_finite z = true -> F32.valid z = true ->
  F32.is_finite s = true -> F32.valid s = true ->
  (1206 # 100 <= F32.toQ z <= 2794 # 100)%Q ->
  (12 <= F32.toQ s <= 28)%Q ->
  F32.is_finite (smooth z FILTER_VAL s) = true /\
  F32.valid (smooth z FILTER_VAL s) = true /\
  (12 <= F32.toQ (smooth z FILTER_VAL s) <= 28)%Q.
Proof.
  intros Fz Vz Fs Vs HZ HS.
  destruct (smooth_filter_val_error z s 28 Fz Vz Fs Vs) as (F & V & Er).
  - apply Qabs_intro; lra.
  - apply Qabs_intro; lra.
  - discriminate.
  - split; [exact F|]. split; [exact V|].
    assert (E4 : (2 ^ (-148) <= 1 # 16777216)%Q) by discriminate.
    assert (U4 : (2 ^ (-22) == 4 # 16777216)%Q) by reflexivity.
    rewrite U4 in Er. apply Qabs_bound in Er.
    revert E4 Er. generalize (2 ^ (-148))%Q. intros e E4 Er. lra.
Qed.

(** X7.  With the program's coefficient [FILTER_VAL = 0.4f], and for
    finite inputs of magnitude at most [b <= 2^100], [smooth] is finite and
    within [2^-22 * b + 2^-148] of [0.6 * data + 0.4 * smoothed]; hence one
    step leaves at most four tenths of the distance between the smoothed
    value and the input, up to that rounding error. *)
Theorem smooth_filter_val_step z s b :
  F32.is_finite z = true -> F32.valid z = true ->
  F32.is_finite s = true -> F32.valid s = true ->
  (Qabs (F32.toQ z) <= b)%Q -> (Qabs (F32.toQ s) <= b)%Q ->
  (b <= 2 ^ 100)%Q ->
  F32.is_finite (smooth z FILTER_VAL s) = true /\
  (Qabs (F32.toQ (smooth z FILTER_VAL s)
         - ((6 # 10) * F32.toQ z + (4 # 10) * F32.toQ s))
   <= 2 ^ (-22) * b + 2 ^ (-148))%Q /\
  (Qabs (F32.toQ (smooth z FILTER_VAL s) - F32.toQ z)
   <= (4 # 10) * Qabs (F32.toQ s - F32.toQ z)
      + 2 ^ (-22) * b + 2 ^ (-148))%Q.
Proof.
  intros Fz Vz Fs Vs HZ HS Hb.
  destruct (smooth_filter_val_error z s b Fz Vz Fs Vs HZ HS Hb)
    as (F & _ & E).
  split; [exact F|]. split; [exact E|].
  set (R := F32.toQ (smooth z FILTER_VAL s)) in *.
  set (Z := F32.toQ z) in *. set (S := F32.toQ s) in *.
  pose proof (Qle_Qabs (S - Z)) as A1.
  pose proof (Qle_Qabs (- (S - Z))) as A2. rewrite Qabs_opp in A2.
  apply Qabs_bound in E. revert E A1 A2.
  generalize (Qabs (S - Z)) (2 ^ (-22) * b)%Q (2 ^ (-148))%Q.
  intros a u e E A1 A2. apply Qabs_intro; lra.
Qed.

Lemma smooth_filter_val_step_witness :
  let z := F32.of_Z 20 in
  let s := F32.of_Z 10 in
  F32.is_finite (smooth z FILTER_VAL s) = true /\
  (Qabs (F32.toQ (smooth z FILTER_VAL s)
         - ((6 # 10) * F32.toQ z + (4 # 10) * F32.toQ s))
   <= 2 ^ (-22) * 20 + 2 ^ (-148))%Q /\
  (Qabs (F32.toQ (smooth z FILTER_VAL s) - F32.toQ z)
   <= (4 # 10) * Qabs (F32.toQ s - F32.toQ z)
      + 2 ^ (-22) * 20 + 2 ^ (-148))%Q.
Proof.
  apply (smooth_filter_val_step (F32.of_Z 20) (F32.of_Z 10) 20).
  - reflexivity.
  - reflexivity.
  - reflexivity.
  - reflexivity.
  - vm_compute. discriminate.
  - vm_compute. discriminate.
  - vm_compute. discriminate.
Defined.

(* ================================================================== *)
(** ** The calibration line *)
(* ================================================================== *)

(** The unclamped force: two rounded operations on the rounded
    constants. *)
Lemma force_line_error x :
  F32.is_finite x = true -> F32.valid x = true ->
  (Qabs (F32.toQ x) <= 2 ^ 100)%Q ->
  let f := F32.add (F32.mul CALIBRATION_SLOPE x) CALIBRATION_INTERCEPT in
  F32.is_finite f = true /\ F32.valid f = true /\
  (Qabs (F32.toQ f - calibration_line (F32.toQ x))
   <= 2 ^ (-22) * (52 * Qabs (F32.toQ x) + 693) + 2 ^ (-148))%Q.
Proof.
  intros Fx Vx HX f. subst f.
  assert (QS : (F32.toQ CALIBRATION_SLOPE == 13615836 # 262144)%Q)
    by reflexivity.
  assert (QI : (F32.toQ CALIBRATION_INTERCEPT == - (11353990 # 16384))%Q)
    by reflexivity.
  assert (E : (F32.eta <= 1 # 16777216)%Q) by (unfold Qle; cbn; lia).
  assert (E0 : (0 < F32.eta)%Q) by reflexivity.
  assert (E4 : (2 ^ (-148) == 4 * F32.eta)%Q) by reflexivity.
  assert (U4 : (2 ^ (-22) == 4 # 16777216)%Q) by reflexivity.
  assert (B100 : (2 ^ 100 == 1267650600228229401496703205376)%Q)
    by reflexivity.
  assert (B127 : (2 ^ 127 == 170141183460469231731687303715884105728)%Q)
    by reflexivity.
  set (X := F32.toQ x) in *.
  pose proof (Qabs_nonneg X) as A0.
  pose proof (Qle_Qabs X) as A1.
  pose proof (Qle_Qabs (- X)) as A2. rewrite Qabs_opp in A2.
  revert HX A0 A1 A2. generalize (Qabs X). intros ax HX A0 A1 A2.
  assert (HM : (Qabs (F32.toQ CALIBRATION_SLOPE * X) <= 52 * ax)%Q)
    by (rewrite QS; apply Qabs_intro; lra).
  destruct (mul_rounding_error CALIBRATION_SLOPE x eq_refl Fx eq_refl Vx)
    as (Fm & Vm & Em).
  { fold X. eapply Qle_lt_trans; [exact HM|]. rewrite B127. lra. }
  fold X in Em. set (m := F32.mul CALIBRATION_SLOPE x) in *.
  set (M := F32.toQ m) in *.
  change F32.eps with (1 # 16777216)%Q in Em.
  assert (Em' : (Qabs (M - F32.toQ CALIBRATION_SLOPE * X)
                 <= (52 # 16777216) * ax + F32.eta)%Q).
  { eapply Qle_trans; [exact Em|]. lra. }
  rewrite QS in Em'. apply Qabs_bound in Em'.
  assert (HA : (Qabs (M + F32.toQ CALIBRATION_INTERCEPT)
                <= 53 * ax + 694)%Q)
    by (rewrite QI; apply Qabs_intro; lra).
  destruct (add_rounding_error m CALIBRATION_INTERCEPT Fm eq_refl Vm eq_refl)
    as (Ff & Vf & Ef).
  { fold M. eapply Qle_lt_trans; [exact HA|]. rewrite B127. lra. }
  fold M in Ef. change F32.eps with (1 # 16777216)%Q in Ef.
  split; [exact Ff|]. split; [exact Vf|].
  assert (Ef' : (Qabs (F32.toQ (F32.add m CALIBRATION_INTERCEPT)
                       - (M + F32.toQ CALIBRATION_INTERCEPT))
                 <= (53 # 16777216) * ax + (694 # 16777216) + F32.eta)%Q).
  { eapply Qle_trans; [exact Ef|]. lra. }
  rewrite QI in Ef'. apply Qabs_bound in Ef'.
  unfold calibration_line. rewrite U4, E4. apply Qabs_intro; lra.
Qed.

(** X8.  For a finite input of magnitude at most [2^100],
    [calculate_force] is a finite non-negative number within
    [2^-22 * (52 * |x| + 693) + 2^-148] of the exact value
    [max 0 (51.94029384743018 * x - 692.9925307532482)]. *)
Theorem calculate_force_accuracy x :
  F32.is_finite x = true -> F32.valid x = true ->
  (Qabs (F32.toQ x) <= 2 ^ 100)%Q ->
  F32.is_finite (calculate_force x) = true /\
  (0 <= F32.toQ (calculate_force x))%Q /\
  (Qabs (F32.toQ (calculate_force x) - force_exact (F32.toQ x))
   <= 2 ^ (-22) * (52 * Qabs (F32.toQ x) + 693) + 2 ^ (-148))%Q.
Proof.
  intros Fx Vx HX.
  destruct (force_line_error x Fx Vx HX) as (Ff & Vf & Ef).
  change (calculate_force x)
    with (clamp0 (F32.add (F32.mul CALIBRATION_SLOPE x)
                          CALIBRATION_INTERCEPT)).
  destruct (clamp0_toQ _ Ff Vf) as (Fr & _ & Er).
  split; [exact Fr|]. rewrite Er. split; [apply Qclamp0_ge_0|].
  unfold force_exact. eapply Qle_trans; [apply Qclamp0_close|exact Ef].
Qed.

Lemma calculate_force_accuracy_witness :
  F32.is_finite (calculate_force (F32.of_Z 20)) = true /\
  (0 <= F32.toQ (calculate_force (F32.of_Z 20)))%Q /\
  (Qabs (F32.toQ (calculate_force (F32.of_Z 20))
         - force_exact (F32.toQ (F32.of_Z 20)))
   <= 2 ^ (-22) * (52 * Qabs (F32.toQ (F32.of_Z 20)) + 693) + 2 ^ (-148))%Q.
Proof.
  apply (calculate_force_accuracy (F32.of_Z 20)).
  - reflexivity.
  - reflexivity.
  - vm_compute. discriminate.
Defined.

(** X9.  Every finite field value up to 13.34 mT (and not below [-2^100])
    gives exactly the force [0.0f]. *)
Theorem calculate_force_dead_zone x :
  F32.is_finite x = true -> F32.valid x = true ->
  (- 2 ^ 100 <= F32.toQ x <= 1334 # 100)%Q ->
  calculate_force x = F32.zero.
Proof.
  intros Fx Vx [HL HU].
  assert (B100 : (2 ^ 100 == 1267650600228229401496703205376)%Q)
    by reflexivity.
  assert (HX : (Qabs (F32.toQ x) <= 2 ^ 100)%Q)
    by (apply Qabs_intro; lra).
  destruct (force_line_error x Fx Vx HX) as (Ff & Vf & Ef).
  cbv zeta in Ef. unfold calculate_force.
  set (f := F32.add (F32.mul CALIBRATION_SLOPE x) CALIBRATION_INTERCEPT) in *.
  pose proof (ltb_zero_spec f Ff) as L.
  assert (E4 : (2 ^ (-148) <= 1 # 16777216)%Q) by discriminate.
  assert (U4 : (2 ^ (-22) == 4 # 16777216)%Q) by reflexivity.
  rewrite U4 in Ef. unfold calibration_line in Ef. apply Qabs_bound in Ef.
  revert E4 Ef. generalize (2 ^ (-148))%Q. intros e E4 Ef.
  destruct (F32.ltb f F32.zero); [reflexivity|]. exfalso.
  destruct (Qlt_le_dec (F32.toQ x) 0) as [N|P].
  - rewrite (Qabs_neg (F32.toQ x)) in Ef by lra. lra.
  - rewrite (Qabs_pos (F32.toQ x)) in Ef by lra. lra.
Qed.

Lemma calculate_force_dead_zone_witness :
  calculate_force (F32.of_Z 13) = F32.zero.
Proof.
  apply (calculate_force_dead_zone (F32.of_Z 13)).
  - reflexivity.
  - reflexivity.
  - split; vm_compute; discriminate.
Defined.

(** X10.  From 13.35 mT on (and up to [2^100]) the floor does not apply:
    the force is the rounded line [slope * x + intercept] itself, finite
    and positive. *)
Theorem calculate_force_active_zone x :
  F32.is_finite x = true -> F32.valid x = true ->
  (1335 # 100 <= F32.toQ x <= 2 ^ 100)%Q ->
  calculate_force x
  = F32.add (F32.mul CALIBRATION_SLOPE x) CALIBRATION_INTERCEPT /\
  F32.is_finite (calculate_force x) = true /\
  (0 < F32.toQ (calculate_force x))%Q.
Proof.
  intros Fx Vx [HL HU].
  assert (HX : (Qabs (F32.toQ x) <= 2 ^ 100)%Q)
    by (apply Qabs_intro; lra).
  destruct (force_line_error x Fx Vx HX) as (Ff & Vf & Ef).
  cbv zeta in Ef. unfold calculate_force.
  set (f := F32.add (F32.mul CALIBRATION_SLOPE x) CALIBRATION_INTERCEPT) in *.
  pose proof (ltb_zero_spec f Ff) as L.
  assert (E4 : (2 ^ (-148) <= 1 # 16777216)%Q) by discriminate.
  assert (U4 : (2 ^ (-22) == 4 # 16777216)%Q) by reflexivity.
  rewrite U4 in Ef. unfold calibration_line in Ef. apply Qabs_bound in Ef.
  rewrite (Qabs_pos (F32.toQ x)) in Ef by lra.
  revert E4 Ef. generalize (2 ^ (-148))%Q. intros e E4 Ef.
  destruct (F32.ltb f F32.zero); [lra|].
  split; [reflexivity|]. split; [exact Ff|lra].
Qed.

Lemma calculate_force_active_zone_witness :
  calculate_force (F32.of_Z 14)
  = F32.add (F32.mul CALIBRATION_SLOPE (F32.of_Z 14)) CALIBRATION_INTERCEPT /\
  F32.is_finite (calculate_force (F32.of_Z 14)) = true /\
  (0 < F32.toQ (calculate_force (F32.of_Z 14)))%Q.
Proof.
  apply (calculate_force_active_zone (F32.of_Z 14)).
  - reflexivity.
  - reflexivity.
  - split; vm_compute; discriminate.
Defined.

(* ================================================================== *)
(** ** Transfers and delays *)
(* ================================================================== *)

(** A successful exchange is a complete one. *)
Lemma mlx_transceive_some tx rx_len st rx :
  fst (mlx_transceive tx rx_len st) = Some rx ->
  snd (mlx_transceive tx rx_len st) = after_exchange tx rx_len st /\
  i2c_bus st (S (length (i2c_log st))) = I2C_ack rx /\
  exists d, i2c_bus st (length (i2c_log st)) = I2C_ack d.
Proof.
  rewrite mlx_transceive_result. unfold next_exchange.
  destruct (i2c_bus st (length (i2c_log st))) as [d|]; cbn [fst snd];
    [|discriminate].
  destruct (i2c_bus st (S (length (i2c_log st)))) as [rx'|]; [|discriminate].
  intros [= ->]. repeat split. exists d. reflexivity.
Qed.

(** Cost of the exchange and of the commands built on it: one transfer
    and no delay when the write is refused, two transfers and 10 ms
    otherwise. *)
Lemma mlx_transceive_cost tx rx_len st :
  let r := mlx_transceive tx rx_len st in
  (fst r = None /\ transfers st (snd r) = 1 /\ elapsed st (snd r) = 0) \/
  (transfers st (snd r) = 2 /\ elapsed st (snd r) = 10).
Proof.
  cbv zeta. rewrite mlx_transceive_result. unfold transfers, elapsed.
  destruct (i2c_bus st (length (i2c_log st))); [right|left];
    cbn [fst snd after_exchange log_transfer advance_clock i2c_log clock_ms
         length]; repeat split; lia.
Qed.

Lemma mlx_start_measurement_cost st :
  let r := mlx_start_measurement st in
  (fst r = false /\ transfers st (snd r) = 1 /\ elapsed st (snd r) = 0) \/
  (transfers st (snd r) = 2 /\ elapsed st (snd r) = 10).
Proof.
  cbv zeta. rewrite mlx_start_measurement_result. cbv zeta. cbn [fst snd].
  destruct (mlx_transceive_cost
              [Z.lor MLX90393_REG_SM MLX90393_AXIS_ALL] 0 st)
    as [(E & K & T)|(K & T)]; [left|right]; repeat split; try assumption.
  rewrite E. reflexivity.
Qed.

Lemma mlx_read_measurement_cost st :
  let r := mlx_read_measurement st in
  (fst r = None /\ transfers st (snd r) = 1 /\ elapsed st (snd r) = 0) \/
  (transfers st (snd r) = 2 /\ elapsed st (snd r) = 10).
Proof.
  cbv zeta. rewrite mlx_read_measurement_result. cbv zeta. cbn [fst snd].
  destruct (mlx_transceive_cost
              [Z.lor MLX90393_REG_RM MLX90393_AXIS_ALL] 6 st)
    as [(E & K & T)|(K & T)]; [left|right]; repeat split; try assumption.
  rewrite E. reflexivity.
Qed.

Lemma mlx_read_data_result st :
  mlx_read_data st
  = if fst (mlx_start_measurement st)
    then mlx_read_measurement
           (advance_clock 10 (snd (mlx_start_measurement st)))
    else (None, snd (mlx_start_measurement st)).
Proof.
  unfold mlx_read_data, bind, sleep_ms, modify.
  destruct (mlx_start_measurement st) as [[|] st1]; reflexivity.
Qed.

(** Cost of an attempt to read the sensor: a successful one takes four
    transfers and 30 ms. *)
Lemma mlx_read_data_cost st :
  let r := mlx_read_data st in
  let k := transfers st (snd r) in
  1 <= k <= 4 /\ elapsed st (snd r) = 10 * (k - 1) /\
  (fst r <> None -> k = 4).
Proof.
  cbv zeta. rewrite mlx_read_data_result.
  destruct (mlx_start_measurement_cost st) as [(E & K & T)|(K & T)].
  - rewrite E. cbn [fst snd]. rewrite K, T. repeat split; try lia.
    intros H. contradiction H. reflexivity.
  - destruct (fst (mlx_start_measurement st)).
    + set (st1 := snd (mlx_start_measurement st)) in *.
      destruct (mlx_read_measurement_cost (advance_clock 10 st1))
        as [(E' & K' & T')|(K' & T')];
        unfold transfers, elapsed in *;
        cbn [advance_clock i2c_log clock_ms] in *.
      * rewrite E'. repeat split; try lia. intros H. contradiction H.
        reflexivity.
      * repeat split; lia.
    + cbn [fst snd]. rewrite K, T. repeat split; try lia.
      intros H. contradiction H. reflexivity.
Qed.

(** The filter update issues no transfer and takes no time. *)
Lemma filter_update_cost z st :
  transfers st (snd (filter_update z st)) = 0 /\
  elapsed st (snd (filter_update z st)) = 0.
Proof.
  rewrite filter_update_result. unfold transfers, elapsed.
  destruct (first_mag_reading st); cbn; lia.
Qed.

(** Transfers and delay of one cycle, by the line it prints. *)
Lemma main_loop_body_cost_aux st :
  let r := main_loop_body st in
  let k := transfers st (snd r) in
  0 <= k <= 4 /\
  elapsed st (snd r) = 100 + 10 * Z.max 0 (k - 1) /\
  match fst r with
  | Line_z_axis _ => k = 4
  | Line_error => 1 <= k
  | Line_not_initialized => k = 0
  end.
Proof.
  cbv zeta. destruct (mlx_initialized st) eqn:Hi.
  - rewrite (main_loop_body_result st Hi).
    pose proof (mlx_read_data_cost st) as (K & T & S). cbv zeta in K, T, S.
    destruct (mlx_read_data st) as [[z|] st1]; cbn [fst snd] in *.
    + pose proof (filter_update_cost z st1) as (K' & T').
      assert (K4 : transfers st st1 = 4) by (apply S; discriminate).
      unfold transfers, elapsed in *.
      cbn [advance_clock i2c_log clock_ms]. repeat split; lia.
    + unfold transfers, elapsed in *.
      cbn [advance_clock i2c_log clock_ms]. repeat split; lia.
  - rewrite (main_loop_body_uninitialized st Hi). unfold transfers, elapsed.
    cbn [fst snd advance_clock i2c_log clock_ms]. repeat split; lia.
Qed.

(** X11.  Cost of one cycle of the main loop.  A cycle issues at most
    four transfers and waits [100 + 10 * max 0 (k - 1)] ms when it issues
    [k]: between 100 and 130 ms.  A cycle that prints a reading has issued
    exactly four transfers and waited 130 ms; one that prints the error
    line has issued at least one; one that prints "not initialized" has
    issued none and waited 100 ms. *)
Theorem main_loop_body_cost st :
  let r := main_loop_body st in
  let k := transfers st (snd r) in
  0 <= k <= 4 /\
  elapsed st (snd r) = 100 + 10 * Z.max 0 (k - 1) /\
  match fst r with
  | Line_z_axis _ => k = 4 /\ elapsed st (snd r) = 130
  | Line_error => 1 <= k
  | Line_not_initialized => k = 0 /\ elapsed st (snd r) = 100
  end.
Proof.
  pose proof (main_loop_body_cost_aux st) as (K & T & L).
  cbv zeta in *. split; [exact K|]. split; [exact T|].
  destruct (fst (main_loop_body st)); [split; lia | exact L | split; lia].
Qed.

(** Unfolding of the loop by one cycle, and of [main]. *)
Lemma main_loop_step n st :
  main_loop (S n) st
  = (fst (main_loop_body st) :: fst (main_loop n (snd (main_loop_body st))),
     snd (main_loop n (snd (main_loop_body st)))).
Proof.
  cbn [main_loop]. unfold bind.
  destruct (main_loop_body st) as [l st1]. cbn [fst snd].
  destruct (main_loop n st1); reflexivity.
Qed.

(** Cost of [n] cycles. *)
Lemma main_loop_cost n : forall st,
  let r := main_loop n st in
  length (fst r) = n /\
  0 <= transfers st (snd r) <= 4 * Z.of_nat n /\
  100 * Z.of_nat n <= elapsed st (snd r) <= 130 * Z.of_nat n.
Proof.
  induction n as [|n IH]; intros st; cbv zeta.
  - unfold transfers, elapsed. cbn. repeat split; lia.
  - rewrite main_loop_step. cbn [fst snd length].
    pose proof (main_loop_body_cost_aux st) as (K & T & _).
    cbv zeta in K, T.
    destruct (IH (snd (main_loop_body st))) as (L & K' & T').
    cbv zeta in *. unfold transfers, elapsed in *.
    repeat split; lia.
Qed.

Lemma mlx_exit_mode_cost st :
  let r := mlx_exit_mode st in
  (fst r = false /\ transfers st (snd r) = 1 /\ elapsed st (snd r) = 0) \/
  (transfers st (snd r) = 2 /\ elapsed st (snd r) = 10).
Proof.
  cbv zeta. rewrite mlx_exit_mode_result. cbn [fst snd].
  destruct (mlx_transceive_cost [MLX90393_REG_EX] 0 st)
    as [(E & K & T)|(K & T)]; [left|right]; repeat split; try assumption.
  rewrite E. reflexivity.
Qed.

Lemma mlx_reset_cost st :
  let r := mlx_reset st in
  (fst r = false /\ transfers st (snd r) = 1 /\ elapsed st (snd r) = 0) \/
  (fst r = false /\ transfers st (snd r) = 2 /\ elapsed st (snd r) = 10) \/
  (transfers st (snd r) = 2 /\ elapsed st (snd r) = 15).
Proof.
  cbv zeta. rewrite mlx_reset_result.
  pose proof (mlx_transceive_cost [MLX90393_REG_RT] 0 st) as C.
  cbv zeta in C.
  destruct (fst (mlx_transceive [MLX90393_REG_RT] 0 st)) as [rx|];
    cbn [fst snd].
  - destruct C as [(E & _)|(K & T)]; [discriminate|].
    right. right. unfold transfers, elapsed in *.
    cbn [advance_clock i2c_log clock_ms]. split; lia.
  - destruct C as [(_ & K & T)|(K & T)]; [left|right; left];
      repeat split; assumption.
Qed.

(** Cost of the initialization. *)
Lemma mlx_init_cost st :
  let r := mlx_init st in
  let k := transfers st (snd r) in
  1 <= k <= 4 /\ 0 <= elapsed st (snd r) <= 35 /\
  (fst r = true -> k = 4 /\ elapsed st (snd r) = 35).
Proof.
  cbv zeta. rewrite mlx_init_result.
  pose proof (mlx_exit_mode_cost st) as C1. cbv zeta in C1.
  destruct (mlx_exit_mode st) as [e st1]. cbn [fst snd] in C1.
  pose proof (mlx_reset_cost st1) as C2. cbv zeta in C2.
  destruct (mlx_reset st1) as [w st2]. cbn [fst snd] in C2.
  unfold transfers, elapsed in *.
  destruct e.
  - destruct C1 as [(E & _)|(K1 & T1)]; [discriminate|].
    destruct w; cbn [fst snd set_mlx_initialized advance_clock i2c_log
                     clock_ms].
    + destruct C2 as [(E & _)|[(E & _)|(K2 & T2)]]; try discriminate.
      repeat split; lia.
    + destruct C2 as [(_ & K2 & T2)|[(_ & K2 & T2)|(K2 & T2)]];
        (split; [lia|]; split; [lia|]; discriminate).
  - cbn [fst snd].
    destruct C1 as [(_ & K1 & T1)|(K1 & T1)];
      (split; [lia|]; split; [lia|]; discriminate).
Qed.

Lemma main_result n st :
  main n st
  = let st0 := advance_clock 2000 st in
    ((fst (mlx_init st0), fst (main_loop n (snd (mlx_init st0)))),
     snd (main_loop n (snd (mlx_init st0)))).
Proof.
  unfold main, bind, sleep_ms, modify. cbv zeta.
  destruct (mlx_init (advance_clock 2000 st)) as [ok st1]. cbn [fst snd].
  destruct (main_loop n st1); reflexivity.
Qed.

(** X13.  [main] with [n] loop cycles issues between 1 and [4 + 4 * n]
    transfers and spends between [2000 + 100 * n] and [2035 + 130 * n] ms
    in blocking delays. *)
Theorem main_elapsed n st :
  let r := main n st in
  1 <= transfers st (snd r) <= 4 + 4 * Z.of_nat n /\
  2000 + 100 * Z.of_nat n <= elapsed st (snd r) <= 2035 + 130 * Z.of_nat n.
Proof.
  cbv zeta. rewrite main_result. cbv zeta. cbn [fst snd].
  pose proof (mlx_init_cost (advance_clock 2000 st)) as (K & T & _).
  cbv zeta in K, T.
  destruct (main_loop_cost n (snd (mlx_init (advance_clock 2000 st))))
    as (_ & K' & T').
  unfold transfers, elapsed in *. cbn [advance_clock i2c_log clock_ms] in *.
  repeat split; lia.
Qed.

(* ================================================================== *)
(** ** Outcome of the commands in terms of the bus *)
(* ================================================================== *)

(** The reply of an exchange in terms of the two transfers. *)
Lemma next_exchange_some st rx :
  next_exchange st = Some rx <->
  (exists d, i2c_bus st (length (i2c_log st)) = I2C_ack d) /\
  i2c_bus st (S (length (i2c_log st))) = I2C_ack rx.
Proof.
  unfold next_exchange.
  destruct (i2c_bus st (length (i2c_log st))) as [d|].
  - destruct (i2c_bus st (S (length (i2c_log st)))) as [rx'|].
    + split.
      * intros [= ->]. split; [exists d|]; reflexivity.
      * intros [_ [= ->]]. reflexivity.
    + split; [discriminate|]. intros [_ H]. discriminate.
  - split; [discriminate|]. intros [[d H] _]. discriminate.
Qed.



(** When [mlx_read_data] delivers a value. *)
Lemma mlx_read_data_some st z :
  fst (mlx_read_data st) = Some z <->
  exists rx, reading_on_bus st rx /\
    z = decode_z (mlx_gain st) (mlx_res_z st) (rx 5%nat) (rx 6%nat).
Proof.
  rewrite mlx_read_data_result, mlx_start_measurement_result. cbv zeta.
  cbn [fst snd]. rewrite mlx_transceive_value.
  set (cs := Z.lor MLX90393_REG_SM MLX90393_AXIS_ALL).
  set (cr := Z.lor MLX90393_REG_RM MLX90393_AXIS_ALL).
  unfold reading_on_bus. cbv zeta.
  replace (length (i2c_log st) + 1)%nat with (S (length (i2c_log st)))
    by lia.
  destruct (next_exchange st) as [rx1|] eqn:N1.
  - apply next_exchange_some in N1. destruct N1 as [[d0 A0] A1].
    pose proof (mlx_transceive_result [cs] 0 st) as R. rewrite A0 in R.
    rewrite R. cbn [snd].
    set (st1 := advance_clock 10 (after_exchange [cs] 0 st)).
    assert (L1 : length (i2c_log st1) = (length (i2c_log st) + 2)%nat)
      by (cbn; lia).
    assert (B1 : i2c_bus st1 = i2c_bus st) by reflexivity.
    assert (G1 : mlx_gain st1 = mlx_gain st) by reflexivity.
    assert (R1 : mlx_res_z st1 = mlx_res_z st) by reflexivity.
    destruct ((status_code (rx1 0%nat) =? 0)
              || (status_code (rx1 0%nat) =? 8)) eqn:S1.
    + rewrite mlx_read_measurement_result. cbv zeta. cbn [fst].
      rewrite mlx_transceive_value. fold cr. rewrite G1, R1.
      assert (S1' : status_code (rx1 0%nat) = 0
                    \/ status_code (rx1 0%nat) = 8).
      { apply orb_true_iff in S1. destruct S1 as [H|H];
          apply Z.eqb_eq in H; auto. }
      destruct (next_exchange st1) as [rx|] eqn:N2.
      * apply next_exchange_some in N2. rewrite L1, B1 in N2.
        replace (S (length (i2c_log st) + 2))
          with (length (i2c_log st) + 3)%nat in N2 by lia.
        destruct N2 as [[d2 A2] A3].
        destruct (Z.eqb_spec (status_code (rx 0%nat)) 0) as [S3|S3].
        -- split.
           ++ intros [= <-]. exists rx. split; [|reflexivity].
              exists d0, rx1, d2. repeat split; assumption.
           ++ intros (rx' & (d0' & rx1' & d2' & _ & _ & _ & _ & A3' & _) & ->).
              rewrite A3 in A3'. injection A3' as <-. reflexivity.
        -- split; [discriminate|].
           intros (rx' & (d0' & rx1' & d2' & _ & _ & _ & _ & A3' & S3') & _).
           rewrite A3 in A3'. injection A3' as <-. contradiction.
      * split; [discriminate|].
        intros (rx' & (d0' & rx1' & d2' & _ & _ & _ & A2' & A3' & _) & _).
        assert (N2' : next_exchange st1 = Some rx').
        { apply next_exchange_some. rewrite L1, B1.
          replace (S (length (i2c_log st) + 2))
            with (length (i2c_log st) + 3)%nat by lia.
          split; [exists d2'|]; assumption. }
        rewrite N2 in N2'. discriminate.
    + cbn [fst]. split; [discriminate|].
      intros (rx' & (d0' & rx1' & d2' & _ & A1' & S1' & _) & _).
      rewrite A1 in A1'. injection A1' as <-.
      apply orb_false_iff in S1. destruct S1 as [H0 H8].
      apply Z.eqb_neq in H0, H8. destruct S1'; contradiction.
  - cbn [fst]. split; [discriminate|].
    intros (rx' & (d0' & rx1' & d2' & A0' & A1' & _) & _).
    assert (N1' : next_exchange st = Some rx1').
    { apply next_exchange_some. split; [exists d0'|]; assumption. }
    rewrite N1 in N1'. discriminate.
Qed.

(** Trace of a successful read: the two commands, each followed by its
    read, and 30 ms of delays. *)
Lemma mlx_read_data_trace st z :
  fst (mlx_read_data st) = Some z ->
  i2c_log (snd (mlx_read_data st))
  = [I2C_read 7; I2C_write [0x4E]; I2C_read 1; I2C_write [0x3E]]
      ++ i2c_log st /\
  clock_ms (snd (mlx_read_data st)) = clock_ms st + 30.
Proof.
  rewrite mlx_read_data_result, mlx_start_measurement_result. cbv zeta.
  cbn [fst snd].
  set (cs := Z.lor MLX90393_REG_SM MLX90393_AXIS_ALL).
  destruct (fst (mlx_transceive [cs] 0 st)) as [rx1|] eqn:T1;
    [|cbn [fst]; discriminate].
  apply mlx_transceive_some in T1. destruct T1 as (E1 & _). rewrite E1.
  destruct ((status_code (rx1 0%nat) =? 0) || (status_code (rx1 0%nat) =? 8));
    [|cbn [fst]; discriminate].
  rewrite mlx_read_measurement_result. cbv zeta. cbn [fst snd].
  set (st1 := advance_clock 10 (after_exchange [cs] 0 st)).
  set (cr := Z.lor MLX90393_REG_RM MLX90393_AXIS_ALL).
  destruct (fst (mlx_transceive [cr] 6 st1)) as [rx|] eqn:T2;
    [|discriminate].
  apply mlx_transceive_some in T2. destruct T2 as (E2 & _). rewrite E2.
  intros _. split; [reflexivity|]. cbn. lia.
Qed.

(** X3.  [mlx_read_data] delivers a value exactly when the bus
    acknowledges four transfers in a row and answers START_MEASUREMENT with
    status code 0x00 or 0x08 and READ_MEASUREMENT with 0x00; the value is
    the decode of bytes 5 and 6 of the second reply at the current gain and
    resolution, whatever bytes 1 to 4 (the X and Y axes) are.  A successful
    read issues write 0x3E, read 1, write 0x4E, read 7, in this order, and
    takes 30 ms.  After a failed start nothing more is sent.  No global of
    the program is assigned. *)
Theorem mlx_read_data_outcome st :
  (forall z, fst (mlx_read_data st) = Some z <->
     exists rx, reading_on_bus st rx /\
       z = decode_z (mlx_gain st) (mlx_res_z st) (rx 5%nat) (rx 6%nat)) /\
  (forall z, fst (mlx_read_data st) = Some z ->
     i2c_log (snd (mlx_read_data st))
     = [I2C_read 7; I2C_write [0x4E]; I2C_read 1; I2C_write [0x3E]]
         ++ i2c_log st /\
     clock_ms (snd (mlx_read_data st)) = clock_ms st + 30) /\
  (fst (mlx_start_measurement st) = false ->
   mlx_read_data st = (None, snd (mlx_start_measurement st))) /\
  same_globals st (snd (mlx_read_data st)).
Proof.
  split; [intros z; apply mlx_read_data_some|].
  split; [intros z; apply mlx_read_data_trace|].
  split; [|apply mlx_read_data_globals].
  intros H. rewrite mlx_read_data_result, H. reflexivity.
Qed.

(** When [mlx_init] succeeds. *)
Lemma mlx_init_true st :
  fst (mlx_init st) = true <-> init_on_bus st.
Proof.
  rewrite mlx_init_result, mlx_exit_mode_result. cbn [fst snd].
  rewrite mlx_transceive_value. unfold init_on_bus. cbv zeta.
  replace (length (i2c_log st) + 1)%nat with (S (length (i2c_log st)))
    by lia.
  destruct (next_exchange st) as [rx1|] eqn:N1.
  - apply next_exchange_some in N1. destruct N1 as [[d0 A0] A1].
    pose proof (mlx_transceive_result [MLX90393_REG_EX] 0 st) as R.
    rewrite A0 in R. rewrite R. cbn [snd].
    set (st1 := after_exchange [MLX90393_REG_EX] 0 st).
    assert (L1 : length (i2c_log st1) = (length (i2c_log st) + 2)%nat)
      by (cbn; lia).
    assert (B1 : i2c_bus st1 = i2c_bus st) by reflexivity.
    destruct (Z.eqb_spec (status_code (rx1 0%nat)) 0) as [S1|S1].
    + rewrite mlx_reset_result, mlx_transceive_value.
      destruct (next_exchange st1) as [rx3|] eqn:N2.
      * apply next_exchange_some in N2. rewrite L1, B1 in N2.
        replace (S (length (i2c_log st) + 2))
          with (length (i2c_log st) + 3)%nat in N2 by lia.
        destruct N2 as [[d2 A2] A3].
        destruct (Z.eqb_spec (status_code (rx3 0%nat)) 1) as [S3|S3];
          cbn [fst].
        -- split; [intros _|reflexivity].
           exists d0, rx1, d2, rx3. repeat split; assumption.
        -- split; [discriminate|].
           intros (d0' & rx1' & d2' & rx3' & _ & _ & _ & _ & A3' & S3').
           rewrite A3 in A3'. injection A3' as <-. contradiction.
      * cbn [fst]. split; [discriminate|].
        intros (d0' & rx1' & d2' & rx3' & _ & _ & _ & A2' & A3' & _).
        assert (N2' : next_exchange st1 = Some rx3').
        { apply next_exchange_some. rewrite L1, B1.
          replace (S (length (i2c_log st) + 2))
            with (length (i2c_log st) + 3)%nat by lia.
          split; [exists d2'|]; assumption. }
        rewrite N2 in N2'. discriminate.
    + cbn [fst]. split; [discriminate|].
      intros (d0' & rx1' & d2' & rx3' & _ & A1' & S1' & _).
      rewrite A1 in A1'. injection A1' as <-. contradiction.
  - cbn [fst]. split; [discriminate|].
    intros (d0' & rx1' & d2' & rx3' & A0' & A1' & _).
    assert (N1' : next_exchange st = Some rx1').
    { apply next_exchange_some. split; [exists d0'|]; assumption. }
    rewrite N1 in N1'. discriminate.
Qed.

Lemma mlx_init_trace st :
  fst (mlx_init st) = true ->
  i2c_log (snd (mlx_init st))
  = [I2C_read 1; I2C_write [0xF0]; I2C_read 1; I2C_write [0x80]]
      ++ i2c_log st /\
  clock_ms (snd (mlx_init st)) = clock_ms st + 35.
Proof.
  rewrite mlx_init_result, mlx_exit_mode_result. cbn [fst snd].
  destruct (fst (mlx_transceive [MLX90393_REG_EX] 0 st)) as [rx1|] eqn:T1;
    [|cbn [fst]; discriminate].
  apply mlx_transceive_some in T1. destruct T1 as (E1 & _). rewrite E1.
  destruct (status_code (rx1 0%nat) =? 0); [|cbn [fst]; discriminate].
  rewrite mlx_reset_result.
  set (st1 := after_exchange [MLX90393_REG_EX] 0 st).
  destruct (fst (mlx_transceive [MLX90393_REG_RT] 0 st1)) as [rx3|] eqn:T2;
    [|cbn [fst]; discriminate].
  apply mlx_transceive_some in T2. destruct T2 as (E2 & _). rewrite E2.
  destruct (status_code (rx3 0%nat) =? 1); [|cbn [fst]; discriminate].
  intros _. split; [reflexivity|]. cbn. lia.
Qed.

(** [mlx_init] assigns no global but the initialized flag, which it sets
    exactly when it succeeds. *)
Lemma mlx_init_globals st :
  let st' := snd (mlx_init st) in
  mlx_gain st' = mlx_gain st /\ mlx_res_z st' = mlx_res_z st /\
  smoothed_z st' = smoothed_z st /\
  first_mag_reading st' = first_mag_reading st /\
  i2c_bus st' = i2c_bus st /\
  mlx_initialized st' = mlx_initialized st || fst (mlx_init st).
Proof.
  cbv zeta. rewrite mlx_init_result.
  pose proof (mlx_exit_mode_globals st) as (G1 & R1 & S1 & F1 & I1 & B1).
  destruct (mlx_exit_mode st) as [e st1]. cbn [fst snd] in *.
  pose proof (mlx_reset_globals st1) as (G2 & R2 & S2 & F2 & I2 & B2).
  destruct (mlx_reset st1) as [w st2]. cbn [fst snd] in *.
  destruct e; [destruct w|]; cbn [fst snd set_mlx_initialized advance_clock
    mlx_gain mlx_res_z smoothed_z first_mag_reading i2c_bus mlx_initialized];
    rewrite ?orb_true_r, ?orb_false_r; repeat split; congruence.
Qed.

(** X2.  [mlx_init] succeeds exactly when the bus acknowledges four
    transfers in a row and answers EXIT_MODE with status code 0x00 and
    RESET with 0x01.  A successful initialization issues write 0x80,
    read 1, write 0xF0, read 1, in this order, and takes 35 ms.  When the
    EXIT_MODE exchange fails, RESET is never sent.  The initialized flag is
    set on success and otherwise left as it was, and the filter state is
    not touched. *)
Theorem mlx_init_outcome st :
  (fst (mlx_init st) = true <-> init_on_bus st) /\
  (fst (mlx_init st) = true ->
     i2c_log (snd (mlx_init st))
     = [I2C_read 1; I2C_write [0xF0]; I2C_read 1; I2C_write [0x80]]
         ++ i2c_log st /\
     clock_ms (snd (mlx_init st)) = clock_ms st + 35) /\
  (fst (mlx_exit_mode st) = false ->
   mlx_init st = (false, snd (mlx_exit_mode st))) /\
  mlx_initialized (snd (mlx_init st))
  = mlx_initialized st || fst (mlx_init st) /\
  filter_state (snd (mlx_init st)) = filter_state st.
Proof.
  split; [apply mlx_init_true|]. split; [apply mlx_init_trace|].
  pose proof (mlx_init_globals st) as (_ & _ & S & F & _ & I).
  split; [|split; [exact I|unfold filter_state; congruence]].
  intros H. rewrite mlx_init_result.
  destruct (mlx_exit_mode st) as [e st1]. cbn [fst snd] in *. subst e.
  reflexivity.
Qed.

(* ================================================================== *)
(** ** Invariants of the polling loop *)
(* ================================================================== *)

(** What one cycle does to the globals. *)
Lemma main_loop_body_globals st :
  let r := main_loop_body st in
  same_configuration st (snd r) /\
  mlx_initialized (snd r) = mlx_initialized st /\
  first_mag_reading (snd r)
  = first_mag_reading st && negb (is_reading (fst r)) /\
  (is_reading (fst r) = false -> smoothed_z (snd r) = smoothed_z st) /\
  (fst r = Line_not_initialized <-> mlx_initialized st = false).
Proof.
  cbv zeta. unfold same_configuration. destruct (mlx_initialized st) eqn:Hi.
  - rewrite (main_loop_body_result st Hi).
    pose proof (mlx_read_data_globals st) as (G & R & S & F & I & B).
    destruct (mlx_read_data st) as [[z|] st1]; cbn [fst snd] in *.
    + rewrite filter_update_result.
      destruct (first_mag_reading st1) eqn:F1; cbn; rewrite ?F1, F; cbn;
        repeat split; try congruence; discriminate.
    + cbn. rewrite andb_true_r. repeat split; try congruence; discriminate.
  - rewrite (main_loop_body_uninitialized st Hi). cbn.
    rewrite andb_true_r. repeat split; congruence.
Qed.

(** X12.  Invariants of the polling loop, for any number of cycles from
    any state.  Gain, resolution, bus and the initialized flag are left as
    they were.  The first-reading flag is true afterwards exactly when it
    was true before and no reading was printed; while no reading is
    printed the smoothed value does not change.  A cycle prints "not
    initialized" exactly when the flag was false at the start. *)
Theorem main_loop_invariants n : forall st,
  let r := main_loop n st in
  same_configuration st (snd r) /\
  mlx_initialized (snd r) = mlx_initialized st /\
  first_mag_reading (snd r)
  = first_mag_reading st && negb (existsb is_reading (fst r)) /\
  (existsb is_reading (fst r) = false ->
   smoothed_z (snd r) = smoothed_z st) /\
  Forall (fun l => l = Line_not_initialized <-> mlx_initialized st = false)
         (fst r).
Proof.
  induction n as [|n IH]; intros st; cbv zeta.
  - cbn. rewrite andb_true_r. unfold same_configuration. repeat split.
    constructor.
  - rewrite main_loop_step. cbn [fst snd existsb].
    pose proof (main_loop_body_globals st) as ((G & R & B) & I & F & S & L).
    cbv zeta in *.
    destruct (IH (snd (main_loop_body st)))
      as ((G' & R' & B') & I' & F' & S' & L').
    cbv zeta in *. unfold same_configuration.
    split; [repeat split; congruence|]. split; [congruence|].
    split.
    { rewrite F', F, negb_orb, andb_assoc. reflexivity. }
    split.
    { intros H. apply orb_false_iff in H. destruct H as [H1 H2].
      rewrite (S' H2). apply S. exact H1. }
    constructor; [exact L|]. rewrite I in L'. exact L'.
Qed.

(** A delivered value is a decode at the current gain and resolution. *)
Lemma mlx_read_data_value st z :
  fst (mlx_read_data st) = Some z ->
  exists d5 d6, z = decode_z (mlx_gain st) (mlx_res_z st) d5 d6.
Proof.
  intros H. apply mlx_read_data_some in H. destruct H as (rx & _ & ->).
  eauto.
Qed.

(** One cycle keeps the configuration and the band. *)
Lemma main_loop_body_in_band st :
  configured st ->
  configured (snd (main_loop_body st)) /\
  line_in_band (fst (main_loop_body st)).
Proof.
  intros (G & R & S). destruct (mlx_initialized st) eqn:Hi.
  - rewrite (main_loop_body_result st Hi).
    pose proof (mlx_read_data_globals st) as (G1 & R1 & S1 & F1 & _).
    pose proof (mlx_read_data_value st) as V.
    destruct (mlx_read_data st) as [[z|] st1]; cbn [fst snd] in *.
    + destruct (V z eq_refl) as (d5 & d6 & ->). rewrite G, R.
      destruct (decode_z_configured d5 d6) as (Fz & Vz & Bz).
      set (z := decode_z MLX90393_GAIN_1X MLX90393_RES_16 d5 d6) in *.
      rewrite filter_update_result, <- F1.
      destruct (first_mag_reading st) eqn:E1; cbn [fst snd].
      * assert (Bz' : (12 <= F32.toQ z <= 28)%Q) by lra.
        split; [|split; assumption].
        split; [cbn; congruence|]. split; [cbn; congruence|].
        intros _. change (in_band z). repeat split; try assumption; lra.
      * destruct (S eq_refl) as (Fs & Vs & Bs).
        rewrite <- S1.
        destruct (smooth_in_band z (smoothed_z st) Fz Vz Fs Vs Bz Bs)
          as (Fr & Vr & Br).
        split; [|split; assumption].
        split; [cbn; congruence|]. split; [cbn; congruence|].
        intros _. change (in_band (smooth z FILTER_VAL (smoothed_z st))).
        repeat split; try assumption; apply Br.
    + split; [|exact I].
      split; [cbn; congruence|]. split; [cbn; congruence|].
      cbn. rewrite <- F1, <- S1. exact S.
  - rewrite (main_loop_body_uninitialized st Hi).
    split; [|exact I]. exact (conj G (conj R S)).
Qed.

Lemma main_loop_in_band n : forall st,
  configured st ->
  Forall line_in_band (fst (main_loop n st)) /\
  configured (snd (main_loop n st)).
Proof.
  induction n as [|n IH]; intros st H.
  - split; [constructor|exact H].
  - rewrite main_loop_step. cbn [fst snd].
    destruct (main_loop_body_in_band st H) as (H1 & L1).
    destruct (IH _ H1) as (L & H2).
    split; [constructor; assumption|exact H2].
Qed.

(** X14.  Whatever the bus delivers, every field value the program prints
    is a finite number between 12 and 28 mT. *)
Theorem main_prints_in_band n bus :
  Forall line_in_band (snd (fst (main n (initial_state bus)))).
Proof.
  rewrite main_result. cbv zeta. cbn [fst snd].
  apply main_loop_in_band.
  pose proof (mlx_init_globals (advance_clock 2000 (initial_state bus)))
    as (G & R & _ & F & _).
  cbv zeta in *. split; [rewrite G; reflexivity|].
  split; [rewrite R; reflexivity|].
  rewrite F. cbn. discriminate.
Qed.

(* ================================================================== *)
(** ** Shape of the transfer log *)
(* ================================================================== *)

(** What each function appends to the log: the exchange its write, or
    its write and read; a read attempt and the initialization an initial
    part of their four transfers. *)
Lemma mlx_transceive_ops tx rx_len st :
  let st' := snd (mlx_transceive tx rx_len st) in
  i2c_log st' = I2C_write tx :: i2c_log st \/
  i2c_log st' = I2C_read (rx_len + 1) :: I2C_write tx :: i2c_log st.
Proof.
  cbv zeta. rewrite mlx_transceive_result.
  destruct (i2c_bus st (length (i2c_log st))); [right|left; reflexivity].
  destruct rx_len; reflexivity.
Qed.

Lemma mlx_read_data_ops st :
  exists j, (j <= 3)%nat /\
    i2c_log (snd (mlx_read_data st)) = skipn j cycle_ops ++ i2c_log st.
Proof.
  rewrite mlx_read_data_result, mlx_start_measurement_result. cbv zeta.
  cbn [fst snd].
  set (cs := Z.lor MLX90393_REG_SM MLX90393_AXIS_ALL).
  pose proof (mlx_transceive_ops [cs] 0 st) as T1. cbv zeta in T1.
  destruct (fst (mlx_transceive [cs] 0 st)) as [rx1|] eqn:V1.
  - apply mlx_transceive_some in V1. destruct V1 as (E1 & _).
    rewrite E1 in *.
    destruct ((status_code (rx1 0%nat) =? 0)
              || (status_code (rx1 0%nat) =? 8)).
    + rewrite mlx_read_measurement_result. cbv zeta. cbn [snd].
      set (cr := Z.lor MLX90393_REG_RM MLX90393_AXIS_ALL).
      pose proof (mlx_transceive_ops [cr] 6
                    (advance_clock 10 (after_exchange [cs] 0 st))) as T2.
      cbv zeta in T2. destruct T2 as [T2|T2]; rewrite T2.
      * exists 1%nat. split; [lia|reflexivity].
      * exists 0%nat. split; [lia|reflexivity].
    + exists 2%nat. split; [lia|reflexivity].
  - cbn [snd]. destruct T1 as [T1|T1]; rewrite T1.
    + exists 3%nat. split; [lia|reflexivity].
    + exists 2%nat. split; [lia|reflexivity].
Qed.

Lemma main_loop_body_ops st :
  exists j, (j <= 4)%nat /\
    i2c_log (snd (main_loop_body st)) = skipn j cycle_ops ++ i2c_log st.
Proof.
  destruct (mlx_initialized st) eqn:Hi.
  - rewrite (main_loop_body_result st Hi).
    destruct (mlx_read_data_ops st) as (j & Hj & E).
    exists j. split; [lia|].
    destruct (mlx_read_data st) as [[z|] st1]; cbn [fst snd] in *.
    + rewrite filter_update_result.
      destruct (first_mag_reading st1); exact E.
    + exact E.
  - rewrite (main_loop_body_uninitialized st Hi).
    exists 4%nat. split; [lia|reflexivity].
Qed.

Lemma main_loop_ops n : forall st,
  exists js, length js = n /\ Forall (fun j => (j <= 4)%nat) js /\
    i2c_log (snd (main_loop n st))
    = flat_map (fun j => skipn j cycle_ops) js ++ i2c_log st.
Proof.
  induction n as [|n IH]; intros st.
  - exists []. repeat split. constructor.
  - rewrite main_loop_step. cbn [snd].
    destruct (main_loop_body_ops st) as (j & Hj & E).
    destruct (IH (snd (main_loop_body st))) as (js & L & F & E').
    exists (js ++ [j]). split; [rewrite length_app; cbn; lia|].
    split.
    { apply Forall_app. split; [exact F|].
      constructor; [exact Hj|constructor]. }
    rewrite E', E, flat_map_app. cbn [flat_map].
    rewrite app_nil_r, app_assoc. reflexivity.
Qed.

Lemma mlx_init_ops st :
  exists k, (k <= 3)%nat /\
    i2c_log (snd (mlx_init st)) = skipn k init_ops ++ i2c_log st.
Proof.
  rewrite mlx_init_result, mlx_exit_mode_result. cbn [fst snd].
  pose proof (mlx_transceive_ops [MLX90393_REG_EX] 0 st) as T1.
  cbv zeta in T1.
  destruct (fst (mlx_transceive [MLX90393_REG_EX] 0 st)) as [rx1|] eqn:V1.
  - apply mlx_transceive_some in V1. destruct V1 as (E1 & _).
    rewrite E1 in *.
    destruct (status_code (rx1 0%nat) =? 0).
    + set (st1 := after_exchange [MLX90393_REG_EX] 0 st).
      rewrite mlx_reset_result.
      pose proof (mlx_transceive_ops [MLX90393_REG_RT] 0 st1) as T2.
      cbv zeta in T2.
      destruct (fst (mlx_transceive [MLX90393_REG_RT] 0 st1)) as [rx3|]
        eqn:V2.
      * apply mlx_transceive_some in V2. destruct V2 as (E2 & _).
        rewrite E2. exists 0%nat. split; [lia|].
        destruct (status_code (rx3 0%nat) =? 1); reflexivity.
      * cbn [snd]. destruct T2 as [T2|T2]; rewrite T2.
        -- exists 1%nat. split; [lia|reflexivity].
        -- exists 0%nat. split; [lia|reflexivity].
    + exists 2%nat. split; [lia|reflexivity].
  - cbn [snd]. destruct T1 as [T1|T1]; rewrite T1.
    + exists 3%nat. split; [lia|reflexivity].
    + exists 2%nat. split; [lia|reflexivity].
Qed.

(** X15.  Shape of the transfer log of a run.  Newest first, the log of
    [main] with [n] cycles consists, for each cycle, of an initial part
    (possibly empty) of the sequence write 0x3E, read 1, write 0x4E,
    read 7, after a non-empty initial part of the sequence write 0x80,
    read 1, write 0xF0, read 1 issued by the initialization.  So no other
    command is ever written, a read is only issued right after the write
    of its command, and EXIT_MODE and RESET are not sent again. *)
Theorem main_trace n bus :
  exists k js,
    (k <= 3)%nat /\ length js = n /\ Forall (fun j => (j <= 4)%nat) js /\
    i2c_log (snd (main n (initial_state bus)))
    = flat_map (fun j => skipn j cycle_ops) js ++ skipn k init_ops.
Proof.
  rewrite main_result. cbv zeta. cbn [snd].
  destruct (mlx_init_ops (advance_clock 2000 (initial_state bus)))
    as (k & Hk & E).
  destruct (main_loop_ops n
              (snd (mlx_init (advance_clock 2000 (initial_state bus)))))
    as (js & L & F & E').
  exists k, js. repeat split; try assumption.
  rewrite E', E. cbn [advance_clock initial_state i2c_log].
  rewrite app_nil_r. reflexivity.
Qed.

(* ================================================================== *)
(** ** A run on an answering bus *)
(* ================================================================== *)

(** An answering bus lets the initialization succeed from an empty log
    and delivers a reading to every later attempt. *)
Lemma answering_bus_init st :
  answering_bus (i2c_bus st) -> length (i2c_log st) = 0%nat ->
  init_on_bus st.
Proof.
  intros H L. unfold init_on_bus. cbv zeta. rewrite L.
  destruct (H 0%nat) as (d0 & A0 & _). destruct (H 1%nat) as (rx1 & A1 & S1).
  destruct (H 2%nat) as (d2 & A2 & _). destruct (H 3%nat) as (rx3 & A3 & S3).
  exists d0, rx1, d2, rx3. repeat split; assumption.
Qed.

Lemma answering_bus_reading st :
  answering_bus (i2c_bus st) -> (4 <= length (i2c_log st))%nat ->
  exists rx, reading_on_bus st rx.
Proof.
  intros H L. unfold reading_on_bus. cbv zeta.
  set (n := length (i2c_log st)) in *.
  destruct (H n) as (d0 & A0 & _). destruct (H (n + 1)%nat) as (rx1 & A1 & S1).
  destruct (H (n + 2)%nat) as (d2 & A2 & _).
  destruct (H (n + 3)%nat) as (rx3 & A3 & S3).
  assert (N1 : (n + 1 =? 3)%nat = false) by (apply Nat.eqb_neq; lia).
  assert (N3 : (n + 3 =? 3)%nat = false) by (apply Nat.eqb_neq; lia).
  rewrite N1 in S1. rewrite N3 in S3.
  exists rx3, d0, rx1, d2. repeat split; try assumption. left. exact S1.
Qed.

(** On an answering bus every cycle of an initialized driver prints a
    reading. *)
Lemma main_loop_on_answering_bus n : forall st,
  answering_bus (i2c_bus st) -> mlx_initialized st = true ->
  (4 <= length (i2c_log st))%nat ->
  let r := main_loop n st in
  Forall (fun l => is_reading l = true) (fst r) /\
  transfers st (snd r) = 4 * Z.of_nat n /\
  elapsed st (snd r) = 130 * Z.of_nat n.
Proof.
  induction n as [|n IH]; intros st HB Hi HL; cbv zeta.
  - unfold transfers, elapsed. cbn. repeat split; try lia. constructor.
  - rewrite main_loop_step. cbn [fst snd].
    destruct (answering_bus_reading st HB HL) as (rx & Hrx).
    assert (R : fst (mlx_read_data st)
                = Some (decode_z (mlx_gain st) (mlx_res_z st)
                                 (rx 5%nat) (rx 6%nat))).
    { apply mlx_read_data_some. exists rx. split; [exact Hrx|reflexivity]. }
    assert (L : is_reading (fst (main_loop_body st)) = true).
    { rewrite (main_loop_body_result st Hi).
      destruct (mlx_read_data st) as [[z|] st1]; [reflexivity|discriminate]. }
    pose proof (main_loop_body_cost_aux st) as (K & T & C). cbv zeta in *.
    pose proof (main_loop_body_globals st) as ((_ & _ & B) & I & _).
    cbv zeta in *.
    destruct (fst (main_loop_body st)); try discriminate.
    set (st1 := snd (main_loop_body st)) in *.
    assert (HL1 : (4 <= length (i2c_log st1))%nat)
      by (unfold transfers in C; lia).
    destruct (IH st1) as (F' & K' & T');
      [rewrite <- B; exact HB | congruence | exact HL1 |].
    cbv zeta in *. unfold transfers, elapsed in *.
    split; [constructor; [reflexivity|exact F']|]. split; lia.
Qed.

(** X16.  On a bus that acknowledges every transfer and answers RESET
    with status code 0x01 and every other command with 0x00, the
    initialization succeeds and every cycle prints a reading; [n] cycles
    take [4 + 4 * n] transfers and [2035 + 130 * n] ms of delays, that is
    one reading every 130 ms. *)
Theorem main_on_answering_bus n bus :
  answering_bus bus ->
  let r := main n (initial_state bus) in
  fst (fst r) = true /\
  Forall (fun l => is_reading l = true) (snd (fst r)) /\
  length (snd (fst r)) = n /\
  transfers (initial_state bus) (snd r) = 4 + 4 * Z.of_nat n /\
  elapsed (initial_state bus) (snd r) = 2035 + 130 * Z.of_nat n.
Proof.
  intros HB. cbv zeta. rewrite main_result. cbv zeta. cbn [fst snd].
  set (st0 := advance_clock 2000 (initial_state bus)).
  assert (Ok : fst (mlx_init st0) = true)
    by (apply mlx_init_true, answering_bus_init; [exact HB|reflexivity]).
  destruct (mlx_init_trace st0 Ok) as (L & C).
  pose proof (mlx_init_globals st0) as (_ & _ & _ & _ & B & I).
  cbv zeta in *. rewrite Ok, orb_true_r in I.
  pose proof (main_loop_cost n (snd (mlx_init st0))) as (Ln & _).
  destruct (main_loop_on_answering_bus n (snd (mlx_init st0)))
    as (F & K & T).
  - rewrite B. exact HB.
  - exact I.
  - rewrite L. cbn. lia.
  - cbv zeta in *. split; [exact Ok|]. split; [exact F|].
    split; [exact Ln|].
    unfold transfers, elapsed in *. rewrite L in K. rewrite C in T.
    cbn [length app initial_state advance_clock st0 i2c_log clock_ms] in *.
    split; lia.
Qed.

Lemma main_on_answering_bus_witness :
  let r := main 2 (initial_state (healthy_bus x00 x64)) in
  fst (fst r) = true /\
  Forall (fun l => is_reading l = true) (snd (fst r)) /\
  length (snd (fst r)) = 2%nat /\
  transfers (initial_state (healthy_bus x00 x64)) (snd r)
  = 4 + 4 * Z.of_nat 2 /\
  elapsed (initial_state (healthy_bus x00 x64)) (snd r)
  = 2035 + 130 * Z.of_nat 2.
Proof.
  apply (main_on_answering_bus 2 (healthy_bus x00 x64)).
  intros k. eexists. split; [reflexivity|].
  cbv beta iota. destruct (k =? 3)%nat; reflexivity.
Defined.

(* ================================================================== *)
(** ** Repeated updates with the same input *)
(* ================================================================== *)

(** [smooth] keeps its result canonical as well: the statement of
    [smooth_rounding_error] with validity added, for use under
    iteration. *)
Lemma smooth_rounding_error_valid data c smoothed b :
  F32.is_finite data = true -> F32.valid data = true ->
  F32.is_finite c = true -> F32.valid c = true ->
  F32.is_finite smoothed = true -> F32.valid smoothed = true ->
  (0 <= F32.toQ c < 1)%Q ->
  (Qabs (F32.toQ data) <= b)%Q -> (Qabs (F32.toQ smoothed) <= b)%Q ->
  (b <= 2 ^ 126)%Q ->
  F32.is_finite (smooth data c smoothed) = true /\
  F32.valid (smooth data c smoothed) = true /\
  (Qabs (F32.toQ (smooth data c smoothed)
         - (F32.toQ data * (1 - F32.toQ c) + F32.toQ smoothed * F32.toQ c))
   <= 2 ^ (-21) * b + 2 ^ (-148))%Q.
Proof.
  intros Fd Vd Fc Vc Fs Vs [C0 C1] HD HS Hb. unfold smooth.
  assert (F1 : F32.is_finite F32.one = true) by reflexivity.
  assert (V1 : F32.valid F32.one = true) by reflexivity.
  assert (Q1 : (F32.toQ F32.one == 1)%Q) by reflexivity.
  set (D := F32.toQ data) in *. set (S := F32.toQ smoothed) in *.
  set (C := F32.toQ c) in *.
  assert (E : (F32.eta <= 1 # 16777216)%Q) by (unfold Qle; cbn; lia).
  assert (E0 : (0 < F32.eta)%Q) by reflexivity.
  assert (B126 : (2 ^ 126 == 85070591730234615865843651857942052864)%Q)
    by reflexivity.
  assert (B127 : (2 ^ 127 == 170141183460469231731687303715884105728)%Q)
    by reflexivity.
  assert (E4 : (2 ^ (-148) == 4 * F32.eta)%Q) by reflexivity.
  assert (U8 : (2 ^ (-21) == 8 # 16777216)%Q) by reflexivity.
  assert (b0 : (0 <= b)%Q)
    by (eapply Qle_trans; [apply (Qabs_nonneg D) | exact HD]).
  (* a = 1 - c *)
  destruct (sub_rounding_error F32.one c F1 Fc V1 Vc) as (Fa & Va & Ea).
  { rewrite Q1. fold C. apply Qle_lt_trans with 1%Q; [|reflexivity].
    apply Qabs_intro; lra. }
  rewrite Q1 in Ea. fold C in Ea.
  set (a := F32.sub F32.one c) in *. set (A := F32.toQ a) in *.
  rewrite (Qabs_pos (1 - C)) in Ea by lra.
  apply Qabs_bound in Ea. destruct Ea as [Ea1 Ea2].
  change F32.eps with (1 # 16777216)%Q in Ea1, Ea2.
  assert (A0 : (Qabs A <= 3 # 2)%Q) by (apply Qabs_intro; lra).
  assert (A1 : (Qabs (A - (1 - C)) <= 2 # 16777216)%Q)
    by (apply Qabs_intro; lra).
  assert (C2 : (Qabs C <= C)%Q) by (apply Qabs_intro; lra).
  assert (C3 : (Qabs (1 - C) <= 1 - C)%Q) by (apply Qabs_intro; lra).
  (* p = data * a *)
  pose proof (Qabs_mul_le D A _ _ HD A0) as DA.
  destruct (mul_rounding_error data a Fd Fa Vd Va) as (Fp & Vp & Ep).
  { fold D A. eapply Qle_lt_trans; [exact DA|]. rewrite B127. lra. }
  fold D A in Ep. set (p := F32.mul data a) in *.
  set (P := F32.toQ p) in *.
  (* q = smoothed * c *)
  pose proof (Qabs_mul_le S C _ _ HS C2) as SC.
  destruct (mul_rounding_error smoothed c Fs Fc Vs Vc) as (Fq & Vq & Eq_).
  { fold S C. eapply Qle_lt_trans; [exact SC|]. rewrite B127.
    setoid_replace (b * C)%Q with (b - b * (1 - C))%Q by ring.
    assert (0 <= b * (1 - C))%Q by (apply Qmult_le_0_compat; lra).
    lra. }
  fold S C in Eq_. set (q := F32.mul smoothed c) in *.
  set (Qv := F32.toQ q) in *.
  change F32.eps with (1 # 16777216)%Q in Ep, Eq_.
  (* the exact weighted mean and its distance to p + q *)
  pose proof (Qabs_mul_le D (A - (1 - C)) _ _ HD A1) as DE.
  pose proof (Qabs_mul_le D (1 - C) _ _ HD C3) as DC.
  assert (SC' : (Qabs (S * C) <= b)%Q).
  { eapply Qle_trans; [exact SC|].
    setoid_replace (b * C)%Q with (b - b * (1 - C))%Q by ring.
    assert (0 <= b * (1 - C))%Q by (apply Qmult_le_0_compat; lra).
    lra. }
  assert (W : (Qabs (D * (1 - C) + S * C) <= b)%Q).
  { eapply Qle_trans; [apply Qabs_triangle|].
    setoid_replace (b * (1 - C))%Q with (b - b * C)%Q in DC by ring.
    lra. }
  assert (PQ : (Qabs (P + Qv - (D * (1 - C) + S * C))
                <= (9 # 33554432) * b + 2 * F32.eta)%Q).
  { setoid_replace (P + Qv - (D * (1 - C) + S * C))%Q
      with ((P - D * A) + (Qv - S * C) + D * (A - (1 - C)))%Q by ring.
    apply Qabs_bound in Ep, Eq_, DE.
    revert Ep Eq_ DE DA SC'.
    generalize (P - D * A)%Q (Qv - S * C)%Q (D * (A - (1 - C)))%Q
      (Qabs (D * A)) (Qabs (S * C)).
    intros d2 d3 de ada asc Ep Eq_ DE DA SC'. apply Qabs_intro; lra. }
  assert (PQ' : (Qabs (P + Qv) <= (33554441 # 33554432) * b
                                  + 2 * F32.eta)%Q).
  { setoid_replace (P + Qv)%Q
      with ((P + Qv - (D * (1 - C) + S * C)) + (D * (1 - C) + S * C))%Q
      by ring.
    eapply Qle_trans; [apply Qabs_triangle|]. lra. }
  (* r = p + q *)
  destruct (add_rounding_error p q Fp Fq Vp Vq) as (Fr & Vr & Er).
  { fold P Qv. eapply Qle_lt_trans; [exact PQ'|]. rewrite B127. lra. }
  fold P Qv in Er. split; [exact Fr|]. split; [exact Vr|].
  set (r := F32.add p q) in *.
  setoid_replace (F32.toQ r - (D * (1 - C) + S * C))%Q
    with ((F32.toQ r - (P + Qv)) + (P + Qv - (D * (1 - C) + S * C)))%Q
    by ring.
  eapply Qle_trans; [apply Qabs_triangle|].
  change F32.eps with (1 # 16777216)%Q in Er.
  rewrite U8, E4. lra.
Qed.

(** One update with the input [x] from a state within [d] of [x]: the
    distance shrinks by the coefficient, up to the rounding error. *)
Lemma smooth_step_toward x c s d :
  F32.is_finite x = true -> F32.valid x = true ->
  F32.is_finite c = true -> F32.valid c = true ->
  F32.is_finite s = true -> F32.valid s = true ->
  (0 <= F32.toQ c < 1)%Q ->
  (Qabs (F32.toQ s - F32.toQ x) <= d)%Q ->
  (Qabs (F32.toQ x) + d <= 2 ^ 126)%Q ->
  F32.is_finite (smooth x c s) = true /\
  F32.valid (smooth x c s) = true /\
  (Qabs (F32.toQ (smooth x c s) - F32.toQ x)
   <= F32.toQ c * d + 2 ^ (-21) * (Qabs (F32.toQ x) + d) + 2 ^ (-148))%Q.
Proof.
  intros Fx Vx Fc Vc Fs Vs [C0 C1] Hd Hb.
  set (X := F32.toQ x) in *. set (S := F32.toQ s) in *.
  set (C := F32.toQ c) in *.
  assert (HS : (Qabs S <= Qabs X + d)%Q).
  { setoid_replace S with (X + (S - X))%Q by ring.
    eapply Qle_trans; [apply Qabs_triangle|]. lra. }
  assert (d0 : (0 <= d)%Q)
    by (eapply Qle_trans; [apply (Qabs_nonneg (S - X))|exact Hd]).
  assert (HX : (Qabs X <= Qabs X + d)%Q) by lra.
  destruct (smooth_rounding_error_valid x c s (Qabs X + d)
              Fx Vx Fc Vc Fs Vs (conj C0 C1) HX HS Hb) as (F & V & E).
  split; [exact F|]. split; [exact V|].
  fold X S C in E. set (R := F32.toQ (smooth x c s)) in *.
  assert (CC : (Qabs C <= C)%Q) by (apply Qabs_intro; lra).
  pose proof (Qabs_mul_le C (S - X) _ _ CC Hd) as M.
  setoid_replace (R - X)%Q
    with ((R - (X * (1 - C) + S * C)) + C * (S - X))%Q by ring.
  eapply Qle_trans; [apply Qabs_triangle|].
  revert E M. generalize (Qabs (R - (X * (1 - C) + S * C)))
    (Qabs (C * (S - X))) (C * d)%Q (2 ^ (-21) * (Qabs X + d))%Q
    (2 ^ (-148))%Q.
  intros. lra.
Qed.

(** From the state [x], at most [2^19] updates: the distance to [x]
    grows by at most one allowance per update. *)
Lemma smooth_iter_linear x c :
  F32.is_finite x = true -> F32.valid x = true ->
  F32.is_finite c = true -> F32.valid c = true ->
  (0 <= F32.toQ c < 1)%Q -> (Qabs (F32.toQ x) <= 2 ^ 124)%Q ->
  forall n, Z.of_nat n <= 2 ^ 19 ->
  F32.is_finite (smooth_iter n x c x) = true /\
  F32.valid (smooth_iter n x c x) = true /\
  (Qabs (F32.toQ (smooth_iter n x c x) - F32.toQ x)
   <= inject_Z (Z.of_nat n) * smooth_slack x)%Q.
Proof.
  intros Fx Vx Fc Vc [C0 C1] HX. unfold smooth_slack.
  set (X := F32.toQ x) in *. set (C := F32.toQ c) in *.
  pose proof (Qabs_nonneg X) as A0.
  assert (U20 : (2 ^ (-20) == 1 # 1048576)%Q) by reflexivity.
  assert (U21 : (2 ^ (-21) == 1 # 2097152)%Q) by reflexivity.
  assert (E147 : (2 ^ (-147) == 2 * 2 ^ (-148))%Q) by reflexivity.
  assert (E0 : (0 < 2 ^ (-148))%Q) by reflexivity.
  assert (E1 : (524288 * 2 ^ (-148) <= 1)%Q) by discriminate.
  assert (B124 : (2 ^ 124 == 21267647932558653966460912964485513216)%Q)
    by reflexivity.
  assert (B126 : (2 ^ 126 == 85070591730234615865843651857942052864)%Q)
    by reflexivity.
  induction n as [|n IH]; intros Hn.
  - cbn [smooth_iter]. split; [exact Fx|]. split; [exact Vx|]. fold X.
    setoid_replace (X - X)%Q with 0%Q by ring. cbn. rewrite Qmult_0_l.
    apply Qle_refl.
  - destruct IH as (F & V & D); [lia|]. cbn [smooth_iter].
    set (s := smooth_iter n x c x) in *.
    set (E := (2 ^ (-20) * Qabs X + 2 ^ (-147))%Q) in *.
    assert (EE : (E == (1 # 1048576) * Qabs X + 2 * 2 ^ (-148))%Q)
      by (unfold E; rewrite U20, E147; reflexivity).
    assert (En : (0 <= E)%Q) by (rewrite EE; lra).
    set (t := (inject_Z (Z.of_nat n) * E)%Q) in *.
    assert (T0 : (0 <= t)%Q).
    { apply Qmult_le_0_compat; [|exact En].
      change 0%Q with (inject_Z 0). apply inject_Z_le. lia. }
    assert (T1 : (t <= 524288 * E)%Q).
    { apply Qmult_le_compat_r; [|exact En].
      change 524288%Q with (inject_Z (2 ^ 19)). apply inject_Z_le. lia. }
    assert (CT : (C * t <= t)%Q).
    { setoid_replace t with (1 * t)%Q at 2 by ring.
      apply Qmult_le_compat_r; [lra|exact T0]. }
    destruct (smooth_step_toward x c s t Fx Vx Fc Vc F V (conj C0 C1) D)
      as (F' & V' & D').
    { fold X. rewrite B126. rewrite B124 in HX. rewrite EE in T1. lra. }
    split; [exact F'|]. split; [exact V'|].
    fold X C in D'. eapply Qle_trans; [exact D'|].
    assert (N : (inject_Z (Z.of_nat (S n)) * E == t + E)%Q).
    { unfold t. rewrite Nat2Z.inj_succ. unfold Z.succ.
      rewrite inject_Z_plus. change (inject_Z 1) with 1%Q. ring. }
    rewrite N, U21. rewrite EE in T1 |- *.
    revert T0 T1 CT. generalize (C * t)%Q. intros ct T0 T1 CT. lra.
Qed.

(** From the state [x], any number of updates with a coefficient at
    least [2^-20] below 1: the distance to [x] times [1 - c] stays within
    one allowance. *)
Lemma smooth_iter_bounded x c :
  F32.is_finite x = true -> F32.valid x = true ->
  F32.is_finite c = true -> F32.valid c = true ->
  (0 <= F32.toQ c)%Q -> (2 ^ (-20) <= 1 - F32.toQ c)%Q ->
  (Qabs (F32.toQ x) <= 2 ^ 124)%Q ->
  forall n,
  F32.is_finite (smooth_iter n x c x) = true /\
  F32.valid (smooth_iter n x c x) = true /\
  ((1 - F32.toQ c) * Qabs (F32.toQ (smooth_iter n x c x) - F32.toQ x)
   <= smooth_slack x)%Q.
Proof.
  intros Fx Vx Fc Vc C0 C1 HX. unfold smooth_slack.
  set (X := F32.toQ x) in *. set (C := F32.toQ c) in *.
  pose proof (Qabs_nonneg X) as A0.
  assert (U20 : (2 ^ (-20) == 1 # 1048576)%Q) by reflexivity.
  assert (U21 : (2 ^ (-21) == 1 # 2097152)%Q) by reflexivity.
  assert (E147 : (2 ^ (-147) == 2 * 2 ^ (-148))%Q) by reflexivity.
  assert (E0 : (0 < 2 ^ (-148))%Q) by reflexivity.
  assert (E1 : (2097152 * 2 ^ (-148) <= 1)%Q) by discriminate.
  assert (B124 : (2 ^ 124 == 21267647932558653966460912964485513216)%Q)
    by reflexivity.
  assert (B126 : (2 ^ 126 == 85070591730234615865843651857942052864)%Q)
    by reflexivity.
  set (E := (2 ^ (-20) * Qabs X + 2 ^ (-147))%Q) in *.
  assert (EE : (E == (1 # 1048576) * Qabs X + 2 * 2 ^ (-148))%Q)
    by (unfold E; rewrite U20, E147; reflexivity).
  assert (En : (0 <= E)%Q) by (rewrite EE; lra).
  rewrite U20 in C1.
  induction n as [|n IH].
  - cbn [smooth_iter]. split; [exact Fx|]. split; [exact Vx|]. fold X.
    setoid_replace (X - X)%Q with 0%Q by ring.
    change (Qabs 0) with 0%Q. rewrite Qmult_0_r. exact En.
  - destruct IH as (F & V & D). cbn [smooth_iter].
    set (s := smooth_iter n x c x) in *.
    set (a := Qabs (F32.toQ s - X)) in *.
    assert (a0 : (0 <= a)%Q) by apply Qabs_nonneg.
    assert (A1 : ((1 # 1048576) * a <= (1 - C) * a)%Q)
      by (apply Qmult_le_compat_r; [exact C1|exact a0]).
    assert (A2 : (a <= 1048576 * E)%Q).
    { revert A1 D. generalize ((1 - C) * a)%Q. intros. lra. }
    destruct (smooth_step_toward x c s a Fx Vx Fc Vc F V) as (F' & V' & D').
    { fold C. split; lra. }
    { apply Qle_refl. }
    { fold X. rewrite B126. rewrite B124 in HX. rewrite EE in A2. lra. }
    split; [exact F'|]. split; [exact V'|].
    fold X C in D'. set (a' := Qabs (F32.toQ (smooth x c s) - X)) in *.
    assert (D2 : (a' <= C * a + E)%Q).
    { eapply Qle_trans; [exact D'|]. rewrite U21.
      rewrite EE in A2 |- *.
      generalize (C * a)%Q. intros. lra. }
    assert (H1 : ((1 - C) * a' <= (1 - C) * (C * a + E))%Q).
    { rewrite !(Qmult_comm (1 - C)).
      apply Qmult_le_compat_r; [exact D2|lra]. }
    assert (H2 : (C * ((1 - C) * a) <= C * E)%Q).
    { rewrite !(Qmult_comm C).
      apply Qmult_le_compat_r; [exact D|exact C0]. }
    eapply Qle_trans; [exact H1|].
    setoid_replace ((1 - C) * (C * a + E))%Q
      with (C * ((1 - C) * a) + E - C * E)%Q by ring.
    revert H2. generalize (C * ((1 - C) * a))%Q (C * E)%Q. intros. lra.
Qed.

(** Unfolding of the repeated update by its last step. *)
Lemma repeat_update_step n z st :
  repeat_update (S n) z st
  = (tt, snd (filter_update z (snd (repeat_update n z st)))).
Proof.
  cbn [repeat_update]. unfold bind, ret.
  destruct (repeat_update n z st) as [u st1]. cbn [snd].
  destruct (filter_update z st1). reflexivity.
Qed.

(** After a first reading [z], further readings of [z] iterate [smooth]
    from the state [z]. *)
Lemma repeat_update_smooth_iter n z st :
  first_mag_reading st = true ->
  first_mag_reading (snd (repeat_update (S n) z st)) = false /\
  smoothed_z (snd (repeat_update (S n) z st)) = smooth_iter n z FILTER_VAL z.
Proof.
  intros H. induction n as [|n IH].
  - rewrite repeat_update_step. cbn [repeat_update ret snd].
    rewrite filter_update_result, H. split; reflexivity.
  - rewrite repeat_update_step. destruct IH as (F & S).
    rewrite filter_update_result, F. cbn [snd set_smoothed_z smoothed_z
      first_mag_reading smooth_iter]. rewrite S. split; [exact F|reflexivity].
Qed.

(** The same with the program's coefficient. *)
Lemma smooth_iter_filter_val x :
  F32.is_finite x = true -> F32.valid x = true ->
  (Qabs (F32.toQ x) <= 2 ^ 124)%Q ->
  forall n,
  F32.is_finite (smooth_iter n x FILTER_VAL x) = true /\
  (Qabs (F32.toQ (smooth_iter n x FILTER_VAL x) - F32.toQ x)
   <= 2 ^ (-19) * Qabs (F32.toQ x) + 2 ^ (-146))%Q.
Proof.
  intros Fx Vx HX n.
  assert (QC : (F32.toQ FILTER_VAL == 13421773 # 33554432)%Q) by reflexivity.
  destruct (smooth_iter_bounded x FILTER_VAL Fx Vx eq_refl eq_refl)
    with (n := n) as (F & _ & D).
  - rewrite QC. discriminate.
  - rewrite QC. discriminate.
  - exact HX.
  - split; [exact F|]. unfold smooth_slack in D. rewrite QC in D.
    assert (U19 : (2 ^ (-19) == 2 * 2 ^ (-20))%Q) by reflexivity.
    assert (U146 : (2 ^ (-146) == 2 * 2 ^ (-147))%Q) by reflexivity.
    assert (U20 : (2 ^ (-20) == 1 # 1048576)%Q) by reflexivity.
    rewrite U19, U146. rewrite U20 in *.
    pose proof (Qabs_nonneg (F32.toQ x)) as A0.
    assert (E0 : (0 < 2 ^ (-147))%Q) by reflexivity.
    revert D A0 E0. generalize (Qabs (F32.toQ x)) (2 ^ (-147))%Q
      (Qabs (F32.toQ (smooth_iter n x FILTER_VAL x) - F32.toQ x)).
    intros. lra.
Qed.

(** C9 (amended).  Repeated updates with the same raw value [x], started
    from a smoothed state equal to [x], stay at [x] up to single-precision
    rounding, for every finite [x] with [|x| <= 2^124] and every
    coefficient [c] with [0 <= c < 1].  With [e = 2^-20 * |x| + 2^-147]: after
    [n <= 2^19] updates the state is finite and within [n * e] of [x];
    when [1 - c >= 2^-20] it is finite and within [e / (1 - c)] of [x]
    after any number of updates; with the program's coefficient it is
    within [2^-19 * |x| + 2^-146] of [x] after any number of updates, and
    this is the state of the main loop after a first reading [x] and [n]
    further readings [x]; a single update is within
    [2^-21 * |x| + 2^-148] of [x].  The state need not equal [x]. *)
Theorem smooth_repeated_updates_stay_near x c :
  F32.is_finite x = true -> F32.valid x = true ->
  F32.is_finite c = true -> F32.valid c = true ->
  (0 <= F32.toQ c < 1)%Q -> (Qabs (F32.toQ x) <= 2 ^ 124)%Q ->
  (forall n, Z.of_nat n <= 2 ^ 19 ->
     F32.is_finite (smooth_iter n x c x) = true /\
     (Qabs (F32.toQ (smooth_iter n x c x) - F32.toQ x)
      <= inject_Z (Z.of_nat n) * smooth_slack x)%Q) /\
  ((2 ^ (-20) <= 1 - F32.toQ c)%Q ->
   forall n,
     F32.is_finite (smooth_iter n x c x) = true /\
     ((1 - F32.toQ c) * Qabs (F32.toQ (smooth_iter n x c x) - F32.toQ x)
      <= smooth_slack x)%Q) /\
  (forall n,
     F32.is_finite (smooth_iter n x FILTER_VAL x) = true /\
     (Qabs (F32.toQ (smooth_iter n x FILTER_VAL x) - F32.toQ x)
      <= 2 ^ (-19) * Qabs (F32.toQ x) + 2 ^ (-146))%Q) /\
  (forall st n, first_mag_reading st = true ->
     smoothed_z (snd (repeat_update (S n) x st))
     = smooth_iter n x FILTER_VAL x) /\
  (Qabs (F32.toQ (smooth x c x) - F32.toQ x)
   <= 2 ^ (-21) * Qabs (F32.toQ x) + 2 ^ (-148))%Q.
Proof.
  intros Fx Vx Fc Vc Hc HX.
  split.
  { intros n Hn.
    destruct (smooth_iter_linear x c Fx Vx Fc Vc Hc HX n Hn) as (F & _ & D).
    split; assumption. }
  split.
  { intros H n.
    destruct (smooth_iter_bounded x c Fx Vx Fc Vc (proj1 Hc) H HX n)
      as (F & _ & D).
    split; assumption. }
  split; [apply smooth_iter_filter_val; assumption|].
  split; [intros st n H; apply repeat_update_smooth_iter; exact H|].
  assert (HX' : (Qabs (F32.toQ x) <= 2 ^ 126)%Q).
  { eapply Qle_trans; [exact HX|]. discriminate. }
  destruct (smooth_rounding_error x c x (Qabs (F32.toQ x))
              Fx Vx Fc Vc Fx Vx Hc (Qle_refl _) (Qle_refl _) HX')
    as [_ Er].
  setoid_replace
    (F32.toQ x * (1 - F32.toQ c) + F32.toQ x * F32.toQ c)%Q
    with (F32.toQ x) in Er by ring.
  exact Er.
Qed.

Lemma smooth_repeated_updates_stay_near_witness :
  let x := F32.of_Z 29 in
  (forall n, Z.of_nat n <= 2 ^ 19 ->
     F32.is_finite (smooth_iter n x FILTER_VAL x) = true /\
     (Qabs (F32.toQ (smooth_iter n x FILTER_VAL x) - F32.toQ x)
      <= inject_Z (Z.of_nat n) * smooth_slack x)%Q) /\
  ((2 ^ (-20) <= 1 - F32.toQ FILTER_VAL)%Q ->
   forall n,
     F32.is_finite (smooth_iter n x FILTER_VAL x) = true /\
     ((1 - F32.toQ FILTER_VAL)
      * Qabs (F32.toQ (smooth_iter n x FILTER_VAL x) - F32.toQ x)
      <= smooth_slack x)%Q) /\
  (forall n,
     F32.is_finite (smooth_iter n x FILTER_VAL x) = true /\
     (Qabs (F32.toQ (smooth_iter n x FILTER_VAL x) - F32.toQ x)
      <= 2 ^ (-19) * Qabs (F32.toQ x) + 2 ^ (-146))%Q) /\
  (forall st n, first_mag_reading st = true ->
     smoothed_z (snd (repeat_update (S n) x st))
     = smooth_iter n x FILTER_VAL x) /\
  (Qabs (F32.toQ (smooth x FILTER_VAL x) - F32.toQ x)
   <= 2 ^ (-21) * Qabs (F32.toQ x) + 2 ^ (-148))%Q.
Proof.
  apply (smooth_repeated_updates_stay_near (F32.of_Z 29) FILTER_VAL).
  - reflexivity.
  - reflexivity.
  - reflexivity.
  - reflexivity.
  - split; vm_compute; [discriminate | reflexivity].
  - vm_compute. discriminate.
Defined.

(** Two updates from the state 29 with the input 29: the state climbs by
    one unit in the last place each time, within the bounds above. *)
Lemma smooth_iter_29_drifts :
  smooth_iter 1 (F32.of_Z 29) FILTER_VAL (F32.of_Z 29)
    = S754_finite false 15204353 (-19) /\
  smooth_iter 2 (F32.of_Z 29) FILTER_VAL (F32.of_Z 29)
    = S754_finite false 15204354 (-19) /\
  smooth_iter 3 (F32.of_Z 29) FILTER_VAL (F32.of_Z 29)
    = smooth_iter 2 (F32.of_Z 29) FILTER_VAL (F32.of_Z 29).
Proof. vm_compute. repeat split. Qed.
